(** * Splitzee: balance engine, split validation and settlement link

    A shallow embedding of three pieces of the Splitzee web client:

    - [calculateBalances] of the Groups page (the "Balance Engine"),
    - [handleSubmit] of [AddGroupExpenseModal] (split validation and the
      two-step write of an expense and its splits),
    - [generateGooglePayUrl] of [utils/googlePay.ts] (the "Settlement
      Trigger").

    JavaScript numbers are IEEE 754 binary64 values; they are modelled by
    Rocq's primitive [float], whose operations are the binary64 ones
    (round to nearest, ties to even).  The balance engine is written once
    over the interface of the number operations it uses ([JsNumber]) and is
    instantiated at [float] (the running program) and at [Z] counting
    hundredths of a currency unit (exact two-decimal arithmetic, for the
    statements about what the same code computes when no step rounds).

    JavaScript strings are modelled by [string]; the models are meant for
    ASCII text (for other text, read a [string] as the UTF-8 bytes). *)

From Stdlib Require Import ZArith NArith List String Ascii Bool Lia.
From Stdlib Require Import Floats.
From Stdlib Require DecimalString DecimalN DecimalPos.
From stdpp Require Import base option list gmap strings fin_maps.

Local Open Scope string_scope.
Local Open Scope Z_scope.
Local Open Scope list_scope.

Set Warnings "-inexact-float".

(* ===================================================================== *)
(** * Part I.  Definitions *)
(* ===================================================================== *)

(* --------------------------------------------------------------------- *)
(** ** 1. JavaScript numbers *)
(* --------------------------------------------------------------------- *)

(** The operations [calculateBalances] performs on numbers: the literal
    [0], [+], [-] and truthiness (the left operand of [x || 0]). *)
Class JsNumber (num : Type) := {
  n_zero : num;
  n_add : num -> num -> num;
  n_sub : num -> num -> num;
  n_truthy : num -> bool;
}.

(** A binary64 number is falsy exactly when it is [+0], [-0] or [NaN]. *)
Definition float_truthy (x : float) : bool :=
  negb (PrimFloat.is_zero x || PrimFloat.is_nan x).

#[export] Instance binary64 : JsNumber float := {|
  n_zero := 0%float;
  n_add := PrimFloat.add;
  n_sub := PrimFloat.sub;
  n_truthy := float_truthy;
|}.

(** Exact arithmetic on amounts with two fractional digits, counted in
    hundredths of a currency unit ([decimal(10, 2)] columns). *)
#[export] Instance hundredths : JsNumber Z := {|
  n_zero := 0;
  n_add := Z.add;
  n_sub := Z.sub;
  n_truthy := fun x => negb (x =? 0);
|}.

(** The binary64 number nearest to an integer below [2^63] in magnitude. *)
Definition float_of_Z (z : Z) : float :=
  if z <? 0 then PrimFloat.opp (PrimFloat.of_uint63 (Uint63.of_Z (- z)))
  else PrimFloat.of_uint63 (Uint63.of_Z z).

(** [of_hundredths c] is the binary64 number that a two-decimal amount of
    [c] hundredths is read as: the double nearest to [c / 100] (for
    [|c| < 2^53] both operands are exact and the division rounds once). *)
Definition of_hundredths (c : Z) : float :=
  PrimFloat.div (float_of_Z c) 100%float.

(** Sum of a list of integers. *)
Fixpoint sumZ (l : list Z) : Z :=
  match l with
  | [] => 0
  | x :: r => x + sumZ r
  end.

(** Number of binary digits of a positive integer. *)
Fixpoint bits (m : positive) : nat :=
  match m with
  | xH => 1
  | xO p | xI p => S (bits p)
  end.

(** Neither [NaN] nor [-0]: the values on which [x || 0] evaluates to [x]
    itself. *)
Definition sf_clean (x : spec_float) : Prop :=
  x <> S754_nan /\ x <> S754_zero true.

Definition sf_finite (x : spec_float) : Prop :=
  match x with S754_nan | S754_infinity _ => False | _ => True end.

Definition clean (x : float) : Prop := sf_clean (Prim2SF x).

(** [m * 2^n]. *)
Definition shl (m : positive) (n : nat) : positive := Nat.iter n xO m.

(** The binary64 number of value [+-m], for [m] below [2^53]: the 53-bit
    mantissa [m * 2^(53 - bits m)] at the exponent [bits m - 53]. *)
Definition canon (s : bool) (m : positive) : spec_float :=
  S754_finite s (shl m (53 - bits m)) (Z.of_nat (bits m) - 53).

(** The binary64 number of value [z], for [z] below [2^53] in magnitude. *)
Definition SFint (z : Z) : spec_float :=
  match z with
  | Z0 => S754_zero false
  | Zpos p => canon false p
  | Zneg p => canon true p
  end.

(** The value of a finite nonzero number with sign [s] and mantissa [p] at
    exponent 0. *)
Definition signed_value (s : bool) (p : positive) : Z := cond_Zopp s (Zpos p).

(* --------------------------------------------------------------------- *)
(** ** 2. Amounts as decimal text *)
(* --------------------------------------------------------------------- *)

Definition decimal_digits (n : Z) : string :=
  DecimalString.NilZero.string_of_uint (N.to_uint (Z.to_N n)).

Definition digit_char (d : Z) : ascii := ascii_of_N (48 + Z.to_N d).

(** The digits of [n], padded to three, with a point before the last two. *)
Definition fixed2 (n : Z) : string :=
  decimal_digits (n / 100)
  +:+ String "."%char
        (String (digit_char ((n mod 100) / 10)) (String (digit_char (n mod 10)) EmptyString)).

Definition is_digit (c : ascii) : bool :=
  let n := N_of_ascii c in ((48 <=? n) && (n <=? 57))%N.

(** The number of hundredths that the text [units.d1 d2] denotes, read with
    the library's parser of decimal numerals. *)
Definition text_hundredths (units : string) (d1 d2 : ascii) : option Z :=
  match DecimalString.NilZero.uint_of_string units with
  | Some u =>
      Some (100 * Z.of_N (N.of_uint u)
            + 10 * (Z.of_N (N_of_ascii d1) - 48) + (Z.of_N (N_of_ascii d2) - 48))
  | None => None
  end.

Fixpoint all_digits (s : string) : bool :=
  match s with
  | EmptyString => true
  | String c r => is_digit c && all_digits r
  end.

(* --------------------------------------------------------------------- *)
(** ** 3. The balance engine ([calculateBalances], Groups page) *)
(* --------------------------------------------------------------------- *)

Module Groups.

(** An element of [expense_splits (user_id, amount)] nested in an expense
    row. *)
Record ExpenseSplit (num : Type) := {
  split_user_id : string;
  split_amount : num;
}.
Arguments split_user_id {num} _.
Arguments split_amount {num} _.

(** A row of [group_expenses] as [calculateBalances] selects it:
    [id, amount, paid_by, expense_splits (user_id, amount)]. *)
Record GroupExpense (num : Type) := {
  id : string;
  amount : num;
  paid_by : string;
  expense_splits : list (ExpenseSplit num);
}.
Arguments id {num} _.
Arguments amount {num} _.
Arguments paid_by {num} _.
Arguments expense_splits {num} _.

(** A row of [group_members] as selected:
    [user_id, user_profiles (email, full_name)]. *)
Record GroupMember := {
  user_id : string;
  email : string;
  full_name : option string;
}.

(** [interface Balance]. *)
Record Balance (num : Type) := {
  bal_user_id : string;
  user_name : string;
  user_email : string;
  balance : num;
}.
Arguments bal_user_id {num} _.
Arguments user_name {num} _.
Arguments user_email {num} _.
Arguments balance {num} _.

Section Engine.
Context {num : Type} `{JsNumber num}.

(** [balanceMap.get(k) || 0]: [undefined] and falsy numbers give [0]. *)
Definition get_or0 (bm : gmap string num) (k : string) : num :=
  match bm !! k with
  | Some x => if n_truthy x then x else n_zero
  | None => n_zero
  end.

(** [m.user_profiles.full_name || 'Unknown']: [null] and the empty string
    are falsy. *)
Definition name_or_unknown (n : option string) : string :=
  match n with
  | Some s => if decide (s = "") then "Unknown" else s
  | None => "Unknown"
  end.

(** The body of [expense.expense_splits.forEach]. *)
Definition add_split (bm : gmap string num) (s : ExpenseSplit num)
    : gmap string num :=
  <[ split_user_id s := n_sub (get_or0 bm (split_user_id s)) (split_amount s) ]> bm.

(** The body of [expenses.forEach] ([Number(x)] is [x] on a number). *)
Definition add_expense (bm : gmap string num) (e : GroupExpense num)
    : gmap string num :=
  let bm1 := <[ paid_by e := n_add (get_or0 bm (paid_by e)) (amount e) ]> bm in
  fold_left add_split (expense_splits e) bm1.

(** [balanceMap] after the loop over the expenses. *)
Definition balanceMap (expenses : list (GroupExpense num)) : gmap string num :=
  fold_left add_expense expenses ∅.

(** The element built by [members.map]. *)
Definition balance_of (bm : gmap string num) (m : GroupMember) : Balance num :=
  {| bal_user_id := user_id m;
     user_name := name_or_unknown (full_name m);
     user_email := email m;
     balance := get_or0 bm (user_id m) |}.

(** [calculateBalances].  The [data] of the two queries are the arguments
    ([None] for [null]); the result is the list handed to [setBalances],
    [None] when [setBalances] is not called. *)
Definition calculateBalances
    (expenses : option (list (GroupExpense num)))
    (members : option (list GroupMember))
    : option (list (Balance num)) :=
  match expenses with
  | Some es =>
      let bm := balanceMap es in
      match members with
      | Some ms => Some (map (balance_of bm) ms)
      | None => None
      end
  | None => None
  end.

(** Sum of a list of numbers, left to right from [0]
    ([reduce((sum, v) => sum + v, 0)]). *)
Definition n_sum (l : list num) : num := fold_left n_add l n_zero.

(** *** The ledger view of the loop

    The loop posts, in order, one credit per expense (the payer, the full
    amount) followed by one debit per split. *)
Inductive Entry :=
  | Credit (uid : string) (amt : num)
  | Debit (uid : string) (amt : num).

Definition entry_user (en : Entry) : string :=
  match en with Credit u _ | Debit u _ => u end.

Definition entry_amount (en : Entry) : num :=
  match en with Credit _ a | Debit _ a => a end.

Definition post (a : num) (en : Entry) : num :=
  match en with
  | Credit _ t => n_add a t
  | Debit _ t => n_sub a t
  end.

Definition entries_of (e : GroupExpense num) : list Entry :=
  Credit (paid_by e) (amount e)
  :: map (fun s => Debit (split_user_id s) (split_amount s)) (expense_splits e).

Definition ledger (expenses : list (GroupExpense num)) : list Entry :=
  flat_map entries_of expenses.

(** One step of the loop on the map, as an entry. *)
Definition post_entry (bm : gmap string num) (en : Entry) : gmap string num :=
  <[ entry_user en := post (get_or0 bm (entry_user en)) en ]> bm.

(** The entries of user [k] posted one after the other onto [a]. *)
Definition running_balance (k : string) (ens : list Entry) (a : num) : num :=
  fold_left (fun a en => if decide (entry_user en = k) then post a en else a) ens a.

(** The accumulator of user [k]: its entries posted onto [0], in the order
    of the expenses, with the arithmetic of [num] and nothing in between. *)
Definition member_total (k : string) (expenses : list (GroupExpense num)) : num :=
  running_balance k (ledger expenses) n_zero.

(** *** The algorithm as the specification words it

    "Initialize a mapping from member id to 0.  For each GroupExpense, add
    its total amount to the payer's accumulator.  For each Split belonging
    to that expense, subtract the split's owed amount from that
    split-member's accumulator.  Process all expenses; the result is the
    final mapping."  An id without an accumulator (not a member) has none
    to add to. *)
Definition spec_init (members : list GroupMember) : gmap string num :=
  list_to_map (map (fun m => (user_id m, n_zero)) members).

Definition spec_add_split (acc : gmap string num) (s : ExpenseSplit num)
    : gmap string num :=
  alter (fun a => n_sub a (split_amount s)) (split_user_id s) acc.

Definition spec_add_expense (acc : gmap string num) (e : GroupExpense num)
    : gmap string num :=
  fold_left spec_add_split (expense_splits e)
    (alter (fun a => n_add a (amount e)) (paid_by e) acc).

Definition spec_balances
    (expenses : list (GroupExpense num)) (members : list GroupMember)
    : gmap string num :=
  fold_left spec_add_expense expenses (spec_init members).

(** One step of the specification's algorithm on its mapping, as an
    entry. *)
Definition spec_post (sm : gmap string num) (en : Entry) : gmap string num :=
  alter (fun a => post a en) (entry_user en) sm.

(** Every accumulator of the map satisfies [ok]. *)
Definition all_ok (ok : num -> Prop) (bm : gmap string num) : Prop :=
  forall k c, bm !! k = Some c -> ok c.

(** *** Well-formed datasets *)

(** Every payer and every split member is one of the members. *)
Definition within_group (members : list GroupMember) (e : GroupExpense num) : Prop :=
  paid_by e ∈ map user_id members
  /\ Forall (fun s => split_user_id s ∈ map user_id members) (expense_splits e).

(** User [k] neither paid nor has a split in the expense. *)
Definition absent_from (k : string) (e : GroupExpense num) : Prop :=
  paid_by e <> k /\ Forall (fun s => split_user_id s <> k) (expense_splits e).

(** The output entry of a member whose balance is [0]. *)
Definition settled (m : GroupMember) : Balance num :=
  {| bal_user_id := user_id m;
     user_name := name_or_unknown (full_name m);
     user_email := email m;
     balance := n_zero |}.

End Engine.

Arguments Entry : clear implicits.

(** Amounts as they come out of a [decimal(10, 2)] column through JSON:
    finite numbers. *)
Definition finite_amounts (e : GroupExpense float) : Prop :=
  PrimFloat.is_finite (amount e) = true
  /\ Forall (fun s => PrimFloat.is_finite (split_amount s) = true) (expense_splits e).

(** The entry-time check of the modal on a stored expense: the splits,
    summed in order, are within the tolerance of the amount. *)
Definition reconciles (e : GroupExpense float) : bool :=
  negb (0.01 <? PrimFloat.abs (n_sum (map split_amount (expense_splits e)) - amount e))%float.


(** The stored two-decimal dataset read as binary64 numbers. *)
Definition read_split (s : ExpenseSplit Z) : ExpenseSplit float :=
  {| split_user_id := split_user_id s; split_amount := of_hundredths (split_amount s) |}.

Definition read_expense (e : GroupExpense Z) : GroupExpense float :=
  {| id := id e; amount := of_hundredths (amount e); paid_by := paid_by e;
     expense_splits := map read_split (expense_splits e) |}.

(** What the balances would be with a fixed-point accumulator of
    hundredths, each read as a binary64 number at the end. *)
Definition decimal_balances (es : list (GroupExpense Z)) (ms : list GroupMember)
    : option (list float) :=
  option_map (map (fun b => of_hundredths (balance b)))
    (calculateBalances (Some es) (Some ms)).

(** A dataset whose amounts are whole numbers of currency units, read as
    binary64 numbers. *)
Definition whole_split (s : ExpenseSplit Z) : ExpenseSplit float :=
  {| split_user_id := split_user_id s; split_amount := float_of_Z (split_amount s) |}.

Definition whole_expense (e : GroupExpense Z) : GroupExpense float :=
  {| id := id e; amount := float_of_Z (amount e); paid_by := paid_by e;
     expense_splits := map whole_split (expense_splits e) |}.

Definition whole_entry (en : Entry Z) : Entry float :=
  match en with
  | Credit u t => Credit u (float_of_Z t)
  | Debit u t => Debit u (float_of_Z t)
  end.

(** The money moved by a list of entries and by a dataset: the magnitudes
    of all amounts and split amounts, added up. *)
Definition entry_volume (ens : list (Entry Z)) : Z :=
  sumZ (map (fun en => Z.abs (entry_amount en)) ens).

Definition volume (es : list (GroupExpense Z)) : Z :=
  entry_volume (ledger es).

(** What the expense's amount exceeds the sum of its splits by. *)
Definition gap (e : GroupExpense Z) : Z :=
  amount e - n_sum (map split_amount (expense_splits e)).

Definition total_gap (es : list (GroupExpense Z)) : Z :=
  sumZ (map gap es).

(** An entry as a signed amount. *)
Definition signed (en : Entry Z) : Z :=
  match en with Credit _ t => t | Debit _ t => - t end.

(** What entry [en] adds to the balance of user [k]. *)
Definition share (k : string) (en : Entry Z) : Z :=
  if decide (entry_user en = k) then signed en else 0.

End Groups.

(* --------------------------------------------------------------------- *)
(** ** 4. Adding a group expense ([AddGroupExpenseModal]) *)
(* --------------------------------------------------------------------- *)

Module Modal.

Inductive SplitType := equal | unequal | percentage | shares.

(** The rows the modal writes, as the object literals of [handleSubmit]
    build them. *)
Module Tables.

Record GroupExpenseInsert := {
  group_id : string;
  paid_by : string;
  title : string;
  amount : float;
  category_id : string;
  expense_date : string;
  notes : option string;
  split_type : SplitType;
}.

Record ExpenseSplitInsert := {
  group_expense_id : string;
  user_id : string;
  split_amount : float;
}.

(** The two tables of the storage collaborator: the stored expenses with
    the id the insert gave them, and the stored splits. *)
Record Database := {
  group_expenses : list (string * GroupExpenseInsert);
  expense_splits : list ExpenseSplitInsert;
}.

End Tables.

(** What the storage collaborator answers to the two inserts of one
    submission: the id of the new expense row or an error message, and for
    the splits an error message or none.  An insert that answers with an
    error stores nothing; one that succeeds stores its rows. *)
Record Backend := {
  group_expenses_insert : string + string;
  expense_splits_insert : option string;
}.

Inductive Request :=
  | InsertGroupExpense (row : Tables.GroupExpenseInsert)
  | InsertExpenseSplits (rows : list Tables.ExpenseSplitInsert).

(** The [error] state.  The message of a split mismatch is the template
    [`Split total (${totalSplit}) must equal expense amount
    (${expenseAmount})`]; it is kept as the two numbers it interpolates and
    rendered by [error_text]. *)
Inductive FormError :=
  | NoError
  | SplitTotalMismatch (totalSplit expenseAmount : float)
  | StorageError (message : string).

(** The string held by the [error] state, given [Number::toString]. *)
Definition error_text (numberToString : float -> string) (e : FormError) : string :=
  match e with
  | NoError => ""
  | SplitTotalMismatch totalSplit expenseAmount =>
      "Split total (" +:+ numberToString totalSplit
      +:+ ") must equal expense amount (" +:+ numberToString expenseAmount +:+ ")"
  | StorageError message => message
  end.

(** The component's state variables.  [splits] is the object
    [Record<string, number>], held as the list of its entries in the order
    in which [Object.values] and [Object.entries] list them. *)
Record FormState := {
  title : string;
  amount : string;
  categoryId : string;
  expenseDate : string;
  notes : string;
  splitType : SplitType;
  splits : list (string * float);
  loading : bool;
  error : FormError;
}.

(** What one run of [handleSubmit] leaves behind: the state, the storage,
    the requests it sent (in order), whether [onSuccess(); onClose()] ran,
    and whether the run ended in an exception instead of returning (the
    [RangeError] of [toISOString] on an invalid date). *)
Record Outcome := {
  form : FormState;
  database : Tables.Database;
  requests : list Request;
  closed : bool;
  thrown : bool;
}.

(** *** The order of the keys of an object

    An object lists its array-index keys first, in ascending numeric
    order, and then its other string keys in the order in which they were
    added.  An array index is the canonical decimal text of an integer from
    0 to [2^32 - 2]: digits only, no leading zero. *)
Fixpoint digits_value (s : string) (acc : N) : N :=
  match s with
  | EmptyString => acc
  | String c r => digits_value r (10 * acc + (N_of_ascii c - 48))%N
  end.

Definition array_index (k : string) : option N :=
  match k with
  | EmptyString => None
  | String c r =>
      if all_digits k && (negb (Ascii.eqb c "0"%char) || String.eqb r "")
         && (digits_value k 0 <? 4294967295)%N
      then Some (digits_value k 0)
      else None
  end.

Fixpoint has_key (o : list (string * float)) (k : string) : bool :=
  match o with
  | [] => false
  | (k', _) :: r => bool_decide (k' = k) || has_key r k
  end.

(** Writing a key that is not an array index, or one that the object has:
    an existing key keeps its place, a new one goes last. *)
Fixpoint put (o : list (string * float)) (k : string) (v : float)
    : list (string * float) :=
  match o with
  | [] => [(k, v)]
  | (k', v') :: r => if decide (k' = k) then (k, v) :: r else (k', v') :: put r k v
  end.

(** Whether the key [k'] of the object stays in front of a new array index
    [i]: it is a smaller array index. *)
Definition smaller_index (i : N) (k' : string) : bool :=
  match array_index k' with
  | Some j => (j <? i)%N
  | None => false
  end.

(** Adding the array index [i], written [k], that the object does not
    have: after the smaller array indices. *)
Fixpoint put_index (o : list (string * float)) (i : N) (k : string) (v : float)
    : list (string * float) :=
  match o with
  | [] => [(k, v)]
  | (k', v') :: r =>
      if smaller_index i k' then (k', v') :: put_index r i k v else (k, v) :: o
  end.

(** [{ ...splits, [userId]: v }], and [newSplits[userId] = v]. *)
Definition record_set (o : list (string * float)) (k : string) (v : float)
    : list (string * float) :=
  match array_index k with
  | Some i => if has_key o k then put o k v else put_index o i k v
  | None => put o k v
  end.

(** The keys of an object as it lists them: array indices in ascending
    order, then the other keys. *)
Fixpoint object_order (keys : list string) : bool :=
  match keys with
  | [] => true
  | k :: r =>
      match array_index k with
      | Some i =>
          forallb (fun k' => match array_index k' with
                             | Some j => (i <=? j)%N
                             | None => true
                             end) r
          && object_order r
      | None => forallb (fun k' => bool_decide (array_index k' = None)) r
      end
  end.

(** [setError(''); setLoading(true)] on the state. *)
Definition starting (st : FormState) : FormState :=
  {| title := title st; amount := amount st; categoryId := categoryId st;
     expenseDate := expenseDate st; notes := notes st; splitType := splitType st;
     splits := splits st; loading := true; error := NoError |}.

(** [setError(e); setLoading(false)] on the state. *)
Definition stop_with (st : FormState) (e : FormError) : FormState :=
  {| title := title st; amount := amount st; categoryId := categoryId st;
     expenseDate := expenseDate st; notes := notes st; splitType := splitType st;
     splits := splits st; loading := false; error := e |}.

Definition with_splits (st : FormState) (o : list (string * float)) : FormState :=
  {| title := title st; amount := amount st; categoryId := categoryId st;
     expenseDate := expenseDate st; notes := notes st; splitType := splitType st;
     splits := o; loading := loading st; error := error st |}.

Section Component.
(** The runtime's [parseFloat], and [new Date(s).toISOString()]: the ISO
    text of the date, [None] when the text is not a date and [toISOString]
    throws a [RangeError]. *)
Variable parseFloat : string -> float.
Variable toISOString : string -> option string.
(** The props [groupId] and the signed-in [user!.id]. *)
Variable groupId : string.
Variable userId : string.

(** [parseFloat(value) || 0]. *)
Definition parse_or0 (value : string) : float :=
  let v := parseFloat value in if float_truthy v then v else 0%float.

(** [handleSplitChange]. *)
Definition handleSplitChange (st : FormState) (uid value : string) : FormState :=
  with_splits st (record_set (splits st) uid (parse_or0 value)).

(** [Object.values(splits).reduce((sum, val) => sum + val, 0)]. *)
Definition totalSplit (st : FormState) : float :=
  fold_left (fun sum kv => (sum + snd kv)%float) (splits st) 0%float.

Definition expenseAmount (st : FormState) : float := parseFloat (amount st).

(** [Math.abs(totalSplit - expenseAmount) > 0.01]. *)
Definition split_mismatch (st : FormState) : bool :=
  (0.01 <? PrimFloat.abs (totalSplit st - expenseAmount st))%float.

(** The object literal given to the first insert, once its date has been
    converted to [iso]. *)
Definition expense_row (st : FormState) (iso : string) : Tables.GroupExpenseInsert :=
  {| Tables.group_id := groupId;
     Tables.paid_by := userId;
     Tables.title := title st;
     Tables.amount := expenseAmount st;
     Tables.category_id := categoryId st;
     Tables.expense_date := iso;
     Tables.notes := if decide (notes st = "") then None else Some (notes st);
     Tables.split_type := splitType st |}.

(** [Object.entries(splits).map(...)] for the expense row [expense_id]. *)
Definition splitInserts (st : FormState) (expense_id : string)
    : list Tables.ExpenseSplitInsert :=
  map (fun kv => {| Tables.group_expense_id := expense_id;
                    Tables.user_id := fst kv;
                    Tables.split_amount := snd kv |}) (splits st).

Definition store_expense (db : Tables.Database) (expense_id : string)
    (row : Tables.GroupExpenseInsert) : Tables.Database :=
  {| Tables.group_expenses := Tables.group_expenses db ++ [(expense_id, row)];
     Tables.expense_splits := Tables.expense_splits db |}.

Definition store_splits (db : Tables.Database)
    (rows : list Tables.ExpenseSplitInsert) : Tables.Database :=
  {| Tables.group_expenses := Tables.group_expenses db;
     Tables.expense_splits := Tables.expense_splits db ++ rows |}.

(** [handleSubmit], run against the answers [be] of the storage
    collaborator on the storage [db].  The argument of the first insert is
    built before the insert is called: when the date text is not a date,
    [toISOString] throws there, after [setLoading(true)] and before any
    request. *)
Definition handleSubmit (st : FormState) (be : Backend) (db : Tables.Database)
    : Outcome :=
  if split_mismatch st then
    {| form := stop_with st (SplitTotalMismatch (totalSplit st) (expenseAmount st));
       database := db; requests := []; closed := false; thrown := false |}
  else
    match toISOString (expenseDate st) with
    | None =>
        {| form := starting st; database := db; requests := []; closed := false;
           thrown := true |}
    | Some iso =>
        let row := expense_row st iso in
        match group_expenses_insert be with
        | inr message =>
            {| form := stop_with st (StorageError message);
               database := db;
               requests := [InsertGroupExpense row];
               closed := false; thrown := false |}
        | inl expense_id =>
            let db1 := store_expense db expense_id row in
            let rows := splitInserts st expense_id in
            match expense_splits_insert be with
            | Some message =>
                {| form := stop_with st (StorageError message);
                   database := db1;
                   requests := [InsertGroupExpense row; InsertExpenseSplits rows];
                   closed := false; thrown := false |}
            | None =>
                {| form := stop_with st NoError;
                   database := store_splits db1 rows;
                   requests := [InsertGroupExpense row; InsertExpenseSplits rows];
                   closed := true; thrown := false |}
            end
        end
    end.

End Component.

(** *** Stand-ins for the runtime, for running the model

    [parseDecimal] is [parseFloat] on a plain decimal literal (digits with
    an optional fraction): the literal's integer value over its power of
    ten, both exact below [2^53], divided with one rounding; it is the
    double nearest to the literal.  On any other string it gives [NaN]
    (where [parseFloat] proper also reads signs, exponents and prefixes). *)
Definition digit_value (c : ascii) : option Z :=
  let n := Z.of_N (N_of_ascii c) in
  if (48 <=? n) && (n <=? 57) then Some (n - 48) else None.

Fixpoint read_digits (s : string) (acc : Z) (count : nat) : Z * nat * string :=
  match s with
  | EmptyString => (acc, count, s)
  | String c r =>
      match digit_value c with
      | Some d => read_digits r (10 * acc + d) (S count)
      | None => (acc, count, s)
      end
  end.

Definition parseDecimal (s : string) : float :=
  let '(units, n1, rest) := read_digits s 0 0%nat in
  match rest with
  | EmptyString => if Nat.eqb n1 0 then PrimFloat.nan else float_of_Z units
  | String c r =>
      if Ascii.eqb c "."%char then
        let '(all, n2, rest2) := read_digits r units 0%nat in
        match rest2 with
        | EmptyString =>
            if Nat.eqb (n1 + n2) 0 then PrimFloat.nan
            else (float_of_Z all / float_of_Z (10 ^ Z.of_nat n2))%float
        | _ => PrimFloat.nan
        end
      else PrimFloat.nan
  end.

(** [new Date(d).toISOString()] on the value of a date input.  A calendar
    date [YYYY-MM-DD] is midnight UTC of that day; the empty text of a
    cleared input, and any other text, is not a date, and [toISOString]
    throws on it.  (A runtime may read more formats than this stand-in.) *)
Definition two_digits (a b : ascii) : option Z :=
  match digit_value a, digit_value b with
  | Some x, Some y => Some (10 * x + y)
  | _, _ => None
  end.

Definition days_in_month (y m : Z) : Z :=
  if m =? 2 then
    if ((y mod 4 =? 0) && negb (y mod 100 =? 0)) || (y mod 400 =? 0) then 29 else 28
  else if (m =? 4) || (m =? 6) || (m =? 9) || (m =? 11) then 30
  else 31.

Definition isoOfDate (d : string) : option string :=
  match d with
  | String y1 (String y2 (String y3 (String y4 (String s1 (String m1 (String m2
      (String s2 (String d1 (String d2 EmptyString))))))))) =>
      match two_digits y1 y2, two_digits y3 y4, two_digits m1 m2, two_digits d1 d2 with
      | Some yh, Some yl, Some m, Some day =>
          if Ascii.eqb s1 "-"%char && Ascii.eqb s2 "-"%char
             && (1 <=? m) && (m <=? 12)
             && (1 <=? day) && (day <=? days_in_month (100 * yh + yl) m)
          then Some (d +:+ "T00:00:00.000Z")
          else None
      | _, _, _, _ => None
      end
  | _ => None
  end.

(** [Number::toString] on a whole number below [2^53] in magnitude: its
    decimal digits, with a minus sign for a negative one.  (Other numbers
    are not rendered by this stand-in.) *)
Definition wholeToString (x : float) : string :=
  match Prim2SF x with
  | S754_zero _ => "0"
  | S754_finite s m e =>
      let whole :=
        if 0 <=? e then Some (Zpos m * 2 ^ e)
        else if Zpos m mod 2 ^ (- e) =? 0 then Some (Zpos m / 2 ^ (- e))
        else None in
      match whole with
      | Some n =>
          if n <? 9007199254740992 then (if s then "-" else "") +:+ decimal_digits n
          else "?"
      | None => "?"
      end
  | S754_infinity s => if s then "-Infinity" else "Infinity"
  | S754_nan => "NaN"
  end.

(** The sum that [reduce((sum, val) => sum + val, 0)] leaves: the values
    added one after the other, from the left, onto 0. *)
Inductive left_sum : list float -> float -> Prop :=
  | left_sum_nil : left_sum [] 0%float
  | left_sum_snoc l s x : left_sum l s -> left_sum (l ++ [x]) (s + x)%float.

(** *** Forms as typed

    A form whose amount and split values are typed as two-decimal text:
    [amount_h] hundredths for the amount and, user by user, [snd kv]
    hundredths for the splits. *)
Definition blank_form (amount_text : string) : FormState :=
  {| title := "Dinner"; amount := amount_text; categoryId := "food";
     expenseDate := "2024-01-15"; notes := ""; splitType := unequal;
     splits := []; loading := false; error := NoError |}.

Definition typed_form (amount_h : Z) (splits_h : list (string * Z)) : FormState :=
  fold_left (fun st kv => handleSplitChange parseDecimal st (fst kv) (fixed2 (snd kv)))
    splits_h (blank_form (fixed2 amount_h)).

(** How far the typed split values are from the typed amount, in
    hundredths. *)
Definition typed_difference (amount_h : Z) (splits_h : list (string * Z)) : Z :=
  Z.abs (sumZ (map snd splits_h) - amount_h).

(** The submission stopped at the split check: the mismatch is the error
    and nothing was sent. *)
Definition is_rejected (o : Outcome) : bool :=
  match error (form o), requests o with
  | SplitTotalMismatch _ _, [] => true
  | _, _ => false
  end.

(** The submission went on to the storage collaborator. *)
Definition is_submitted (o : Outcome) : bool :=
  match requests o with
  | InsertGroupExpense _ :: _ => true
  | _ => false
  end.

Definition empty_database : Tables.Database :=
  {| Tables.group_expenses := []; Tables.expense_splits := [] |}.

End Modal.

(* --------------------------------------------------------------------- *)
(** ** 5. The settlement link ([utils/googlePay.ts]) *)
(* --------------------------------------------------------------------- *)

Module GooglePay.

(** [interface GooglePayParams]. *)
Record GooglePayParams := {
  upiId : string;
  amount : float;
  name : string;
  note : string;
}.

(** *** [URLSearchParams.prototype.toString]: the
    application/x-www-form-urlencoded serializer *)

(** Bytes left as they are: ASCII alphanumerics and [* - . _]. *)
Definition is_unreserved (c : ascii) : bool :=
  let n := N_of_ascii c in
  ((48 <=? n) && (n <=? 57) || (65 <=? n) && (n <=? 90) || (97 <=? n) && (n <=? 122)
   || (n =? 42) || (n =? 45) || (n =? 46) || (n =? 95))%N.

Definition hex_digit (n : N) : ascii :=
  match String.get (N.to_nat n) "0123456789ABCDEF" with
  | Some c => c
  | None => "0"%char
  end.

Fixpoint urlencode (s : string) : string :=
  match s with
  | EmptyString => EmptyString
  | String c r =>
      if Ascii.eqb c " "%char then String "+"%char (urlencode r)
      else if is_unreserved c then String c (urlencode r)
      else String "%"%char
             (String (hex_digit (N_of_ascii c / 16))
                (String (hex_digit (N_of_ascii c mod 16)) (urlencode r)))
  end.

Definition unhex (c : ascii) : option N :=
  let n := N_of_ascii c in
  (if (48 <=? n) && (n <=? 57) then Some (n - 48)
   else if (65 <=? n) && (n <=? 70) then Some (n - 55)
   else if (97 <=? n) && (n <=? 102) then Some (n - 87)
   else None)%N.

(** The matching parser of one name or value: [+] is a space and [%HH] a
    byte. *)
Fixpoint urldecode (s : string) : string :=
  match s with
  | EmptyString => EmptyString
  | String c r =>
      if Ascii.eqb c "+"%char then String " "%char (urldecode r)
      else if Ascii.eqb c "%"%char then
        match r with
        | String a (String b r2) =>
            match unhex a, unhex b with
            | Some h, Some l => String (ascii_of_N (16 * h + l)) (urldecode r2)
            | _, _ => String c (urldecode r)
            end
        | _ => String c (urldecode r)
        end
      else String c (urldecode r)
  end.

(** Whether the character occurs in the string. *)
Fixpoint has_char (c : ascii) (s : string) : bool :=
  match s with
  | EmptyString => false
  | String c' r => Ascii.eqb c' c || has_char c r
  end.

Fixpoint all_unreserved (s : string) : bool :=
  match s with
  | EmptyString => true
  | String c r => is_unreserved c && all_unreserved r
  end.

Definition pair_text (kv : string * string) : string :=
  urlencode (fst kv) +:+ "=" +:+ urlencode (snd kv).

Fixpoint join_amp (l : list string) : string :=
  match l with
  | [] => ""
  | [x] => x
  | x :: r => x +:+ "&" +:+ join_amp r
  end.

Definition serialize (l : list (string * string)) : string :=
  join_amp (map pair_text l).

(** The matching parser of a query: the parts between the [&], each cut at
    its first [=] and decoded; empty parts are skipped. *)
Fixpoint split_on (c : ascii) (s : string) : list string :=
  match s with
  | EmptyString => [EmptyString]
  | String x r =>
      if Ascii.eqb x c then EmptyString :: split_on c r
      else
        match split_on c r with
        | h :: t => String x h :: t
        | [] => [String x EmptyString]
        end
  end.

Fixpoint split_pair (s : string) : string * string :=
  match s with
  | EmptyString => (EmptyString, EmptyString)
  | String x r =>
      if Ascii.eqb x "="%char then (EmptyString, r)
      else (String x (fst (split_pair r)), snd (split_pair r))
  end.

Definition parse_query (q : string) : list (string * string) :=
  map (fun part => (urldecode (fst (split_pair part)), urldecode (snd (split_pair part))))
    (filter (fun part => part <> EmptyString) (split_on "&"%char q)).

(** *** [Number.prototype.toFixed(2)] *)

(** A finite nonzero binary64 number is [m * 2^e]. *)
Definition at_least_1e21 (m : positive) (e : Z) : bool :=
  if 0 <=? e then 10 ^ 21 <=? Zpos m * 2 ^ e
  else 10 ^ 21 * 2 ^ (- e) <=? Zpos m.

(** The integer [n] for which [n / 100] is nearest to [m * 2^e], the
    larger one of two. *)
Definition round_hundredths (m : positive) (e : Z) : Z :=
  if 0 <=? e then 100 * Zpos m * 2 ^ e
  else (200 * Zpos m + 2 ^ (- e)) / 2 ^ (- e + 1).

(** Strictly between [0] and [10^21]: the amounts [toFixed] writes in
    fixed notation. *)
Definition positive_below_1e21 (x : float) : bool :=
  match Prim2SF x with
  | S754_finite false m e => negb (at_least_1e21 m e)
  | _ => false
  end.

Section Link.
(** The runtime's [Number::toString], which [toFixed] falls back on from
    [10^21] upwards. *)
Variable numberToString : float -> string.

Definition toFixed2 (x : float) : string :=
  match Prim2SF x with
  | S754_nan => "NaN"
  | S754_infinity false => "Infinity"
  | S754_infinity true => "-Infinity"
  | S754_zero _ => "0.00"
  | S754_finite s m e =>
      (if s then "-" else "")
      +:+ (if at_least_1e21 m e then numberToString (PrimFloat.abs x)
           else fixed2 (round_hundredths m e))
  end.

(** [generateGooglePayUrl]. *)
Definition generateGooglePayUrl (p : GooglePayParams) : string :=
  "upi://pay?"
  +:+ serialize [ ("pa", upiId p); ("pn", name p); ("am", toFixed2 (amount p));
                  ("cu", "INR"); ("tn", note p) ].

End Link.

End GooglePay.

(* --------------------------------------------------------------------- *)
(** ** 6. Sample data *)
(* --------------------------------------------------------------------- *)

Import Groups.

Definition ann : GroupMember := {| user_id := "A"; email := "ann@example.com"; full_name := Some "Ann" |}.
Definition bob : GroupMember := {| user_id := "B"; email := "bob@example.com"; full_name := None |}.

Definition dinner : GroupExpense float :=
  {| id := "e1"; amount := 100%float; paid_by := "A";
     expense_splits := [ {| split_user_id := "A"; split_amount := 50%float |};
                         {| split_user_id := "B"; split_amount := 49.99%float |} ] |}.

Definition carol : GroupMember :=
  {| user_id := "C"; email := "carol@example.com"; full_name := Some "" |}.

Definition snack : GroupExpense Z :=
  {| id := "e1"; amount := 30; paid_by := "A";
     expense_splits := [ {| split_user_id := "A"; split_amount := 10 |};
                         {| split_user_id := "B"; split_amount := 20 |} ] |}.

Definition lunch : GroupExpense Z :=
  {| id := "e2"; amount := 10000; paid_by := "A";
     expense_splits := [ {| split_user_id := "A"; split_amount := 5000 |};
                         {| split_user_id := "B"; split_amount := 4999 |} ] |}.

(** 120 paid by A and split 70 / 50, in whole currency units. *)
Definition supper : GroupExpense Z :=
  {| id := "e3"; amount := 120; paid_by := "A";
     expense_splits := [ {| split_user_id := "A"; split_amount := 70 |};
                         {| split_user_id := "B"; split_amount := 50 |} ] |}.


Definition pay_ann : GooglePay.GooglePayParams :=
  {| GooglePay.upiId := "ann@okaxis"; GooglePay.amount := 49.99%float;
     GooglePay.name := "Ann Lee"; GooglePay.note := "Dinner & drinks" |}.


(* ===================================================================== *)
(** * Part II.  Properties *)
(* ===================================================================== *)

(* --------------------------------------------------------------------- *)
(** ** 7. Binary64 sums that stay clean

    Adding or subtracting a finite number never turns an accumulator into
    [NaN] or [-0]; on such accumulators [x || 0] is [x]. *)
(* --------------------------------------------------------------------- *)

Lemma digits2_pos_bits m : Zpos (digits2_pos m) = Z.of_nat (bits m).
Proof. induction m; simpl; lia. Qed.

Lemma bits_pos m : (0 < bits m)%nat.
Proof. destruct m; simpl; lia. Qed.

Lemma iter_pos_nat {A} (f : A -> A) p x :
  SpecFloat.iter_pos f p x = Nat.iter (Pos.to_nat p) f x.
Proof.
  revert x. induction p as [p IH | p IH |]; intros x; cbn [SpecFloat.iter_pos].
  - rewrite !IH, Pos2Nat.inj_xI.
    replace (S (2 * Pos.to_nat p))%nat with (Pos.to_nat p + (Pos.to_nat p + 1))%nat by lia.
    rewrite !Nat.iter_add. reflexivity.
  - rewrite !IH, Pos2Nat.inj_xO.
    replace (2 * Pos.to_nat p)%nat with (Pos.to_nat p + Pos.to_nat p)%nat by lia.
    now rewrite Nat.iter_add.
  - reflexivity.
Qed.

Lemma shr_1_iter_positive k : forall m r s,
  (k < bits m)%nat ->
  exists m1 r1 s1,
    Nat.iter k shr_1 (Build_shr_record (Zpos m) r s) = Build_shr_record (Zpos m1) r1 s1
    /\ bits m1 = (bits m - k)%nat.
Proof.
  induction k as [| k IH]; intros m r s Hk.
  - exists m, r, s. split; [reflexivity | lia].
  - destruct (IH m r s ltac:(lia)) as (m1 & r1 & s1 & E & Hb).
    simpl. rewrite E.
    destruct m1 as [p | p |]; simpl in *.
    + eexists _, _, _. split; [reflexivity | lia].
    + eexists _, _, _. split; [reflexivity | lia].
    + lia.
Qed.

Lemma shr_fexp_positive (m : positive) e l :
  emin <= e ->
  exists m1 r1 s1 e1,
    shr_fexp prec emax (Zpos m) e l = (Build_shr_record (Zpos m1) r1 s1, e1)
    /\ emin <= e1.
Proof.
  intros He. unfold shr_fexp, shr.
  set (n := fexp prec emax (Zdigits2 (Zpos m) + e) - e).
  assert (Hn : n < Z.of_nat (bits m)).
  { subst n. unfold fexp. simpl Zdigits2. rewrite digits2_pos_bits.
    pose proof (bits_pos m). unfold prec. unfold SpecFloat.emin, emax, prec in *. lia. }
  destruct l as [| [ | | ]]; simpl shr_record_of_loc;
    (destruct n as [| p | p];
     [ eexists _, _, _, _; split; [reflexivity | exact He]
     | rewrite iter_pos_nat;
       edestruct (shr_1_iter_positive (Pos.to_nat p) m) as (m1 & r1 & s1 & E & _);
       [ lia | rewrite E; eexists _, _, _, _; split; [reflexivity | lia] ]
     | eexists _, _, _, _; split; [reflexivity | exact He] ]).
Qed.

Lemma round_nearest_even_positive (m : positive) l :
  exists m1, round_nearest_even (Zpos m) l = Zpos m1.
Proof.
  destruct l as [| [ | | ]]; cbn [round_nearest_even].
  - now exists m.
  - destruct (Z.even (Zpos m)); [exists m | exists (m + 1)%positive]; reflexivity.
  - now exists m.
  - now exists (m + 1)%positive.
Qed.

Lemma binary_round_aux_signed s (m : positive) e l :
  emin <= e ->
  (exists m1 e1, binary_round_aux prec emax s (Zpos m) e l = S754_finite s m1 e1)
  \/ binary_round_aux prec emax s (Zpos m) e l = S754_infinity s.
Proof.
  intros He. unfold binary_round_aux.
  destruct (shr_fexp_positive m e l He) as (m1 & r1 & s1 & e1 & E1 & He1).
  rewrite E1. simpl shr_m.
  destruct (round_nearest_even_positive m1
              (loc_of_shr_record (Build_shr_record (Zpos m1) r1 s1))) as (m2 & E2).
  rewrite E2.
  destruct (shr_fexp_positive m2 e1 loc_Exact He1) as (m3 & r3 & s3 & e3 & E3 & _).
  rewrite E3. simpl shr_m.
  destruct (e3 <=? emax - prec); eauto.
Qed.

Lemma binary_round_signed s (m : positive) e :
  emin <= e ->
  (exists m1 e1, binary_round prec emax s m e = S754_finite s m1 e1)
  \/ binary_round prec emax s m e = S754_infinity s.
Proof.
  intros He. unfold binary_round.
  destruct (shl_align m e (fexp prec emax (Zpos (digits2_pos m) + e))) as [mz ez] eqn:E.
  apply binary_round_aux_signed.
  unfold shl_align in E.
  destruct (fexp prec emax (Zpos (digits2_pos m) + e) - e) eqn:D; inversion E; subst; try exact He.
  unfold fexp. unfold SpecFloat.emin. lia.
Qed.

Lemma binary_normalize_clean m e :
  emin <= e -> sf_clean (binary_normalize prec emax m e false).
Proof.
  intros He. unfold binary_normalize.
  destruct m as [| p | p].
  - split; discriminate.
  - destruct (binary_round_signed false p e He) as [(m1 & e1 & ->) | ->]; split; discriminate.
  - destruct (binary_round_signed true p e He) as [(m1 & e1 & ->) | ->]; split; discriminate.
Qed.

Lemma valid_emin s m e :
  valid_binary (S754_finite s m e) = true -> emin <= e.
Proof.
  simpl. unfold bounded, canonical_mantissa. intros Hv.
  apply andb_prop in Hv as [Hc _]. apply Z.eqb_eq in Hc.
  unfold fexp in Hc. lia.
Qed.

Lemma SFadd_clean x y :
  valid_binary x = true -> valid_binary y = true ->
  sf_clean x -> sf_finite y -> sf_clean (SF64add x y).
Proof.
  intros Vx Vy [Hn Hz] Fy. unfold SF64add, SFadd.
  destruct x as [[|] | sx | | sx mx ex], y as [[|] | sy | | sy my ey];
    simpl in Fy; try contradiction; try congruence;
    try (split; discriminate).
  apply binary_normalize_clean.
  apply valid_emin in Vx, Vy. lia.
Qed.

Lemma SFsub_clean x y :
  valid_binary x = true -> valid_binary y = true ->
  sf_clean x -> sf_finite y -> sf_clean (SF64sub x y).
Proof.
  intros Vx Vy [Hn Hz] Fy. unfold SF64sub, SFsub.
  destruct x as [[|] | sx | | sx mx ex], y as [[|] | sy | | sy my ey];
    simpl in Fy; try contradiction; try congruence;
    try (split; discriminate).
  apply binary_normalize_clean.
  apply valid_emin in Vx, Vy. lia.
Qed.


Lemma is_finite_sf t : PrimFloat.is_finite t = true -> sf_finite (Prim2SF t).
Proof.
unfold PrimFloat.is_finite. intros Hf.
apply negb_true_iff, orb_false_iff in Hf as [Hn Hi].
unfold Prim2SF. rewrite Hn, Hi.
destruct (is_zero t); [exact I |].
destruct (Z.frexp t) as [r ex].
destruct (shr_fexp _ _ _ _ _) as [sh e'].
destruct (shr_m sh); exact I.
Qed.

Lemma add_clean a t : clean a -> PrimFloat.is_finite t = true -> clean (a + t)%float.
Proof.
intros Ha Ht. unfold clean. rewrite add_spec.
apply SFadd_clean; auto using Prim2SF_valid, is_finite_sf.
Qed.

Lemma sub_clean a t : clean a -> PrimFloat.is_finite t = true -> clean (a - t)%float.
Proof.
intros Ha Ht. unfold clean. rewrite sub_spec.
apply SFsub_clean; auto using Prim2SF_valid, is_finite_sf.
Qed.

Lemma clean_zero : clean 0%float.
Proof. split; vm_compute; discriminate. Qed.

Lemma clean_or0 a : clean a -> (if float_truthy a then a else 0%float) = a.
Proof.
intros [Hn Hz]. unfold float_truthy.
destruct (is_nan a) eqn:En.
- exfalso. apply Hn. unfold Prim2SF. now rewrite En.
- rewrite orb_false_r. destruct (is_zero a) eqn:Ez; simpl; [| reflexivity].
  apply Prim2SF_inj. unfold Prim2SF at 2. rewrite En, Ez.
  destruct (get_sign a) eqn:Es.
  + exfalso. apply Hz. unfold Prim2SF. now rewrite En, Ez, Es.
  + reflexivity.
Qed.

Lemma bits_bounds (m : positive) :
  2 ^ (Z.of_nat (bits m) - 1) <= Zpos m < 2 ^ Z.of_nat (bits m).
Proof.
  induction m as [p IH | p IH |]; cbn [bits].
  - rewrite Nat2Z.inj_succ, Z.pow_succ_r by lia.
    replace (Z.succ (Z.of_nat (bits p)) - 1) with (Z.succ (Z.of_nat (bits p) - 1)) by lia.
    rewrite Z.pow_succ_r by (pose proof (bits_pos p); lia). lia.
  - rewrite Nat2Z.inj_succ, Z.pow_succ_r by lia.
    replace (Z.succ (Z.of_nat (bits p)) - 1) with (Z.succ (Z.of_nat (bits p) - 1)) by lia.
    rewrite Z.pow_succ_r by (pose proof (bits_pos p); lia). lia.
  - cbn. lia.
Qed.

(* --------------------------------------------------------------------- *)
(** ** 7a. Whole numbers in binary64

    Adding and subtracting whole numbers is exact in binary64 as long as
    operands and result stay below [2^53] in magnitude. *)
(* --------------------------------------------------------------------- *)


Lemma bits_shl (m : positive) (n : nat) : bits (shl m n) = (bits m + n)%nat.
Proof.
  induction n as [| n IH]; [cbn; lia |].
  change (shl m (S n)) with (xO (shl m n)). cbn [bits]. rewrite IH. lia.
Qed.

Lemma shl_add (m : positive) (a b : nat) : shl (shl m a) b = shl m (a + b).
Proof. unfold shl. rewrite Nat.add_comm. symmetry. apply Nat.iter_add. Qed.

Lemma Zpos_shl (m : positive) (n : nat) : Zpos (shl m n) = Zpos m * 2 ^ Z.of_nat n.
Proof.
  induction n as [| n IH]; [cbn; lia |].
  change (shl m (S n)) with (xO (shl m n)).
  rewrite Pos2Z.inj_xO, IH, Nat2Z.inj_succ, Z.pow_succ_r by lia. lia.
Qed.

Lemma pos_iter_shl (m p : positive) : Pos.iter xO m p = shl m (Pos.to_nat p).
Proof. unfold shl. rewrite Pos2Nat.inj_iter. reflexivity. Qed.

Lemma shr_1_shl (n : nat) (m : positive) :
  Nat.iter n shr_1 (Build_shr_record (Zpos (shl m n)) false false)
  = Build_shr_record (Zpos m) false false.
Proof.
  revert m. induction n as [| n IH]; intros m; [reflexivity |].
  rewrite Nat.iter_succ.
  replace (shl m (S n)) with (shl (xO m) n)
    by (unfold shl; rewrite Nat.iter_succ_r; reflexivity).
  rewrite IH. reflexivity.
Qed.

Lemma fexp_small (d : Z) : 1 <= d <= 53 -> fexp prec emax d = d - 53.
Proof. intros Hd. unfold fexp, SpecFloat.emin, prec, emax. lia. Qed.

Lemma binary_round_shl (s : bool) (m : positive) (k : nat) :
  (bits m <= 53)%nat ->
  binary_round prec emax s (shl m k) (- Z.of_nat k) = canon s m.
Proof.
  intros Hm. pose proof (bits_pos m) as Hp.
  unfold binary_round.
  rewrite digits2_pos_bits, bits_shl.
  replace (Z.of_nat (bits m + k) + - Z.of_nat k) with (Z.of_nat (bits m)) by lia.
  rewrite fexp_small by lia.
  assert (Haux : forall j : nat,
             (bits m + j >= 53)%nat ->
             binary_round_aux prec emax s (Zpos (shl m j)) (- Z.of_nat j) loc_Exact
             = canon s m).
  { intros j Hj. unfold binary_round_aux, shr_fexp.
    cbn [Zdigits2 shr_record_of_loc]. rewrite digits2_pos_bits, bits_shl.
    replace (Z.of_nat (bits m + j) + - Z.of_nat j) with (Z.of_nat (bits m)) by lia.
    rewrite fexp_small by lia.
    set (n := (bits m + j - 53)%nat).
    replace (Z.of_nat (bits m) - 53 - - Z.of_nat j) with (Z.of_nat n) by lia.
    assert (Hshr : shr (Build_shr_record (Zpos (shl m j)) false false) (- Z.of_nat j) (Z.of_nat n)
                   = (Build_shr_record (Zpos (shl m (53 - bits m))) false false,
                      Z.of_nat (bits m) - 53)).
    { unfold shr. destruct (Z.of_nat n) as [| p | p] eqn:En.
      - f_equal; [| lia]. do 2 f_equal. f_equal. lia.
      - rewrite iter_pos_nat.
        replace (Pos.to_nat p) with n by lia.
        replace j with ((53 - bits m) + n)%nat at 1 by lia.
        rewrite <- shl_add, shr_1_shl. f_equal. lia.
      - lia. }
    rewrite Hshr. cbn [shr_m loc_of_shr_record round_nearest_even Zdigits2 shr_record_of_loc].
    rewrite digits2_pos_bits, bits_shl.
    replace (Z.of_nat (bits m + (53 - bits m)) + (Z.of_nat (bits m) - 53))
      with (Z.of_nat (bits m)) by lia.
    rewrite fexp_small by lia.
    replace (Z.of_nat (bits m) - 53 - (Z.of_nat (bits m) - 53)) with 0 by lia.
    cbn [shr shr_m].
    destruct (Z.leb_spec (Z.of_nat (bits m) - 53) (emax - prec)) as [_ | Hbad];
      [reflexivity | unfold emax, prec in Hbad; lia]. }
  unfold shl_align.
  destruct (Z.of_nat (bits m) - 53 - - Z.of_nat k) as [| p | p] eqn:E.
  - apply (Haux k). lia.
  - apply (Haux k). lia.
  - rewrite pos_iter_shl, shl_add.
    replace (Z.of_nat (bits m) - 53) with (- Z.of_nat (k + Pos.to_nat p)) by lia.
    apply Haux. lia.
Qed.

Lemma bits_le_53 (p : positive) : Zpos p < 2 ^ 53 -> (bits p <= 53)%nat.
Proof.
  intros Hp. pose proof (bits_bounds p) as [Hlo _]. pose proof (bits_pos p).
  destruct (Nat.le_gt_cases (bits p) 53) as [H1 | H1]; [exact H1 | exfalso].
  assert (2 ^ 53 <= 2 ^ (Z.of_nat (bits p) - 1)) by (apply Z.pow_le_mono_r; lia).
  lia.
Qed.

Lemma binary_round_whole (s : bool) (p : positive) :
  Zpos p < 2 ^ 53 -> binary_round prec emax s p 0 = canon s p.
Proof. intros Hp. apply (binary_round_shl s p 0), bits_le_53, Hp. Qed.

Lemma to_Z_of_Z_small (z : Z) : 0 <= z < 2 ^ 53 -> Uint63.to_Z (Uint63.of_Z z) = z.
Proof.
  intros Hz. rewrite Uint63.of_Z_spec. apply Z.mod_small.
  assert (2 ^ 53 < Uint63.wB) by (vm_compute; reflexivity). lia.
Qed.

Lemma Prim2SF_float_of_Z (z : Z) : Z.abs z < 2 ^ 53 -> Prim2SF (float_of_Z z) = SFint z.
Proof.
  intros Hz. unfold float_of_Z.
  destruct (Z.ltb_spec z 0) as [Hneg | Hpos].
  - rewrite opp_spec, of_uint63_spec, to_Z_of_Z_small by lia.
    destruct z as [| p | p]; try lia.
    change (- Z.neg p) with (Z.pos p). cbn [binary_normalize SFint].
    rewrite binary_round_whole by lia. reflexivity.
  - rewrite of_uint63_spec, to_Z_of_Z_small by lia.
    destruct z as [| p | p]; try lia; cbn [binary_normalize SFint]; [reflexivity |].
    apply binary_round_whole. lia.
Qed.

Lemma SFint_valid (z : Z) : Z.abs z < 2 ^ 53 -> valid_binary (SFint z) = true.
Proof. intros Hz. rewrite <- Prim2SF_float_of_Z by exact Hz. apply Prim2SF_valid. Qed.

Lemma float_of_Z_finite (z : Z) :
  Z.abs z < 2 ^ 53 -> PrimFloat.is_finite (float_of_Z z) = true.
Proof.
  intros Hz. unfold PrimFloat.is_finite.
  pose proof (Prim2SF_float_of_Z z Hz) as E. unfold Prim2SF in E.
  destruct (is_nan (float_of_Z z)); [destruct z; discriminate E |].
  destruct (is_zero (float_of_Z z)) eqn:Ez.
  - destruct (is_infinity (float_of_Z z)) eqn:Ei; [| reflexivity].
    exfalso. revert Ez Ei.
    unfold is_zero, is_infinity.
    rewrite !FloatAxioms.eqb_spec. rewrite abs_spec.
    destruct (Prim2SF (float_of_Z z)) as [[|] | [|] | | [|] m e]; cbn; congruence.
  - destruct (is_infinity (float_of_Z z)); [destruct z; discriminate E | reflexivity].
Qed.

Lemma binary_normalize_scaled (c : Z) (k : nat) :
  Z.abs c < 2 ^ 53 ->
  binary_normalize prec emax (c * 2 ^ Z.of_nat k) (- Z.of_nat k) false = SFint c.
Proof.
  intros Hc. destruct c as [| p | p]; [reflexivity | |].
  - rewrite <- Zpos_shl. cbn [binary_normalize SFint].
    apply binary_round_shl, bits_le_53. lia.
  - change (Z.neg p) with (- Z.pos p). rewrite Z.mul_opp_l, <- Zpos_shl.
    cbn [Z.opp binary_normalize SFint].
    apply binary_round_shl, bits_le_53. lia.
Qed.

Lemma shl_align_canon (p : positive) (d : nat) :
  (bits p <= 53)%nat -> (d <= bits p)%nat ->
  fst (shl_align (shl p (53 - bits p)) (Z.of_nat (bits p) - 53) (Z.of_nat d - 53))
  = shl p (53 - d).
Proof.
  intros Hp Hd. unfold shl_align.
  destruct (Z.of_nat d - 53 - (Z.of_nat (bits p) - 53)) as [| q | q] eqn:E; cbn [fst].
  - f_equal. lia.
  - lia.
  - rewrite pos_iter_shl, shl_add. f_equal. lia.
Qed.

Lemma cond_Zopp_shl (s : bool) (p : positive) (k : nat) :
  cond_Zopp s (Zpos (shl p k)) = signed_value s p * 2 ^ Z.of_nat k.
Proof. unfold signed_value. rewrite Zpos_shl. destruct s; cbn [cond_Zopp]; lia. Qed.

Lemma SFint_signed (s : bool) (p : positive) : SFint (signed_value s p) = canon s p.
Proof. destruct s; reflexivity. Qed.

Lemma canon_add (sa sb : bool) (pa pb : positive) :
  Zpos pa < 2 ^ 53 -> Zpos pb < 2 ^ 53 ->
  Z.abs (signed_value sa pa + signed_value sb pb) < 2 ^ 53 ->
  SF64add (canon sa pa) (canon sb pb) = SFint (signed_value sa pa + signed_value sb pb).
Proof.
  intros Ha Hb Hab. apply bits_le_53 in Ha, Hb.
  unfold SF64add, SFadd, canon.
  set (d := Nat.min (bits pa) (bits pb)).
  replace (Z.min (Z.of_nat (bits pa) - 53) (Z.of_nat (bits pb) - 53))
    with (Z.of_nat d - 53) by lia.
  rewrite !shl_align_canon by lia. rewrite !cond_Zopp_shl, <- Z.mul_add_distr_r.
  pose proof (bits_pos pa). pose proof (bits_pos pb).
  replace (Z.of_nat d - 53) with (- Z.of_nat (53 - d)) by lia.
  apply binary_normalize_scaled, Hab.
Qed.

Lemma canon_sub (sa sb : bool) (pa pb : positive) :
  Zpos pa < 2 ^ 53 -> Zpos pb < 2 ^ 53 ->
  Z.abs (signed_value sa pa - signed_value sb pb) < 2 ^ 53 ->
  SF64sub (canon sa pa) (canon sb pb) = SFint (signed_value sa pa - signed_value sb pb).
Proof.
  intros Ha Hb Hab. apply bits_le_53 in Ha, Hb.
  unfold SF64sub, SFsub, canon.
  set (d := Nat.min (bits pa) (bits pb)).
  replace (Z.min (Z.of_nat (bits pa) - 53) (Z.of_nat (bits pb) - 53))
    with (Z.of_nat d - 53) by lia.
  rewrite !shl_align_canon by lia. rewrite !cond_Zopp_shl, <- Z.mul_sub_distr_r.
  pose proof (bits_pos pa). pose proof (bits_pos pb).
  replace (Z.of_nat d - 53) with (- Z.of_nat (53 - d)) by lia.
  apply binary_normalize_scaled, Hab.
Qed.

Lemma SFint_add (a b : Z) :
  Z.abs a < 2 ^ 53 -> Z.abs b < 2 ^ 53 -> Z.abs (a + b) < 2 ^ 53 ->
  SF64add (SFint a) (SFint b) = SFint (a + b).
Proof.
  intros Ha Hb Hab.
  destruct a as [| pa | pa], b as [| pb | pb]; try reflexivity.
  - apply (canon_add false false pa pb); [lia | lia | exact Hab].
  - apply (canon_add false true pa pb); [lia | lia | exact Hab].
  - apply (canon_add true false pa pb); [lia | lia | exact Hab].
  - apply (canon_add true true pa pb); [lia | lia | exact Hab].
Qed.

Lemma SFint_sub (a b : Z) :
  Z.abs a < 2 ^ 53 -> Z.abs b < 2 ^ 53 -> Z.abs (a - b) < 2 ^ 53 ->
  SF64sub (SFint a) (SFint b) = SFint (a - b).
Proof.
  intros Ha Hb Hab.
  destruct a as [| pa | pa], b as [| pb | pb]; try reflexivity.
  - apply (canon_sub false false pa pb); [lia | lia | exact Hab].
  - apply (canon_sub false true pa pb); [lia | lia | exact Hab].
  - apply (canon_sub true false pa pb); [lia | lia | exact Hab].
  - apply (canon_sub true true pa pb); [lia | lia | exact Hab].
Qed.

(** Binary64 addition and subtraction of whole numbers is exact as long as
    the operands and the result are below [2^53] in magnitude. *)
Lemma float_of_Z_add (a b : Z) :
  Z.abs a < 2 ^ 53 -> Z.abs b < 2 ^ 53 -> Z.abs (a + b) < 2 ^ 53 ->
  (float_of_Z a + float_of_Z b)%float = float_of_Z (a + b).
Proof.
  intros Ha Hb Hab. apply Prim2SF_inj.
  rewrite add_spec, !Prim2SF_float_of_Z by assumption. apply SFint_add; assumption.
Qed.

Lemma float_of_Z_sub (a b : Z) :
  Z.abs a < 2 ^ 53 -> Z.abs b < 2 ^ 53 -> Z.abs (a - b) < 2 ^ 53 ->
  (float_of_Z a - float_of_Z b)%float = float_of_Z (a - b).
Proof.
  intros Ha Hb Hab. apply Prim2SF_inj.
  rewrite sub_spec, !Prim2SF_float_of_Z by assumption. apply SFint_sub; assumption.
Qed.

Lemma float_of_Z_positive (z : Z) :
  Z.abs z < 2 ^ 53 -> (0 <? float_of_Z z)%float = (0 <? z).
Proof.
  intros Hz. rewrite ltb_spec, Prim2SF_float_of_Z by exact Hz.
  change (Prim2SF 0) with (S754_zero false). destruct z; reflexivity.
Qed.

Lemma float_of_Z_negative (z : Z) :
  Z.abs z < 2 ^ 53 -> (float_of_Z z <? 0)%float = (z <? 0).
Proof.
  intros Hz. rewrite ltb_spec, Prim2SF_float_of_Z by exact Hz.
  change (Prim2SF 0) with (S754_zero false). destruct z; reflexivity.
Qed.

Lemma float_of_Z_inj (a b : Z) :
  Z.abs a < 2 ^ 53 -> Z.abs b < 2 ^ 53 -> float_of_Z a = float_of_Z b -> a = b.
Proof.
  intros Ha Hb E. apply (f_equal Prim2SF) in E.
  rewrite !Prim2SF_float_of_Z in E by assumption.
  assert (Hshl : forall p q : positive,
             (bits p <= 53)%nat -> (bits q <= 53)%nat ->
             canon false p = canon false q -> p = q).
  { intros p q Hp Hq Ec. unfold canon in Ec. injection Ec as Em Ee.
    assert (bits p = bits q) by lia.
    apply (f_equal Zpos) in Em. rewrite !Zpos_shl in Em.
    replace (53 - bits q)%nat with (53 - bits p)%nat in Em by lia.
    assert (0 < 2 ^ Z.of_nat (53 - bits p)) by (apply Z.pow_pos_nonneg; lia).
    apply Z.mul_cancel_r in Em; [congruence | lia]. }
  destruct a as [| p | p], b as [| q | q]; cbn [SFint] in E; try discriminate E;
    try reflexivity.
  - f_equal. apply Hshl; [apply bits_le_53; lia .. | exact E].
  - f_equal. apply Hshl; [apply bits_le_53; lia .. |].
    unfold canon in *. injection E as E1 E2. congruence.
Qed.

(* --------------------------------------------------------------------- *)
(** ** 8. The balance engine as a ledger *)
(* --------------------------------------------------------------------- *)

Section LedgerFacts.
Context {num : Type} `{JsNumber num}.

Lemma fold_left_map_fused {A B C} (f : A -> B -> A) (g : C -> B) (l : list C) (a : A) :
  fold_left f (map g l) a = fold_left (fun a x => f a (g x)) l a.
Proof. revert a. induction l as [| x l IH]; intros a; simpl; [reflexivity | apply IH]. Qed.

Lemma add_expense_posts (bm : gmap string num) (e : GroupExpense num) :
  add_expense bm e = fold_left post_entry (entries_of e) bm.
Proof.
  unfold add_expense, entries_of. cbn [fold_left].
  rewrite fold_left_map_fused. reflexivity.
Qed.

Lemma fold_add_expense_posts (es : list (GroupExpense num)) (bm : gmap string num) :
  fold_left add_expense es bm = fold_left post_entry (ledger es) bm.
Proof.
  revert bm. induction es as [| e es IH]; intros bm; [reflexivity |].
  unfold ledger. cbn [fold_left flat_map].
  rewrite fold_left_app, <- add_expense_posts. apply IH.
Qed.

Lemma balanceMap_ledger (es : list (GroupExpense num)) :
  balanceMap es = fold_left post_entry (ledger es) ∅.
Proof. apply fold_add_expense_posts. Qed.

(** An id that no entry names is left alone. *)
Lemma fold_post_entry_other (ens : list (Entry num)) (bm : gmap string num) (k : string) :
  k ∉ map entry_user ens -> fold_left post_entry ens bm !! k = bm !! k.
Proof.
  revert bm. induction ens as [| en ens IH]; intros bm Hk; [reflexivity |].
  cbn [fold_left]. rewrite IH.
  - unfold post_entry. apply lookup_insert_ne. intros E. apply Hk. rewrite <- E. left.
  - intros Hin. apply Hk. right. exact Hin.
Qed.

(** An id that some entry names has an accumulator. *)
Lemma fold_post_entry_named (ens : list (Entry num)) (bm : gmap string num) (k : string) :
  k ∈ map entry_user ens \/ is_Some (bm !! k) ->
  is_Some (fold_left post_entry ens bm !! k).
Proof.
  revert bm. induction ens as [| en ens IH]; intros bm Hk.
  - destruct Hk as [Hk | Hk]; [inversion Hk | exact Hk].
  - cbn [fold_left]. apply IH.
    destruct (decide (entry_user en = k)) as [E | E].
    + right. unfold post_entry. rewrite E, lookup_insert_eq. eauto.
    + destruct Hk as [Hk | Hk].
      * left. cbn [map] in Hk. apply elem_of_cons in Hk as [Hk | Hk]; [congruence | exact Hk].
      * right. unfold post_entry. rewrite lookup_insert_ne by exact E. exact Hk.
Qed.

Lemma ledger_users_absent (es : list (GroupExpense num)) (k : string) :
  Forall (absent_from k) es -> k ∉ map entry_user (ledger es).
Proof.
  induction 1 as [| e es [Hp Hs] _ IH]; [intros Hin; inversion Hin |].
  unfold ledger. cbn [flat_map]. rewrite map_app. intros Hin.
  apply elem_of_app in Hin as [Hin | Hin]; [| exact (IH Hin)].
  unfold entries_of in Hin. cbn [map entry_user] in Hin.
  apply elem_of_cons in Hin as [Hin | Hin]; [congruence |].
  rewrite map_map in Hin. cbn [entry_user] in Hin.
  rewrite Forall_forall in Hs.
  apply list_elem_of_In, in_map_iff in Hin as (s & Es & Hin).
  apply (Hs s); [apply list_elem_of_In; exact Hin | exact Es].
Qed.

(** *** The accumulators of the map are the members' running balances

    [ok] holds of the accumulators and [fits] of the amounts; on floats
    they are [clean] and finiteness, on exact hundredths they are
    trivial. *)
Section Accumulators.
Variable ok : num -> Prop.
Variable fits : num -> Prop.
Hypothesis ok_zero : ok n_zero.
Hypothesis ok_add : forall a t, ok a -> fits t -> ok (n_add a t).
Hypothesis ok_sub : forall a t, ok a -> fits t -> ok (n_sub a t).
Hypothesis ok_or0 : forall a, ok a -> (if n_truthy a then a else n_zero) = a.

Lemma get_or0_ok (bm : gmap string num) (k : string) :
  all_ok ok bm -> ok (get_or0 bm k).
Proof.
  intros Hbm. unfold get_or0. destruct (bm !! k) as [c |] eqn:E; [| exact ok_zero].
  rewrite ok_or0; eauto.
Qed.

Lemma post_ok (a : num) (en : Entry num) :
  ok a -> fits (entry_amount en) -> ok (post a en).
Proof. destruct en; cbn; auto. Qed.

Lemma post_entry_ok (bm : gmap string num) (en : Entry num) :
  all_ok ok bm -> fits (entry_amount en) -> all_ok ok (post_entry bm en).
Proof.
  intros Hbm Hen k c. unfold post_entry.
  destruct (decide (entry_user en = k)) as [<- | E].
  - rewrite lookup_insert_eq. intros [= <-]. apply post_ok; [apply get_or0_ok |]; assumption.
  - rewrite lookup_insert_ne by exact E. apply Hbm.
Qed.

Lemma get_or0_post_entry (bm : gmap string num) (en : Entry num) (k : string) :
  all_ok ok bm -> fits (entry_amount en) ->
  get_or0 (post_entry bm en) k
  = if decide (entry_user en = k) then post (get_or0 bm k) en else get_or0 bm k.
Proof.
  intros Hbm Hen. unfold get_or0 at 1. unfold post_entry.
  destruct (decide (entry_user en = k)) as [<- | E].
  - rewrite lookup_insert_eq. apply ok_or0, post_ok; [apply get_or0_ok |]; assumption.
  - rewrite lookup_insert_ne by exact E. reflexivity.
Qed.

Lemma fold_post_entry_running (ens : list (Entry num)) (bm : gmap string num) :
  all_ok ok bm -> Forall (fun en => fits (entry_amount en)) ens ->
  all_ok ok (fold_left post_entry ens bm)
  /\ forall k, get_or0 (fold_left post_entry ens bm) k
               = running_balance k ens (get_or0 bm k).
Proof.
  intros Hbm Hens. revert bm Hbm.
  induction Hens as [| en ens Hen _ IH]; intros bm Hbm; [split; [exact Hbm | reflexivity] |].
  cbn [fold_left]. destruct (IH (post_entry bm en)) as [Hok Hrun];
    [apply post_entry_ok; assumption |].
  split; [exact Hok |]. intros k. rewrite Hrun.
  unfold running_balance. cbn [fold_left].
  rewrite get_or0_post_entry by assumption. reflexivity.
Qed.

Lemma ledger_fits (es : list (GroupExpense num)) :
  Forall (fun e => fits (amount e) /\ Forall (fun s => fits (split_amount s)) (expense_splits e)) es ->
  Forall (fun en => fits (entry_amount en)) (ledger es).
Proof.
  induction 1 as [| e es [Ha Hs] _ IH]; [constructor |].
  unfold ledger. cbn [flat_map]. apply Forall_app. split; [| exact IH].
  unfold entries_of. constructor; [exact Ha |].
  apply Forall_map. eapply Forall_impl; [exact Hs |]. intros s Hs'. exact Hs'.
Qed.

(** The value read for a member is its running balance over the ledger. *)
Lemma get_or0_balanceMap (es : list (GroupExpense num)) (k : string) :
  Forall (fun e => fits (amount e) /\ Forall (fun s => fits (split_amount s)) (expense_splits e)) es ->
  get_or0 (balanceMap es) k = member_total k es.
Proof.
  intros Hes. rewrite balanceMap_ledger.
  destruct (fold_post_entry_running (ledger es) ∅) as [_ Hrun].
  - intros k' c. rewrite lookup_empty. discriminate.
  - apply ledger_fits, Hes.
  - rewrite Hrun. unfold member_total, get_or0. rewrite lookup_empty. reflexivity.
Qed.

End Accumulators.

(** *** The specification's mapping *)

Lemma spec_add_expense_posts (sm : gmap string num) (e : GroupExpense num) :
  spec_add_expense sm e = fold_left spec_post (entries_of e) sm.
Proof.
  unfold spec_add_expense, entries_of. cbn [fold_left].
  rewrite fold_left_map_fused. reflexivity.
Qed.

Lemma fold_spec_add_expense_posts (es : list (GroupExpense num)) (sm : gmap string num) :
  fold_left spec_add_expense es sm = fold_left spec_post (ledger es) sm.
Proof.
  revert sm. induction es as [| e es IH]; intros sm; [reflexivity |].
  unfold ledger. cbn [fold_left flat_map].
  rewrite fold_left_app, <- spec_add_expense_posts. apply IH.
Qed.

Lemma fold_spec_post_lookup (ens : list (Entry num)) (sm : gmap string num) (k : string) :
  fold_left spec_post ens sm !! k = running_balance k ens <$> sm !! k.
Proof.
  revert sm. induction ens as [| en ens IH]; intros sm.
  - cbn. destruct (sm !! k); reflexivity.
  - cbn [fold_left]. rewrite IH. unfold spec_post.
    unfold running_balance. cbn [fold_left].
    destruct (decide (entry_user en = k)) as [<- | E].
    + rewrite lookup_alter_eq. destruct (sm !! entry_user en); reflexivity.
    + rewrite lookup_alter_ne by exact E. reflexivity.
Qed.

Lemma spec_init_lookup (ms : list GroupMember) (k : string) :
  spec_init ms !! k = if decide (k ∈ map user_id ms) then Some n_zero else None.
Proof.
  unfold spec_init. induction ms as [| m ms IH].
  - cbn. rewrite lookup_empty. destruct (decide _) as [Hin | _]; [inversion Hin | reflexivity].
  - cbn [map]. rewrite list_to_map_cons.
    destruct (decide (user_id m = k)) as [<- | E].
    + rewrite lookup_insert_eq.
      destruct (decide (user_id m ∈ user_id m :: map user_id ms)) as [_ | Hn]; [reflexivity |].
      exfalso. apply Hn. left.
    + rewrite lookup_insert_ne by exact E. rewrite IH.
      destruct (decide (k ∈ map user_id ms)) as [Hin | Hn];
        destruct (decide (k ∈ user_id m :: map user_id ms)) as [Hin' | Hn']; try reflexivity.
      * exfalso. apply Hn'. right. exact Hin.
      * exfalso. apply elem_of_cons in Hin' as [-> | Hin']; [apply E; reflexivity | exact (Hn Hin')].
Qed.

(** The specification's mapping holds, for each member, the member's
    running balance over the ledger, and nothing for anyone else. *)
Lemma spec_balances_lookup (es : list (GroupExpense num)) (ms : list GroupMember) (k : string) :
  spec_balances es ms !! k
  = if decide (k ∈ map user_id ms) then Some (member_total k es) else None.
Proof.
  unfold spec_balances. rewrite fold_spec_add_expense_posts, fold_spec_post_lookup, spec_init_lookup.
  destruct (decide _); reflexivity.
Qed.

End LedgerFacts.

(* --------------------------------------------------------------------- *)
(** ** 9. The balance engine on binary64 numbers and on exact hundredths *)
(* --------------------------------------------------------------------- *)

(** The specification's two scenarios. *)
Example scenario_5 :
  calculateBalances
    (Some [ {| id := "e1"; amount := 100%float; paid_by := "A";
               expense_splits := [ {| split_user_id := "A"; split_amount := 50%float |};
                                   {| split_user_id := "B"; split_amount := 50%float |} ] |} ])
    (Some [ ann; bob ])
  = Some [ {| bal_user_id := "A"; user_name := "Ann"; user_email := "ann@example.com";
              balance := 50%float |};
           {| bal_user_id := "B"; user_name := "Unknown"; user_email := "bob@example.com";
              balance := (-50)%float |} ].
Proof. vm_compute. reflexivity. Qed.

Example scenario_6 :
  option_map (map balance)
    (calculateBalances
       (Some [ {| id := "e1"; amount := 100%float; paid_by := "A";
                  expense_splits := [ {| split_user_id := "A"; split_amount := 50%float |};
                                      {| split_user_id := "B"; split_amount := 50%float |} ] |};
               {| id := "e2"; amount := 50%float; paid_by := "B";
                  expense_splits := [ {| split_user_id := "A"; split_amount := 25%float |};
                                      {| split_user_id := "B"; split_amount := 25%float |} ] |} ])
       (Some [ ann; bob ]))
  = Some [ 25%float; (-25)%float ].
Proof. vm_compute. reflexivity. Qed.

Lemma Forall2_map_self {A B} (P : A -> B -> Prop) (f : A -> B) (l : list A) :
  (forall x, x ∈ l -> P x (f x)) -> Forall2 P l (map f l).
Proof.
  induction l as [| x l IH]; intros Hl; cbn; constructor.
  - apply Hl. left.
  - apply IH. intros y Hy. apply Hl. right. exact Hy.
Qed.

Lemma finite_amounts_fit (es : list (GroupExpense float)) :
  Forall finite_amounts es ->
  Forall (fun e => PrimFloat.is_finite (amount e) = true
                   /\ Forall (fun s => PrimFloat.is_finite (split_amount s) = true)
                        (expense_splits e)) es.
Proof. intros Hes. exact Hes. Qed.

(** On finite amounts, the number read for user [k] is the binary64
    running balance of [k]. *)
Lemma float_get_or0_balanceMap (es : list (GroupExpense float)) (k : string) :
  Forall finite_amounts es ->
  get_or0 (balanceMap es) k = member_total k es.
Proof.
  intros Hes.
  apply (@get_or0_balanceMap float binary64 clean (fun t => PrimFloat.is_finite t = true)
           clean_zero add_clean sub_clean clean_or0 es k).
  apply finite_amounts_fit, Hes.
Qed.

Lemma hundredths_or0 (a : Z) : (if n_truthy a then a else n_zero) = a.
Proof. cbn. destruct (Z.eqb_spec a 0) as [-> | _]; reflexivity. Qed.

(** On exact hundredths nothing needs to be assumed. *)
Lemma exact_get_or0_balanceMap (es : list (GroupExpense Z)) (k : string) :
  get_or0 (balanceMap es) k = member_total k es.
Proof.
  apply (@get_or0_balanceMap Z hundredths (fun _ => True) (fun _ => True)); auto using hundredths_or0.
  induction es; constructor; auto.
  split; [exact I |]. induction (expense_splits a); constructor; auto.
Qed.

(** C1.  On every dataset ([decimal(10, 2)] amounts are finite numbers) and
    every list of members, [calculateBalances] hands out, member by member
    and in the members' order, the value that the specification's algorithm
    leaves in its mapping: the mapping that starts at 0 for every member id,
    gets each expense's amount added at the payer and each split's amount
    subtracted at the split's member, and holds the member ids and no
    others. *)
Theorem calculateBalances_is_the_spec_fold
    (es : list (GroupExpense float)) (ms : list GroupMember) :
  Forall finite_amounts es ->
  exists out,
    calculateBalances (Some es) (Some ms) = Some out
    /\ Forall2 (fun m b => bal_user_id b = user_id m
                           /\ spec_balances es ms !! user_id m = Some (balance b)) ms out
    /\ (forall k, is_Some (spec_balances es ms !! k) <-> k ∈ map user_id ms).
Proof.
  intros Hes. exists (map (balance_of (balanceMap es)) ms).
  split; [reflexivity |]. split.
  - apply Forall2_map_self. intros m Hm. split; [reflexivity |].
    rewrite spec_balances_lookup.
    destruct (decide (user_id m ∈ map user_id ms)) as [_ | Hn].
    + cbn [balance_of balance]. now rewrite float_get_or0_balanceMap.
    + exfalso. apply Hn, list_elem_of_In, in_map, list_elem_of_In, Hm.
  - intros k. rewrite spec_balances_lookup.
    destruct (decide (k ∈ map user_id ms)) as [Hin | Hn]; split; intros Hk; eauto.
    + destruct Hk as [? [=]].
    + contradiction.
Qed.

Lemma calculateBalances_is_the_spec_fold_witness :
  exists out,
    calculateBalances (Some [dinner; dinner]) (Some [ann; bob]) = Some out
    /\ Forall2 (fun m b => bal_user_id b = user_id m
                           /\ spec_balances [dinner; dinner] [ann; bob] !! user_id m
                              = Some (balance b)) [ann; bob] out
    /\ (forall k, is_Some (spec_balances [dinner; dinner] [ann; bob] !! k)
                  <-> k ∈ map user_id [ann; bob]).
Proof. apply (calculateBalances_is_the_spec_fold [dinner; dinner] [ann; bob]). repeat constructor. Defined.

(** C7.  With no expenses every member's entry carries the balance 0, and
    with any expenses a member who neither paid nor has a split still has an
    entry in the output, with the balance 0 (the number [0] itself, for
    either arithmetic). *)
Theorem idle_members_have_balance_zero {num : Type} `{JsNumber num} :
  (forall ms : list GroupMember,
      calculateBalances (Some []) (Some ms) = Some (map settled ms))
  /\ (forall (es : list (GroupExpense num)) (ms : list GroupMember) (m : GroupMember),
         m ∈ ms -> Forall (absent_from (user_id m)) es ->
         exists out, calculateBalances (Some es) (Some ms) = Some out /\ settled m ∈ out).
Proof.
  split.
  - intros ms. reflexivity.
  - intros es ms m Hm Habs. exists (map (balance_of (balanceMap es)) ms).
    split; [reflexivity |].
    apply list_elem_of_In, in_map_iff. exists m. split; [| apply list_elem_of_In, Hm].
    unfold balance_of, settled. f_equal.
    unfold get_or0. rewrite balanceMap_ledger, fold_post_entry_other.
    + rewrite lookup_empty. reflexivity.
    + apply ledger_users_absent, Habs.
Qed.

Lemma idle_members_have_balance_zero_witness :
  exists out,
    calculateBalances (Some [dinner; dinner]) (Some [ann; bob; carol]) = Some out
    /\ settled carol ∈ out.
Proof.
  apply (proj2 idle_members_have_balance_zero [dinner; dinner] [ann; bob; carol] carol).
  - right. right. left.
  - repeat constructor; discriminate.
Defined.

(** C10.  The output has one entry per row of the member list, in that
    order and for those ids only; an id that paid or has a split gets an
    accumulator in the map whether or not it is a member, and when it is
    not a member nothing of it reaches the output: an expense of 100 paid by
    a non-member and split 50/50 between the two members reconciles, and
    the output balances sum to -100. *)
Theorem output_is_one_entry_per_member :
  (forall (num : Type) (N : JsNumber num)
          (es : list (GroupExpense num)) (ms : list GroupMember),
      exists out,
        calculateBalances (Some es) (Some ms) = Some out
        /\ map bal_user_id out = map user_id ms)
  /\ (forall (num : Type) (N : JsNumber num) (es : list (GroupExpense num)) (k : string),
         k ∈ map entry_user (ledger es) -> is_Some (balanceMap es !! k))
  /\ (let outsider : GroupExpense float :=
        {| id := "e9"; amount := 100%float; paid_by := "X";
           expense_splits := [ {| split_user_id := "A"; split_amount := 50%float |};
                               {| split_user_id := "B"; split_amount := 50%float |} ] |} in
      reconciles outsider = true
      /\ balanceMap [outsider] !! "X" = Some 100%float
      /\ option_map (map (fun b => (bal_user_id b, balance b)))
           (calculateBalances (Some [outsider]) (Some [ann; bob]))
         = Some [("A", (-50)%float); ("B", (-50)%float)]
      /\ option_map (fun out => n_sum (map balance out))
           (calculateBalances (Some [outsider]) (Some [ann; bob]))
         = Some (-100)%float).
Proof.
  split; [| split].
  - intros num N es ms. exists (map (balance_of (balanceMap es)) ms).
    split; [reflexivity |]. rewrite map_map. reflexivity.
  - intros num N es k Hk. rewrite balanceMap_ledger.
    apply fold_post_entry_named. left. exact Hk.
  - cbv zeta. repeat split; vm_compute; reflexivity.
Qed.

Lemma output_is_one_entry_per_member_witness :
  is_Some (balanceMap [dinner] !! "B").
Proof.
  apply (proj1 (proj2 output_is_one_entry_per_member) float binary64 [dinner] "B").
  right. right. left.
Defined.

(** *** The accumulator is a binary64 number *)

(** C6, as stated, fails: an expense of 0.30 paid by A and split 0.10 / 0.20
    leaves A at 0.19999999999999998, where an accumulator of hundredths
    holds 20 hundredths, read as 0.2. *)
Lemma accumulator_is_not_decimal :
  option_map (map balance)
    (calculateBalances (Some [read_expense snack]) (Some [ann; bob]))
  = Some [0.19999999999999998%float; (-0.2)%float]
  /\ decimal_balances [snack] [ann; bob] = Some [0.2%float; (-0.2)%float]
  /\ (0.19999999999999998 =? 0.2)%float = false.
Proof. repeat split; vm_compute; reflexivity. Qed.

(** C6, amended.  The engine accumulates in binary64 arithmetic and applies
    no rounding of its own, neither during the accumulation nor to the
    result: each member's balance is that member's credits and debits added
    and subtracted one after the other, in the order of the expenses, by
    the binary64 [+] and [-], starting from 0. *)
Theorem balances_are_binary64_running_sums
    (es : list (GroupExpense float)) (ms : list GroupMember) :
  Forall finite_amounts es ->
  exists out,
    calculateBalances (Some es) (Some ms) = Some out
    /\ Forall2 (fun m b =>
                  balance b
                  = fold_left
                      (fun a en =>
                         if decide (entry_user en = user_id m) then
                           match en with
                           | Credit _ t => (a + t)%float
                           | Debit _ t => (a - t)%float
                           end
                         else a)
                      (ledger es) 0%float) ms out
    /\ option_map (map balance)
         (calculateBalances (Some [read_expense snack]) (Some [ann; bob]))
       = Some [(0.3 - 0.1)%float; (0 - 0.2)%float].
Proof.
  intros Hes. exists (map (balance_of (balanceMap es)) ms).
  split; [reflexivity |]. split.
  - apply Forall2_map_self. intros m _. cbn [balance_of balance].
    rewrite float_get_or0_balanceMap by exact Hes. reflexivity.
  - vm_compute. reflexivity.
Qed.

Lemma balances_are_binary64_running_sums_witness :
  exists out,
    calculateBalances (Some [dinner; dinner]) (Some [ann; bob]) = Some out
    /\ Forall2 (fun m b =>
                  balance b
                  = fold_left
                      (fun a en =>
                         if decide (entry_user en = user_id m) then
                           match en with
                           | Credit _ t => (a + t)%float
                           | Debit _ t => (a - t)%float
                           end
                         else a)
                      (ledger [dinner; dinner]) 0%float) [ann; bob] out
    /\ option_map (map balance)
         (calculateBalances (Some [read_expense snack]) (Some [ann; bob]))
       = Some [(0.3 - 0.1)%float; (0 - 0.2)%float].
Proof.
  apply (balances_are_binary64_running_sums [dinner; dinner] [ann; bob]).
  repeat constructor.
Defined.

(** *** The sum of the balances *)


Lemma fold_left_add_sumZ (l : list Z) (a : Z) : fold_left Z.add l a = a + sumZ l.
Proof.
  revert a. induction l as [| x l IH]; intros a; cbn; [lia |]. rewrite IH. lia.
Qed.

Lemma n_sum_sumZ (l : list Z) : n_sum l = sumZ l.
Proof. unfold n_sum. cbn. rewrite fold_left_add_sumZ. lia. Qed.

Lemma sumZ_app (l1 l2 : list Z) : sumZ (l1 ++ l2) = sumZ l1 + sumZ l2.
Proof. induction l1 as [| x l1 IH]; cbn; [reflexivity |]. rewrite IH. lia. Qed.

Lemma sumZ_map_add {A} (f g : A -> Z) (l : list A) :
  sumZ (map (fun x => f x + g x) l) = sumZ (map f l) + sumZ (map g l).
Proof. induction l as [| x l IH]; cbn; [reflexivity |]. rewrite IH. lia. Qed.

Lemma sumZ_map_zero {A} (l : list A) : sumZ (map (fun _ => 0) l) = 0.
Proof. induction l as [| x l IH]; cbn; [reflexivity | exact IH]. Qed.

Lemma exact_running_balance (k : string) (ens : list (Entry Z)) (a : Z) :
  running_balance k ens a = a + sumZ (map (share k) ens).
Proof.
  revert a. induction ens as [| en ens IH]; intros a.
  - cbn. lia.
  - change (running_balance k (en :: ens) a)
      with (running_balance k ens (if decide (entry_user en = k) then post a en else a)).
    rewrite IH. cbn [map sumZ]. unfold share at 2.
    destruct (decide (entry_user en = k)); [| lia].
    destruct en; cbn; lia.
Qed.

(** Over a duplicate-free list of ids that contains the entry's user, the
    shares of one entry add up to the entry. *)
Lemma shares_of_one_entry (ids : list string) (en : Entry Z) :
  NoDup ids -> entry_user en ∈ ids ->
  sumZ (map (fun k => share k en) ids) = signed en.
Proof.
  induction 1 as [| k ids Hk _ IH]; intros Hin; [inversion Hin |].
  cbn [map sumZ].
  unfold share at 1. destruct (decide (entry_user en = k)) as [E | E].
  - assert (Hz : sumZ (map (fun k => share k en) ids) = 0).
    { rewrite <- (sumZ_map_zero ids). f_equal. apply map_ext_in. intros k' Hk'.
      unfold share. destruct (decide (entry_user en = k')) as [E' | _]; [| reflexivity].
      exfalso. apply Hk. rewrite <- E, E'. apply list_elem_of_In, Hk'. }
    lia.
  - apply elem_of_cons in Hin as [Hin | Hin]; [contradiction |]. rewrite IH by exact Hin. lia.
Qed.

Lemma shares_of_all_entries (ids : list string) (ens : list (Entry Z)) :
  NoDup ids -> Forall (fun en => entry_user en ∈ ids) ens ->
  sumZ (map (fun k => sumZ (map (share k) ens)) ids) = sumZ (map signed ens).
Proof.
  intros Hids. induction 1 as [| en ens Hen _ IH]; cbn [map sumZ].
  - apply sumZ_map_zero.
  - rewrite <- IH, <- (shares_of_one_entry ids en Hids Hen).
    rewrite <- sumZ_map_add. reflexivity.
Qed.

Lemma signed_entries_of (e : GroupExpense Z) :
  sumZ (map signed (entries_of e)) = gap e.
Proof.
  unfold entries_of, gap. cbn [map sumZ signed].
  rewrite n_sum_sumZ, map_map. cbn [signed].
  induction (expense_splits e) as [| s l IH]; cbn [map sumZ] in *; lia.
Qed.

Lemma signed_ledger (es : list (GroupExpense Z)) :
  sumZ (map signed (ledger es)) = total_gap es.
Proof.
  unfold total_gap, ledger. induction es as [| e es IH]; [reflexivity |].
  cbn [flat_map map sumZ]. rewrite map_app, sumZ_app, signed_entries_of, IH. reflexivity.
Qed.

Lemma ledger_within_group (ms : list GroupMember) (es : list (GroupExpense Z)) :
  Forall (within_group ms) es ->
  Forall (fun en => entry_user en ∈ map user_id ms) (ledger es).
Proof.
  induction 1 as [| e es [Hp Hs] _ IH]; [constructor |].
  unfold ledger. cbn [flat_map]. apply Forall_app. split; [| exact IH].
  unfold entries_of. constructor; [exact Hp |].
  apply Forall_map. eapply Forall_impl; [exact Hs |]. intros s Hs'. exact Hs'.
Qed.


Lemma exact_member_total (es : list (GroupExpense Z)) (k : string) :
  get_or0 (balanceMap es) k = sumZ (map (share k) (ledger es)).
Proof.
  rewrite exact_get_or0_balanceMap. unfold member_total.
  rewrite exact_running_balance. cbn. reflexivity.
Qed.

Lemma exact_balances_total (es : list (GroupExpense Z)) (ms : list GroupMember) :
  NoDup (map user_id ms) ->
  Forall (within_group ms) es ->
  sumZ (map balance (map (balance_of (balanceMap es)) ms)) = total_gap es.
Proof.
  intros Hids Hes. rewrite map_map. cbn [balance_of balance].
  rewrite <- signed_ledger,
    <- (shares_of_all_entries (map user_id ms) (ledger es) Hids (ledger_within_group ms es Hes)).
  rewrite map_map. f_equal. apply map_ext. intros m.
  rewrite exact_get_or0_balanceMap. unfold member_total.
  rewrite exact_running_balance. cbn. reflexivity.
Qed.

(* --------------------------------------------------------------------- *)
(** ** 9a. The balance engine on whole numbers *)
(* --------------------------------------------------------------------- *)

Lemma float_of_Z_zero : float_of_Z 0 = 0%float.
Proof. vm_compute. reflexivity. Qed.



Lemma fold_whole (l : list Z) (a : Z) :
  Z.abs a + sumZ (map Z.abs l) < 2 ^ 53 ->
  fold_left PrimFloat.add (map float_of_Z l) (float_of_Z a) = float_of_Z (a + sumZ l).
Proof.
  revert a. induction l as [| x l IH]; intros a Hb; cbn [map fold_left sumZ] in *.
  - f_equal. lia.
  - assert (Hl : 0 <= sumZ (map Z.abs l)).
    { clear. induction l as [| y l IH]; cbn [map sumZ]; lia. }
    rewrite float_of_Z_add by lia. rewrite IH by lia. f_equal. lia.
Qed.


Lemma entry_volume_nonneg (ens : list (Entry Z)) : 0 <= entry_volume ens.
Proof. unfold entry_volume. induction ens as [| en ens IH]; cbn [map sumZ]; lia. Qed.

Lemma entry_volume_app (ens ens' : list (Entry Z)) :
  entry_volume (ens ++ ens') = entry_volume ens + entry_volume ens'.
Proof. unfold entry_volume. rewrite map_app, sumZ_app. reflexivity. Qed.

Lemma entry_volume_bound (ens : list (Entry Z)) (en : Entry Z) :
  en ∈ ens -> Z.abs (entry_amount en) <= entry_volume ens.
Proof.
  induction ens as [| x ens IH]; intros Hin; [inversion Hin |].
  pose proof (entry_volume_nonneg ens). unfold entry_volume in *. cbn [map sumZ].
  apply elem_of_cons in Hin as [-> | Hin]; [lia |]. specialize (IH Hin). lia.
Qed.

(** A running balance over whole numbers in binary64 is the whole-number
    running balance. *)
Lemma running_whole (k : string) (ens : list (Entry Z)) (a : Z) :
  Z.abs a + entry_volume ens < 2 ^ 53 ->
  running_balance k (map whole_entry ens) (float_of_Z a)
  = float_of_Z (running_balance k ens a)
  /\ Z.abs (running_balance k ens a) <= Z.abs a + entry_volume ens.
Proof.
  revert a. induction ens as [| en ens IH]; intros a Hb.
  - cbn. split; [reflexivity |]. unfold entry_volume. cbn. lia.
  - pose proof (entry_volume_nonneg ens) as Hv.
    unfold entry_volume in Hb, Hv |- *. cbn [map sumZ] in Hb |- *.
    change (running_balance k (whole_entry en :: map whole_entry ens) (float_of_Z a))
      with (running_balance k (map whole_entry ens)
              (if decide (entry_user (whole_entry en) = k)
               then post (float_of_Z a) (whole_entry en) else float_of_Z a)).
    change (running_balance k (en :: ens) a)
      with (running_balance k ens (if decide (entry_user en = k) then post a en else a)).
    assert (Hu : entry_user (whole_entry en) = entry_user en) by (destruct en; reflexivity).
    rewrite Hu. destruct (decide (entry_user en = k)) as [_ | _].
    + assert (Hpost : post (float_of_Z a) (whole_entry en) = float_of_Z (post a en)
                      /\ Z.abs (post a en) <= Z.abs a + Z.abs (entry_amount en)).
      { destruct en as [u t | u t]; cbn [whole_entry post entry_amount n_add n_sub
                                          binary64 hundredths] in *.
        - split; [apply float_of_Z_add; lia | lia].
        - split; [apply float_of_Z_sub; lia | lia]. }
      destruct Hpost as [-> Hp].
      destruct (IH (post a en)) as [-> Hr]; [unfold entry_volume; lia |].
      split; [reflexivity |]. unfold entry_volume in Hr. lia.
    + destruct (IH a) as [-> Hr]; [unfold entry_volume; lia |].
      split; [reflexivity |]. unfold entry_volume in Hr. lia.
Qed.

Lemma entries_of_whole (e : GroupExpense Z) :
  entries_of (whole_expense e) = map whole_entry (entries_of e).
Proof. unfold entries_of. cbn. rewrite !map_map. reflexivity. Qed.

Lemma ledger_whole (es : list (GroupExpense Z)) :
  ledger (map whole_expense es) = map whole_entry (ledger es).
Proof.
  unfold ledger. induction es as [| e es IH]; [reflexivity |].
  cbn [map flat_map]. rewrite map_app, IH, entries_of_whole. reflexivity.
Qed.

Lemma whole_finite_amounts (es : list (GroupExpense Z)) :
  volume es < 2 ^ 53 -> Forall finite_amounts (map whole_expense es).
Proof.
  unfold volume, ledger. induction es as [| e es IH]; intros Hv; [constructor |].
  cbn [map flat_map] in *. rewrite entry_volume_app in Hv.
  pose proof (entry_volume_nonneg (entries_of e)).
  pose proof (entry_volume_nonneg (flat_map entries_of es)).
  constructor; [| apply IH; lia].
  assert (Hall : forall en, en ∈ entries_of e -> Z.abs (entry_amount en) < 2 ^ 53).
  { intros en Hen. pose proof (entry_volume_bound _ _ Hen). lia. }
  split.
  - cbn. apply float_of_Z_finite. apply (Hall (Credit (paid_by e) (amount e))). left.
  - cbn. apply Forall_map. apply Forall_forall. intros s Hs. cbn.
    apply float_of_Z_finite.
    apply (Hall (Debit (split_user_id s) (split_amount s))).
    right. apply list_elem_of_fmap. exists s. split; [reflexivity | exact Hs].
Qed.

(** On whole numbers the binary64 engine holds, for every user, the
    whole-number balance. *)
Lemma whole_get_or0_balanceMap (es : list (GroupExpense Z)) (k : string) :
  volume es < 2 ^ 53 ->
  get_or0 (balanceMap (map whole_expense es)) k = float_of_Z (get_or0 (balanceMap es) k)
  /\ Z.abs (get_or0 (balanceMap es) k) <= volume es.
Proof.
  intros Hv.
  rewrite float_get_or0_balanceMap by (apply whole_finite_amounts, Hv).
  rewrite exact_get_or0_balanceMap. unfold member_total.
  rewrite ledger_whole.
  change (@n_zero float binary64) with 0%float. rewrite <- float_of_Z_zero.
  change (@n_zero Z hundredths) with 0.
  destruct (running_whole k (ledger es) 0) as [E Hb]; [unfold volume in Hv; cbn; lia |].
  split; [exact E |]. unfold volume. cbn in Hb. lia.
Qed.







(* --------------------------------------------------------------------- *)
(** ** 10. Split validation and the two-step write *)
(* --------------------------------------------------------------------- *)

Section ModalFacts.
Import Modal.
Variable parseFloat : string -> float.
Variable toISOString : string -> option string.
Variable groupId userId : string.

Abbreviation submit := (handleSubmit parseFloat toISOString groupId userId).

(** The three ways [handleSubmit] ends after the split check and the
    conversion of the date. *)
Lemma handleSubmit_after_check (st : FormState) (be : Backend) (db : Tables.Database)
    (iso : string) :
  split_mismatch parseFloat st = false ->
  toISOString (expenseDate st) = Some iso ->
  let row := expense_row parseFloat groupId userId st iso in
  match group_expenses_insert be with
  | inr message =>
      submit st be db
      = {| form := stop_with st (StorageError message); database := db;
           requests := [InsertGroupExpense row]; closed := false; thrown := false |}
  | inl expense_id =>
      match expense_splits_insert be with
      | Some message =>
          submit st be db
          = {| form := stop_with st (StorageError message);
               database := store_expense db expense_id row;
               requests := [InsertGroupExpense row;
                            InsertExpenseSplits (splitInserts st expense_id)];
               closed := false; thrown := false |}
      | None =>
          submit st be db
          = {| form := stop_with st NoError;
               database := store_splits (store_expense db expense_id row)
                             (splitInserts st expense_id);
               requests := [InsertGroupExpense row;
                            InsertExpenseSplits (splitInserts st expense_id)];
               closed := true; thrown := false |}
      end
  end.
Proof.
  intros Hok Hdate. cbv zeta. unfold handleSubmit. rewrite Hok, Hdate.
  destruct (group_expenses_insert be); [destruct (expense_splits_insert be) |]; reflexivity.
Qed.

Lemma handleSubmit_mismatch (st : FormState) (be : Backend) (db : Tables.Database) :
  split_mismatch parseFloat st = true ->
  submit st be db
  = {| form := stop_with st (SplitTotalMismatch (totalSplit st) (expenseAmount parseFloat st));
       database := db; requests := []; closed := false; thrown := false |}.
Proof. intros Hbad. unfold handleSubmit. rewrite Hbad. reflexivity. Qed.

(** The run that throws: the check passed and the date text is not a
    date. *)
Lemma handleSubmit_invalid_date (st : FormState) (be : Backend) (db : Tables.Database) :
  split_mismatch parseFloat st = false ->
  toISOString (expenseDate st) = None ->
  submit st be db
  = {| form := starting st; database := db; requests := []; closed := false;
       thrown := true |}.
Proof. intros Hok Hdate. unfold handleSubmit. rewrite Hok, Hdate. reflexivity. Qed.

(** [totalSplit] is the left-to-right sum of the values of the splits. *)
Lemma totalSplit_left_sum (st : FormState) : left_sum (map snd (splits st)) (totalSplit st).
Proof.
  unfold totalSplit. induction (splits st) as [| kv l IH] using rev_ind.
  - constructor.
  - rewrite map_app, fold_left_app. cbn [map fold_left]. constructor. exact IH.
Qed.

Lemma left_sum_unique (l : list float) (s s' : float) :
  left_sum l s -> left_sum l s' -> s = s'.
Proof.
  intros H. revert s'. induction H as [| l s x _ IH]; intros s' H'.
  - inversion H' as [| l' t y _ E]; [reflexivity |]. destruct l'; discriminate E.
  - inversion H' as [E | l' t y Ht E]; [destruct l; discriminate E |].
    apply app_inj_tail in E as [-> ->]. rewrite (IH t Ht). reflexivity.
Qed.

(** C3, amended.  The check is a comparison of binary64 numbers: the
    submission is rejected exactly when the binary64 value of
    |totalSplit - expenseAmount|, with the splits summed in order in
    binary64, is greater than the double nearest to 0.01.  Otherwise it
    passes the check; it is then sent to the storage collaborator when the
    date text converts, and when the date text is not a date the handler
    throws before any request.  Split values typed as 50.00 and 49.99
    against an amount of 100.00, and a split of 0.01 against an amount of
    0.00, pass; a single split typed as 99.99 against 100.00 is rejected,
    though each of the three differs from its amount by 0.01.  An amount
    that does not parse ([NaN]) is not rejected by this check. *)
Theorem validation_compares_binary64_numbers
    (st : FormState) (be : Backend) (db : Tables.Database) :
  is_rejected (submit st be db)
  = (0.01 <? PrimFloat.abs (totalSplit st - expenseAmount parseFloat st))%float
  /\ is_submitted (submit st be db)
     = match toISOString (expenseDate st) with
       | Some _ =>
           negb (0.01 <? PrimFloat.abs (totalSplit st - expenseAmount parseFloat st))%float
       | None => false
       end
  /\ thrown (submit st be db)
     = match toISOString (expenseDate st) with
       | Some _ => false
       | None =>
           negb (0.01 <? PrimFloat.abs (totalSplit st - expenseAmount parseFloat st))%float
       end
  /\ left_sum (map snd (splits st)) (totalSplit st)
  /\ (typed_difference 10000 [("A", 5000); ("B", 4999)] = 1
      /\ split_mismatch parseDecimal (typed_form 10000 [("A", 5000); ("B", 4999)]) = false)
  /\ (typed_difference 0 [("A", 1)] = 1
      /\ split_mismatch parseDecimal (typed_form 0 [("A", 1)]) = false)
  /\ (typed_difference 10000 [("B", 9999)] = 1
      /\ split_mismatch parseDecimal (typed_form 10000 [("B", 9999)]) = true)
  /\ split_mismatch parseDecimal (blank_form "") = false.
Proof.
  fold (split_mismatch parseFloat st).
  assert (Hcases :
            is_rejected (submit st be db) = split_mismatch parseFloat st
            /\ is_submitted (submit st be db)
               = match toISOString (expenseDate st) with
                 | Some _ => negb (split_mismatch parseFloat st)
                 | None => false
                 end
            /\ thrown (submit st be db)
               = match toISOString (expenseDate st) with
                 | Some _ => false
                 | None => negb (split_mismatch parseFloat st)
                 end).
  { destruct (split_mismatch parseFloat st) eqn:E.
    - rewrite handleSubmit_mismatch by exact E.
      destruct (toISOString (expenseDate st)); repeat split; reflexivity.
    - destruct (toISOString (expenseDate st)) as [iso |] eqn:D.
      + pose proof (handleSubmit_after_check st be db iso E D) as Hs. cbv zeta in Hs.
        destruct (group_expenses_insert be); [destruct (expense_splits_insert be) |];
          rewrite Hs; repeat split; reflexivity.
      + rewrite handleSubmit_invalid_date by assumption. repeat split; reflexivity. }
  destruct Hcases as (H1 & H2 & H3).
  split; [exact H1 |]. split; [exact H2 |]. split; [exact H3 |].
  split; [apply totalSplit_left_sum |].
  repeat split; vm_compute; reflexivity.
Qed.

(** C8.  When the split check fails, the error is the mismatch of two
    numbers: the sum of the values of the splits, added one after the other
    from the left onto 0 in binary64, and the parsed amount, which are more
    than 0.01 apart; its text shows these two numbers; no request is sent,
    the storage is as it was, the modal stays open and [loading] is off. *)
Theorem mismatch_reports_both_numbers_and_writes_nothing
    (numberToString : float -> string)
    (st : FormState) (be : Backend) (db : Tables.Database) :
  split_mismatch parseFloat st = true ->
  exists sum total : float,
    error (form (submit st be db)) = SplitTotalMismatch sum total
    /\ left_sum (map snd (splits st)) sum
    /\ (forall s, left_sum (map snd (splits st)) s -> s = sum)
    /\ total = parseFloat (amount st)
    /\ (0.01 <? PrimFloat.abs (sum - total))%float = true
    /\ error_text numberToString (error (form (submit st be db)))
       = "Split total (" +:+ numberToString sum
         +:+ ") must equal expense amount (" +:+ numberToString total +:+ ")"
    /\ requests (submit st be db) = []
    /\ database (submit st be db) = db
    /\ closed (submit st be db) = false
    /\ thrown (submit st be db) = false
    /\ loading (form (submit st be db)) = false.
Proof.
  intros Hbad. rewrite handleSubmit_mismatch by exact Hbad.
  exists (totalSplit st), (parseFloat (amount st)).
  split; [reflexivity |].
  split; [apply totalSplit_left_sum |].
  split; [intros s Hs; exact (left_sum_unique _ _ _ Hs (totalSplit_left_sum st)) |].
  split; [reflexivity |].
  split; [exact Hbad |].
  repeat split; reflexivity.
Qed.


End ModalFacts.

(** C3, as stated, fails: with the amount typed as 100.00 and one split
    typed as 99.99 the two differ by exactly 0.01, and the submission is
    rejected ([99.99 - 100] is [-0.010000000000005116] in binary64). *)
Lemma exactly_one_hundredth_can_be_rejected :
  Modal.typed_difference 10000 [("B", 9999)] = 1
  /\ Modal.is_rejected
       (Modal.handleSubmit Modal.parseDecimal Modal.isoOfDate "g1" "A"
          (Modal.typed_form 10000 [("B", 9999)])
          {| Modal.group_expenses_insert := inl "e1"; Modal.expense_splits_insert := None |}
          Modal.empty_database) = true
  /\ Modal.error
       (Modal.form
          (Modal.handleSubmit Modal.parseDecimal Modal.isoOfDate "g1" "A"
             (Modal.typed_form 10000 [("B", 9999)])
             {| Modal.group_expenses_insert := inl "e1"; Modal.expense_splits_insert := None |}
             Modal.empty_database))
     = Modal.SplitTotalMismatch 99.99%float 100%float
  /\ (99.99 - 100)%float = (-0.010000000000005116)%float.
Proof. repeat split; vm_compute; reflexivity. Qed.


Lemma mismatch_reports_both_numbers_and_writes_nothing_witness :
  let st := Modal.typed_form 10000 [("A", 5000); ("B", 4900)] in
  let out :=
    Modal.handleSubmit Modal.parseDecimal Modal.isoOfDate "g1" "A" st
      {| Modal.group_expenses_insert := inl "e1"; Modal.expense_splits_insert := None |}
      Modal.empty_database in
  (exists sum total : float,
     Modal.error (Modal.form out) = Modal.SplitTotalMismatch sum total
     /\ Modal.left_sum (map snd (Modal.splits st)) sum
     /\ (forall s, Modal.left_sum (map snd (Modal.splits st)) s -> s = sum)
     /\ total = Modal.parseDecimal (Modal.amount st)
     /\ (0.01 <? PrimFloat.abs (sum - total))%float = true
     /\ Modal.error_text Modal.wholeToString (Modal.error (Modal.form out))
        = "Split total (" +:+ Modal.wholeToString sum
          +:+ ") must equal expense amount (" +:+ Modal.wholeToString total +:+ ")"
     /\ Modal.requests out = []
     /\ Modal.database out = Modal.empty_database
     /\ Modal.closed out = false
     /\ Modal.thrown out = false
     /\ Modal.loading (Modal.form out) = false)
  /\ map snd (Modal.splits st) = [50%float; 49%float]
  /\ Modal.error (Modal.form out) = Modal.SplitTotalMismatch 99%float 100%float
  /\ Modal.error_text Modal.wholeToString (Modal.error (Modal.form out))
     = "Split total (99) must equal expense amount (100)".
Proof.
  cbv zeta. split.
  - apply (mismatch_reports_both_numbers_and_writes_nothing
             Modal.parseDecimal Modal.isoOfDate "g1" "A" Modal.wholeToString
             (Modal.typed_form 10000 [("A", 5000); ("B", 4900)])).
    vm_compute. reflexivity.
  - repeat split; vm_compute; reflexivity.
Defined.


(* --------------------------------------------------------------------- *)
(** ** 11. The settlement link *)
(* --------------------------------------------------------------------- *)

Section LinkFacts.
Import GooglePay.

Lemma append_cons (c : ascii) (s t : string) : String c s +:+ t = String c (s +:+ t).
Proof. reflexivity. Qed.

Lemma append_nil (t : string) : "" +:+ t = t.
Proof. reflexivity. Qed.

Lemma append_assoc (a b c : string) : (a +:+ b) +:+ c = a +:+ (b +:+ c).
Proof.
  induction a as [| x a IH]; [reflexivity |].
  rewrite !append_cons. f_equal. exact IH.
Qed.

(** Unfolds [+:+] on the literal heads of the texts of the goal. *)
Ltac push_append := repeat first [rewrite append_cons | rewrite append_nil].
Ltac push_append_in E := repeat first [rewrite append_cons in E | rewrite append_nil in E].

(** *** The serializer *)

Lemma urldecode_step (c : ascii) (r : string) :
  urldecode (urlencode (String c r)) = String c (urldecode (urlencode r)).
Proof.
  cbn [urlencode].
  destruct c as [[] [] [] [] [] [] [] []]; reflexivity.
Qed.

Lemma urldecode_urlencode (s : string) : urldecode (urlencode s) = s.
Proof.
  induction s as [| c r IH]; [reflexivity |].
  rewrite urldecode_step, IH. reflexivity.
Qed.

Lemma urlencode_inj (s t : string) : urlencode s = urlencode t -> s = t.
Proof.
  intros E. rewrite <- (urldecode_urlencode s), <- (urldecode_urlencode t), E. reflexivity.
Qed.

Lemma urlencode_no_amp (s : string) : has_char "&"%char (urlencode s) = false.
Proof.
  induction s as [| c r IH]; [reflexivity |].
  cbn [urlencode].
  destruct c as [[] [] [] [] [] [] [] []]; cbn; exact IH.
Qed.

Lemma is_unreserved_not_space (c : ascii) :
  is_unreserved c = true -> Ascii.eqb c " "%char = false.
Proof. destruct c as [[] [] [] [] [] [] [] []]; vm_compute; intros; congruence. Qed.

Lemma urlencode_unreserved (s : string) : all_unreserved s = true -> urlencode s = s.
Proof.
  induction s as [| c r IH]; [reflexivity |].
  cbn [all_unreserved urlencode]. intros Hs. apply andb_prop in Hs as [Hc Hr].
  rewrite (is_unreserved_not_space c Hc), Hc, IH by exact Hr. reflexivity.
Qed.

(** Two texts cut at a separator that neither head contains are equal part
    by part. *)
Lemma append_separator_inj (c : ascii) (a a' r r' : string) :
  has_char c a = false -> has_char c a' = false ->
  a +:+ String c r = a' +:+ String c r' -> a = a' /\ r = r'.
Proof.
  revert a'. induction a as [| x a IH]; intros [| x' a'] Ha Ha' E;
    push_append_in E; cbn [has_char] in *.
  - injection E as E. now subst.
  - injection E as Ex E. subst x'. rewrite Ascii.eqb_refl in Ha'. discriminate.
  - injection E as Ex E. subst x. rewrite Ascii.eqb_refl in Ha. discriminate.
  - injection E as Ex E. subst x'.
    apply orb_false_iff in Ha as [_ Ha]. apply orb_false_iff in Ha' as [_ Ha'].
    destruct (IH a' Ha Ha' E) as [-> ->]. split; reflexivity.
Qed.

(** *** Decimal text *)

Lemma is_digit_unreserved (c : ascii) : is_digit c = true -> is_unreserved c = true.
Proof. destruct c as [[] [] [] [] [] [] [] []]; vm_compute; intros; congruence. Qed.

Lemma all_digits_unreserved (s : string) : all_digits s = true -> all_unreserved s = true.
Proof.
  induction s as [| c r IH]; [reflexivity |]. cbn. intros Hs.
  apply andb_prop in Hs as [Hc Hr]. rewrite (is_digit_unreserved c Hc), IH by exact Hr.
  reflexivity.
Qed.

Lemma all_unreserved_app (s t : string) :
  all_unreserved s = true -> all_unreserved t = true -> all_unreserved (s +:+ t) = true.
Proof.
  induction s as [| c r IH]; [auto |]. rewrite append_cons. cbn [all_unreserved]. intros Hs Ht.
  apply andb_prop in Hs as [Hc Hr]. rewrite Hc, IH by assumption. reflexivity.
Qed.

Lemma string_of_uint_digits (u : Decimal.uint) :
  all_digits (DecimalString.NilEmpty.string_of_uint u) = true.
Proof. induction u; cbn; auto. Qed.

Lemma decimal_digits_all_digits (n : Z) : all_digits (decimal_digits n) = true.
Proof.
  unfold decimal_digits, DecimalString.NilZero.string_of_uint.
  destruct (N.to_uint (Z.to_N n)) eqn:E; try reflexivity;
    rewrite <- E; apply string_of_uint_digits.
Qed.

Lemma decimal_digits_nonempty (n : Z) : decimal_digits n <> "".
Proof.
  unfold decimal_digits, DecimalString.NilZero.string_of_uint.
  destruct (N.to_uint (Z.to_N n)); cbn; discriminate.
Qed.

Lemma digit_char_is_digit (d : Z) : 0 <= d <= 9 -> is_digit (digit_char d) = true.
Proof.
  intros Hd.
  assert (E : d = 0 \/ d = 1 \/ d = 2 \/ d = 3 \/ d = 4 \/ d = 5 \/ d = 6 \/ d = 7
              \/ d = 8 \/ d = 9) by lia.
  repeat (destruct E as [-> | E]; [reflexivity |]). subst d. reflexivity.
Qed.

(** The text of [toFixed(2)] in fixed notation: digits, a point, two
    digits. *)
Lemma fixed2_shape (n : Z) :
  exists units d1 d2,
    fixed2 n = units +:+ String "."%char (String d1 (String d2 EmptyString))
    /\ units <> "" /\ all_digits units = true
    /\ is_digit d1 = true /\ is_digit d2 = true.
Proof.
  exists (decimal_digits (n / 100)), (digit_char ((n mod 100) / 10)), (digit_char (n mod 10)).
  split; [reflexivity |].
  split; [apply decimal_digits_nonempty |].
  split; [apply decimal_digits_all_digits |].
  split; apply digit_char_is_digit; Z.div_mod_to_equations; lia.
Qed.

Lemma fixed2_unreserved (n : Z) : all_unreserved (fixed2 n) = true.
Proof.
  destruct (fixed2_shape n) as (units & d1 & d2 & -> & _ & Hu & H1 & H2).
  apply all_unreserved_app; [apply all_digits_unreserved, Hu |].
  cbn. rewrite (is_digit_unreserved d1 H1), (is_digit_unreserved d2 H2). reflexivity.
Qed.

(** *** Amounts below [10^21]

    [positive_below_1e21], read off the mantissa and the exponent, is the
    binary64 comparison [0 < x && x < 1e21]. *)

Lemma valid_mantissa_bounds s m e :
  valid_binary (S754_finite s m e) = true ->
  Zpos m < 2 ^ 53 /\ (emin < e -> 2 ^ 52 <= Zpos m).
Proof.
  simpl. unfold bounded, canonical_mantissa. intros Hv.
  apply andb_prop in Hv as [Hc _]. apply Z.eqb_eq in Hc.
  unfold fexp in Hc. rewrite digits2_pos_bits in Hc.
  pose proof (bits_bounds m) as [Hlo Hhi].
  unfold SpecFloat.emin, emax, prec in *.
  split.
  - assert (Hb : Z.of_nat (bits m) <= 53) by lia.
    eapply Z.lt_le_trans; [exact Hhi |]. apply Z.pow_le_mono_r; lia.
  - intros He. assert (Hb : Z.of_nat (bits m) = 53) by lia.
    rewrite Hb in Hlo. exact Hlo.
Qed.


Lemma below_1e21_small_exponent (m : positive) (e : Z) :
  Zpos m < 2 ^ 53 -> e < 17 -> at_least_1e21 m e = false.
Proof.
  intros Hm He. unfold at_least_1e21.
  destruct (Z.leb_spec 0 e) as [H0 | H0]; apply Z.leb_gt.
  - apply Z.le_lt_trans with ((2 ^ 53 - 1) * 2 ^ 16); [| vm_compute; reflexivity].
    apply Z.mul_le_mono_nonneg; [lia | lia | apply Z.pow_nonneg; lia |].
    apply Z.pow_le_mono_r; lia.
  - apply Z.lt_le_trans with (2 ^ 53); [exact Hm |].
    apply Z.le_trans with (10 ^ 21 * 1); [vm_compute; discriminate |].
    apply Z.mul_le_mono_nonneg_l; [vm_compute; discriminate |].
    change 1 with (2 ^ 0). apply Z.pow_le_mono_r; lia.
Qed.

Lemma at_least_1e21_large_exponent (m : positive) (e : Z) :
  2 ^ 52 <= Zpos m -> 17 < e -> at_least_1e21 m e = true.
Proof.
  intros Hm He. unfold at_least_1e21.
  destruct (Z.leb_spec 0 e) as [H0 | H0]; [| lia].
  apply Z.leb_le.
  apply Z.le_trans with (2 ^ 52 * 2 ^ 18); [vm_compute; discriminate |].
  apply Z.mul_le_mono_nonneg; [vm_compute; discriminate | exact Hm | vm_compute; discriminate |].
  apply Z.pow_le_mono_r; lia.
Qed.

Lemma at_least_1e21_exponent_17 (m : positive) :
  at_least_1e21 m 17 = (7629394531250000 <=? Zpos m).
Proof.
  unfold at_least_1e21. change (0 <=? 17) with true. cbv iota.
  replace (10 ^ 21) with (7629394531250000 * 2 ^ 17) by (vm_compute; reflexivity).
  destruct (Z.leb_spec 7629394531250000 (Zpos m)) as [H | H];
    [apply Z.leb_le | apply Z.leb_gt].
  - apply Z.mul_le_mono_nonneg_r; [vm_compute; discriminate | exact H].
  - apply Z.mul_lt_mono_pos_r; [vm_compute; reflexivity | exact H].
Qed.

Lemma positive_below_1e21_spec (x : float) :
  positive_below_1e21 x = ((0 <? x) && (x <? 1e21))%float.
Proof.
  rewrite !ltb_spec. unfold positive_below_1e21.
  change (Prim2SF 0) with (S754_zero false).
  change (Prim2SF 1e21) with (S754_finite false 7629394531250000 17).
  pose proof (Prim2SF_valid x) as Hv.
  destruct (Prim2SF x) as [s | [|] | | [|] m e]; try reflexivity.
  apply valid_mantissa_bounds in Hv as [Hhi Hlo].
  unfold SFltb, SFcompare. cbn [andb].
  destruct (Z.compare_spec e 17) as [-> | He | He].
  - rewrite at_least_1e21_exponent_17, Pos.compare_cont_spec. cbn [Pos.switch_Eq].
    destruct (Pos.compare_spec m 7629394531250000) as [E | E | E].
    + apply negb_false_iff, Z.leb_le. rewrite E. apply Z.le_refl.
    + apply negb_true_iff, Z.leb_gt. exact E.
    + apply negb_false_iff, Z.leb_le, Z.lt_le_incl. exact E.
  - rewrite below_1e21_small_exponent by assumption. reflexivity.
  - rewrite at_least_1e21_large_exponent; [reflexivity | | exact He].
    apply Hlo. unfold SpecFloat.emin, emax, prec. lia.
Qed.

Variable numberToString : float -> string.

Lemma toFixed2_in_range (x : float) :
  positive_below_1e21 x = true ->
  exists m e, Prim2SF x = S754_finite false m e
              /\ toFixed2 numberToString x = fixed2 (round_hundredths m e).
Proof.
  unfold positive_below_1e21, toFixed2.
  destruct (Prim2SF x) as [| | | [|] m e]; try discriminate.
  intros Hr. apply negb_true_iff in Hr. rewrite Hr. eauto.
Qed.

(** The link, written out. *)
Lemma generateGooglePayUrl_text (p : GooglePayParams) :
  generateGooglePayUrl numberToString p
  = "upi://pay?pa=" +:+ urlencode (upiId p)
    +:+ "&pn=" +:+ urlencode (name p)
    +:+ "&am=" +:+ urlencode (toFixed2 numberToString (amount p))
    +:+ "&cu=INR&tn=" +:+ urlencode (note p).
Proof.
  unfold generateGooglePayUrl, serialize, pair_text. cbn [map join_amp fst snd].
  change (urlencode "pa") with "pa". change (urlencode "pn") with "pn".
  change (urlencode "am") with "am". change (urlencode "cu") with "cu".
  change (urlencode "tn") with "tn". change (urlencode "INR") with "INR".
  rewrite !append_assoc. push_append. reflexivity.
Qed.

Lemma round_hundredths_nearest (m : positive) (e : Z) :
  0 <= round_hundredths m e
  /\ (0 <= e -> round_hundredths m e = 100 * Zpos m * 2 ^ e)
  /\ (e < 0 ->
      - 2 ^ (- e) < 2 ^ (- e + 1) * round_hundredths m e - 200 * Zpos m <= 2 ^ (- e)).
Proof.
  unfold round_hundredths. destruct (Z.leb_spec 0 e) as [He | He].
  - split; [| split; [reflexivity | lia]].
    assert (0 < 2 ^ e) by (apply Z.pow_pos_nonneg; lia). nia.
  - assert (Hk : 0 < 2 ^ (- e)) by (apply Z.pow_pos_nonneg; lia).
    assert (Hk1 : 2 ^ (- e + 1) = 2 * 2 ^ (- e)) by (rewrite Z.pow_add_r by lia; lia).
    rewrite Hk1. generalize dependent (2 ^ (- e)). intros k Hk _.
    pose proof (Z.div_mod (200 * Zpos m + k) (2 * k) ltac:(lia)) as Hd.
    pose proof (Z.mod_pos_bound (200 * Zpos m + k) (2 * k) ltac:(lia)) as Hm.
    assert (0 <= (200 * Zpos m + k) / (2 * k)) by (apply Z.div_pos; lia).
    split; [assumption |]. split; [lia |]. intros _. lia.
Qed.

(** *** The parser of the query *)

Lemma has_char_app (c : ascii) (a b : string) :
  has_char c (a +:+ b) = has_char c a || has_char c b.
Proof.
  induction a as [| x a IH]; [reflexivity |].
  rewrite append_cons. cbn [has_char]. rewrite IH, orb_assoc. reflexivity.
Qed.

Lemma urlencode_no_eq (s : string) : has_char "="%char (urlencode s) = false.
Proof.
  induction s as [| c r IH]; [reflexivity |].
  cbn [urlencode].
  destruct c as [[] [] [] [] [] [] [] []]; cbn; exact IH.
Qed.

Lemma split_on_last (c : ascii) (a : string) : has_char c a = false -> split_on c a = [a].
Proof.
  induction a as [| x a IH]; [reflexivity |].
  cbn [has_char split_on]. intros H. apply orb_false_elim in H as [Hx Ha].
  rewrite Hx, (IH Ha). reflexivity.
Qed.

Lemma split_on_cons (c : ascii) (a r : string) :
  has_char c a = false -> split_on c (a +:+ String c r) = a :: split_on c r.
Proof.
  induction a as [| x a IH].
  - intros _. rewrite append_nil. cbn [split_on]. rewrite Ascii.eqb_refl. reflexivity.
  - cbn [has_char]. intros H. apply orb_false_elim in H as [Hx Ha].
    rewrite append_cons. cbn [split_on]. rewrite Hx, (IH Ha). reflexivity.
Qed.

Lemma split_pair_app (n v : string) :
  has_char "="%char n = false -> split_pair (n +:+ String "="%char v) = (n, v).
Proof.
  induction n as [| x n IH].
  - intros _. reflexivity.
  - cbn [has_char]. intros H. apply orb_false_elim in H as [Hx Hn].
    rewrite append_cons. cbn [split_pair]. rewrite Hx, (IH Hn). reflexivity.
Qed.

Lemma pair_text_no_amp (kv : string * string) : has_char "&"%char (pair_text kv) = false.
Proof.
  unfold pair_text. rewrite !has_char_app, !urlencode_no_amp. reflexivity.
Qed.

Lemma pair_text_nonempty (kv : string * string) : pair_text kv <> "".
Proof.
  unfold pair_text. intros E. apply (f_equal (has_char "="%char)) in E.
  rewrite !has_char_app in E. cbn in E. rewrite orb_true_r in E. discriminate.
Qed.

Lemma parse_pair_text (kv : string * string) :
  (urldecode (fst (split_pair (pair_text kv))), urldecode (snd (split_pair (pair_text kv))))
  = kv.
Proof.
  unfold pair_text. change ("=" +:+ urlencode (snd kv)) with (String "="%char (urlencode (snd kv))).
  rewrite split_pair_app by apply urlencode_no_eq.
  cbn [fst snd]. rewrite !urldecode_urlencode. destruct kv; reflexivity.
Qed.

(** Parsing undoes serializing: the fields stay apart, whatever they hold. *)
Lemma parse_query_serialize (l : list (string * string)) : parse_query (serialize l) = l.
Proof.
  unfold parse_query, serialize.
  induction l as [| kv l IH]; [reflexivity |].
  destruct l as [| kv' l].
  - cbn [map join_amp]. rewrite split_on_last by apply pair_text_no_amp.
    rewrite filter_cons, decide_True by apply pair_text_nonempty.
    rewrite filter_nil. cbn [map]. rewrite parse_pair_text. reflexivity.
  - change (join_amp (map pair_text (kv :: kv' :: l)))
      with (pair_text kv +:+ String "&"%char (join_amp (map pair_text (kv' :: l)))).
    rewrite split_on_cons by apply pair_text_no_amp.
    rewrite filter_cons, decide_True by apply pair_text_nonempty.
    rewrite map_cons, parse_pair_text. f_equal. exact IH.
Qed.

(** *** The text of the amount, read back *)

Lemma to_uint_nonnil (n : N) : N.to_uint n <> Decimal.Nil.
Proof. destruct n as [| p]; [discriminate | apply DecimalPos.Unsigned.to_uint_nonnil]. Qed.

Lemma text_hundredths_fixed2 (n : Z) :
  0 <= n ->
  text_hundredths (decimal_digits (n / 100)) (digit_char ((n mod 100) / 10))
    (digit_char (n mod 10)) = Some n.
Proof.
  intros Hn. unfold text_hundredths, decimal_digits, digit_char.
  rewrite (DecimalString.NilZero.usu _ (to_uint_nonnil _)).
  rewrite DecimalN.Unsigned.of_to.
  rewrite !N_ascii_embedding by (Z.div_mod_to_equations; lia).
  f_equal. Z.div_mod_to_equations. lia.
Qed.

(** The whole part is written without leading zeros. *)
Lemma decimal_digits_canonical (n : Z) :
  decimal_digits n = "0"
  \/ exists c r, decimal_digits n = String c r /\ c <> "0"%char.
Proof.
  unfold decimal_digits.
  set (d := N.to_uint (Z.to_N n)).
  assert (Hd : Decimal.unorm d = d).
  { unfold d. rewrite <- (DecimalN.Unsigned.of_to (Z.to_N n)) at 2.
    rewrite DecimalN.Unsigned.to_of. reflexivity. }
  assert (Hnn : d <> Decimal.Nil) by apply to_uint_nonnil.
  clearbody d.
  destruct d as [| d | d | d | d | d | d | d | d | d | d];
    try congruence;
    try (right; eexists _, _; split; [reflexivity | discriminate]).
  left. destruct (Decimal.uint_eq_dec d Decimal.Nil) as [-> | Hd'].
  - reflexivity.
  - exfalso. rewrite DecimalFacts.unorm_D0 in Hd.
    pose proof (DecimalFacts.nb_digits_unorm d Hd') as Hle.
    rewrite Hd in Hle. cbn [Decimal.nb_digits] in Hle.
    clear -Hle. apply (Nat.nle_succ_diag_l _ Hle).
Qed.

(** C5.  For a payee, a name, a note and an amount [m * 2^e] strictly
    between 0 and 10^21, [generateGooglePayUrl] returns (it is a function:
    it always returns, and only its arguments matter) the text [upi://pay?]
    followed by the query parameters [pa], [pn], [am], [cu], [tn] in this
    order.  The amount is written as a whole part without leading zeros, a
    point and exactly two digits, and this text denotes [n] hundredths,
    where [n / 100] is the multiple of one hundredth nearest to the amount
    (the larger one of two).  The payee, the name and the note are written
    in form-urlencoded form and the currency code is [INR]; the fields stay
    apart: cutting the query at each [&] and at the first [=] of each part
    and decoding gives back the five parameters with the payee, the name
    and the note as they were passed. *)
Theorem generateGooglePayUrl_format (p : GooglePayParams) :
  (0 <? amount p)%float = true ->
  (amount p <? 1e21)%float = true ->
  exists m e n units d1 d2 query,
    Prim2SF (amount p) = S754_finite false m e
    /\ 0 <= n
    /\ (0 <= e -> n = 100 * Zpos m * 2 ^ e)
    /\ (e < 0 -> - 2 ^ (- e) < 2 ^ (- e + 1) * n - 200 * Zpos m <= 2 ^ (- e))
    /\ toFixed2 numberToString (amount p)
       = units +:+ String "."%char (String d1 (String d2 EmptyString))
    /\ all_digits units = true /\ is_digit d1 = true /\ is_digit d2 = true
    /\ (units = "0" \/ exists c r, units = String c r /\ c <> "0"%char)
    /\ text_hundredths units d1 d2 = Some n
    /\ generateGooglePayUrl numberToString p = "upi://pay?" +:+ query
    /\ query
       = "pa=" +:+ urlencode (upiId p)
         +:+ "&pn=" +:+ urlencode (name p)
         +:+ "&am=" +:+ units +:+ String "."%char (String d1 (String d2 EmptyString))
         +:+ "&cu=INR&tn=" +:+ urlencode (note p)
    /\ parse_query query
       = [ ("pa", upiId p); ("pn", name p);
           ("am", units +:+ String "."%char (String d1 (String d2 EmptyString)));
           ("cu", "INR"); ("tn", note p) ]
    /\ urldecode (urlencode (upiId p)) = upiId p
    /\ urldecode (urlencode (name p)) = name p
    /\ urldecode (urlencode (note p)) = note p.
Proof.
  intros Hpos Hbig.
  assert (Hr : positive_below_1e21 (amount p) = true)
    by (rewrite positive_below_1e21_spec, Hpos, Hbig; reflexivity).
  destruct (toFixed2_in_range (amount p) Hr) as (m & e & Hm & Hfix).
  destruct (round_hundredths_nearest m e) as (Hn & Hexact & Hnear).
  set (n := round_hundredths m e) in *.
  exists m, e, n, (decimal_digits (n / 100)), (digit_char ((n mod 100) / 10)),
    (digit_char (n mod 10)),
    (serialize [ ("pa", upiId p); ("pn", name p); ("am", toFixed2 numberToString (amount p));
                 ("cu", "INR"); ("tn", note p) ]).
  split; [exact Hm |]. split; [exact Hn |]. split; [exact Hexact |].
  split; [exact Hnear |]. split; [exact Hfix |].
  split; [apply decimal_digits_all_digits |].
  split; [apply digit_char_is_digit; Z.div_mod_to_equations; lia |].
  split; [apply digit_char_is_digit; Z.div_mod_to_equations; lia |].
  split; [apply decimal_digits_canonical |].
  split; [apply text_hundredths_fixed2; exact Hn |].
  split; [reflexivity |].
  split.
  { unfold serialize, pair_text. cbn [map join_amp fst snd].
    change (urlencode "pa") with "pa". change (urlencode "pn") with "pn".
    change (urlencode "am") with "am". change (urlencode "cu") with "cu".
    change (urlencode "tn") with "tn". change (urlencode "INR") with "INR".
    rewrite Hfix, (urlencode_unreserved _ (fixed2_unreserved _)).
    unfold fixed2. rewrite !append_assoc. push_append. reflexivity. }
  split.
  { rewrite parse_query_serialize, Hfix. reflexivity. }
  auto using urldecode_urlencode.
Qed.
(** C9, amended.  The link is a function of its arguments, and two links
    are equal exactly when the payee, the name and the note are equal and
    the two amounts have the same [toFixed(2)] text: the link tells amounts
    apart only up to their rounding to two decimals. *)
Theorem generateGooglePayUrl_injective_up_to_rounding (p q : GooglePayParams) :
  generateGooglePayUrl numberToString p = generateGooglePayUrl numberToString q
  <-> upiId p = upiId q /\ name p = name q /\ note p = note q
      /\ toFixed2 numberToString (amount p) = toFixed2 numberToString (amount q).
Proof.
  rewrite !generateGooglePayUrl_text. split.
  - intros E.
    push_append_in E. injection E as E.
    apply append_separator_inj in E as [E1 E]; try apply urlencode_no_amp.
    push_append_in E. injection E as E.
    apply append_separator_inj in E as [E2 E]; try apply urlencode_no_amp.
    push_append_in E. injection E as E.
    apply append_separator_inj in E as [E3 E]; try apply urlencode_no_amp.
    push_append_in E. injection E as E.
    apply urlencode_inj in E1, E2, E3, E. auto.
  - intros (-> & -> & -> & ->). reflexivity.
Qed.

End LinkFacts.

Example pay_ann_link (numberToString : float -> string) :
  GooglePay.generateGooglePayUrl numberToString pay_ann
  = "upi://pay?pa=ann%40okaxis&pn=Ann+Lee&am=49.99&cu=INR&tn=Dinner+%26+drinks".
Proof. vm_compute. reflexivity. Qed.

Lemma generateGooglePayUrl_format_witness :
  (exists m e n units d1 d2 query,
    Prim2SF (GooglePay.amount pay_ann) = S754_finite false m e
    /\ 0 <= n
    /\ (0 <= e -> n = 100 * Zpos m * 2 ^ e)
    /\ (e < 0 -> - 2 ^ (- e) < 2 ^ (- e + 1) * n - 200 * Zpos m <= 2 ^ (- e))
    /\ GooglePay.toFixed2 (fun _ => "") (GooglePay.amount pay_ann)
       = units +:+ String "."%char (String d1 (String d2 EmptyString))
    /\ all_digits units = true /\ is_digit d1 = true /\ is_digit d2 = true
    /\ (units = "0" \/ exists c r, units = String c r /\ c <> "0"%char)
    /\ text_hundredths units d1 d2 = Some n
    /\ GooglePay.generateGooglePayUrl (fun _ => "") pay_ann = "upi://pay?" +:+ query
    /\ query
       = "pa=" +:+ GooglePay.urlencode (GooglePay.upiId pay_ann)
         +:+ "&pn=" +:+ GooglePay.urlencode (GooglePay.name pay_ann)
         +:+ "&am=" +:+ units +:+ String "."%char (String d1 (String d2 EmptyString))
         +:+ "&cu=INR&tn=" +:+ GooglePay.urlencode (GooglePay.note pay_ann)
    /\ GooglePay.parse_query query
       = [ ("pa", GooglePay.upiId pay_ann); ("pn", GooglePay.name pay_ann);
           ("am", units +:+ String "."%char (String d1 (String d2 EmptyString)));
           ("cu", "INR"); ("tn", GooglePay.note pay_ann) ]
    /\ GooglePay.urldecode (GooglePay.urlencode (GooglePay.upiId pay_ann))
       = GooglePay.upiId pay_ann
    /\ GooglePay.urldecode (GooglePay.urlencode (GooglePay.name pay_ann))
       = GooglePay.name pay_ann
    /\ GooglePay.urldecode (GooglePay.urlencode (GooglePay.note pay_ann))
       = GooglePay.note pay_ann)
  /\ GooglePay.toFixed2 (fun _ => "") (GooglePay.amount pay_ann) = "49.99"
  /\ text_hundredths "49" "9" "9" = Some 4999
  /\ GooglePay.parse_query
       "pa=ann%40okaxis&pn=Ann+Lee&am=49.99&cu=INR&tn=Dinner+%26+drinks"
     = [ ("pa", "ann@okaxis"); ("pn", "Ann Lee"); ("am", "49.99"); ("cu", "INR");
         ("tn", "Dinner & drinks") ].
Proof.
  split.
  - apply (generateGooglePayUrl_format (fun _ => "") pay_ann); vm_compute; reflexivity.
  - split; [vm_compute; reflexivity |].
    split; vm_compute; reflexivity.
Defined.

(** C9, as stated, fails: the amounts 0.3 and 0.1 + 0.2 are different
    numbers, and with the same payee, name and note they give the same
    link. *)
Lemma different_amounts_same_link :
  (0.3 =? 0.1 + 0.2)%float = false
  /\ (0.1 + 0.2)%float = 0.30000000000000004%float
  /\ forall numberToString : float -> string,
       GooglePay.generateGooglePayUrl numberToString
         {| GooglePay.upiId := "ann@okaxis"; GooglePay.amount := 0.3%float;
            GooglePay.name := "Ann Lee"; GooglePay.note := "Dinner" |}
       = GooglePay.generateGooglePayUrl numberToString
           {| GooglePay.upiId := "ann@okaxis"; GooglePay.amount := (0.1 + 0.2)%float;
              GooglePay.name := "Ann Lee"; GooglePay.note := "Dinner" |}.
Proof. repeat split; intros; vm_compute; reflexivity. Qed.

(* ===================================================================== *)
(** * Part III.  More of the code *)
(* ===================================================================== *)

(* --------------------------------------------------------------------- *)
(** ** 12. Objects and Maps read in insertion order *)
(* --------------------------------------------------------------------- *)

(** A JavaScript object with string keys (none of them an array index), or
    a [Map], whose entries are later listed: the entries in insertion
    order.  [assoc_set] is [o[k] = v] / [map.set(k, v)]: an existing key
    keeps its place.  [assoc_get] is [o[k]] / [map.get(k)]. *)
Fixpoint assoc_set {V : Type} (o : list (string * V)) (k : string) (v : V)
    : list (string * V) :=
  match o with
  | [] => [(k, v)]
  | (k', v') :: r => if decide (k' = k) then (k, v) :: r else (k', v') :: assoc_set r k v
  end.

Fixpoint assoc_get {V : Type} (o : list (string * V)) (k : string) : option V :=
  match o with
  | [] => None
  | (k', v') :: r => if decide (k' = k) then Some v' else assoc_get r k
  end.

(** The keys in the order of their first occurrence. *)
Fixpoint first_occurrences (l : list string) : list string :=
  match l with
  | [] => []
  | k :: r => k :: filter (fun k' => k' <> k) (first_occurrences r)
  end.

(* --------------------------------------------------------------------- *)
(** ** 13. The rest of [AddGroupExpenseModal] *)
(* --------------------------------------------------------------------- *)

Module SplitForm.
Import Groups Modal.

Section Effects.
Variable parseFloat : string -> float.
(** The prop [members]. *)
Variable members : list GroupMember.




End Effects.

(** [splits[member.user_id] || 0], the value shown in a member's input. *)
Definition shown_split (st : FormState) (uid : string) : float :=
  match assoc_get (splits st) uid with
  | Some v => if float_truthy v then v else 0%float
  | None => 0%float
  end.

End SplitForm.

(* --------------------------------------------------------------------- *)
(** ** 14. Adding a personal expense ([AddExpense], its [handleSubmit]) *)
(* --------------------------------------------------------------------- *)

Module AddExpense.

(** The object literal given to [supabase.from('expenses').insert]. *)
Record ExpenseInsert := {
  user_id : string;
  title : string;
  amount : float;
  category_id : string;
  payment_method : string;
  expense_date : string;
  notes : option string;
}.

(** The state variables of the page; [error] is the message shown, empty
    for none. *)
Record FormState := {
  f_title : string;
  f_amount : string;
  categoryId : string;
  paymentMethod : string;
  expenseDate : string;
  f_notes : string;
  loading : bool;
  success : bool;
  error : string;
}.

(** What one run of [handleSubmit] leaves behind: the state, the stored
    [expenses] rows, the rows it asked to insert, whether the timer that
    takes the success banner away again was started, and whether the run
    ended in an exception instead of returning (the [RangeError] of
    [toISOString] on an invalid date). *)
Record Outcome := {
  form : FormState;
  expenses : list ExpenseInsert;
  requests : list ExpenseInsert;
  banner_timer : bool;
  thrown : bool;
}.

(** [setError(''); setLoading(true); setSuccess(false)] on the state. *)
Definition starting (st : FormState) : FormState :=
  {| f_title := f_title st; f_amount := f_amount st;
     categoryId := categoryId st; paymentMethod := paymentMethod st;
     expenseDate := expenseDate st; f_notes := f_notes st;
     loading := true; success := false; error := "" |}.

Section Page.
Variable parseFloat : string -> float.
(** [new Date(s).toISOString()]: [None] when the text is not a date and
    [toISOString] throws a [RangeError]. *)
Variable toISOString : string -> option string.
(** [new Date().toISOString().split('T')[0]] at the time of the reset. *)
Variable today : string.

(** The object literal given to the insert, once its date has been
    converted to [iso]. *)
Definition expense_row (uid : string) (st : FormState) (iso : string) : ExpenseInsert :=
  {| user_id := uid;
     title := f_title st;
     amount := parseFloat (f_amount st);
     category_id := categoryId st;
     payment_method := paymentMethod st;
     expense_date := iso;
     notes := if decide (f_notes st = "") then None else Some (f_notes st) |}.

(** [handleSubmit] for the signed-in [user] ([None] when there is none),
    against the answer [reply] of the insert (an error message or none) on
    the stored rows [db].  The argument of the insert is built before the
    insert is called: when the date text is not a date, [toISOString]
    throws there, before any request and before [setLoading(false)]. *)
Definition handleSubmit (user : option string) (st : FormState)
    (reply : option string) (db : list ExpenseInsert) : Outcome :=
  match user with
  | None =>
      (* if (!user) return *)
      {| form := starting st; expenses := db; requests := []; banner_timer := false;
         thrown := false |}
  | Some uid =>
      match toISOString (expenseDate st) with
      | None =>
          {| form := starting st; expenses := db; requests := []; banner_timer := false;
             thrown := true |}
      | Some iso =>
          let row := expense_row uid st iso in
          match reply with
          | Some message =>
              {| form := {| f_title := f_title st; f_amount := f_amount st;
                            categoryId := categoryId st; paymentMethod := paymentMethod st;
                            expenseDate := expenseDate st; f_notes := f_notes st;
                            loading := false; success := false; error := message |};
                 expenses := db; requests := [row]; banner_timer := false;
                 thrown := false |}
          | None =>
              {| form := {| f_title := ""; f_amount := "";
                            categoryId := categoryId st; paymentMethod := paymentMethod st;
                            expenseDate := today; f_notes := "";
                            loading := false; success := true; error := "" |};
                 expenses := db ++ [row]; requests := [row]; banner_timer := true;
                 thrown := false |}
          end
      end
  end.

End Page.

End AddExpense.

(* --------------------------------------------------------------------- *)
(** ** 15. The rest of the Groups page *)
(* --------------------------------------------------------------------- *)

Module GroupsPage.
Import Groups.

(** *** [loadGroups]: the figures of a group card *)

Section Figures.
Context {num : Type} `{JsNumber num}.

(** [expenses?.reduce((sum, e) => sum + Number(e.amount), 0) || 0] on the
    amounts of the group's expenses ([None] for [null]). *)
Definition totalExpenses (amounts : option (list num)) : num :=
  match amounts with
  | Some l => let t := n_sum l in if n_truthy t then t else n_zero
  | None => n_zero
  end.

End Figures.

(** [memberCount || 0]. *)
Definition member_count (count : option nat) : nat :=
  match count with Some n => n | None => 0%nat end.

(** *** The balance banner and the balance rows *)

Inductive Standing := Owed | Owes | SettledUp.

(** [balance > 0 ? ... : balance < 0 ? ... : ...]. *)
Definition standing (b : float) : Standing :=
  if (0 <? b)%float then Owed
  else if (b <? 0)%float then Owes
  else SettledUp.

Definition standing_text (s : Standing) : string :=
  match s with
  | Owed => "You are owed"
  | Owes => "You owe"
  | SettledUp => "All settled up"
  end.

(** [balance.balance < 0 && balance.user_id === user!.id]: the row shows
    the settle button. *)
Definition settle_button_shown (userId : string) (b : Balance float) : bool :=
  (balance b <? 0)%float && bool_decide (bal_user_id b = userId).

(** [balances.find(b => b.balance > 0)], for either arithmetic
    ([positive] is [x > 0]). *)
Definition find_creditor {num : Type} (positive : num -> bool)
    (balances : list (Balance num)) : option (Balance num) :=
  List.find (fun c => positive (balance c)) balances.

Record Group := {
  group_id : string;
  group_name : string;
}.

(** [groups.find((g) => g.id === selectedGroup)]. *)
Definition currentGroup (groups : list Group) (selectedGroup : string) : option Group :=
  List.find (fun g => bool_decide (group_id g = selectedGroup)) groups.

(** [`Splitzee settlement for ${currentGroup?.name}`]. *)
Definition settlement_note (g : option Group) : string :=
  "Splitzee settlement for "
  +:+ match g with Some g => group_name g | None => "undefined" end.

Section Settle.
Variable numberToString : float -> string.

(** The click handler of the settle button of row [b]: the new
    [window.location.href] that [openGooglePay] sets, [None] when nothing
    is opened. *)
Definition settle_click (balances : list (Balance float)) (b : Balance float)
    (g : option Group) : option string :=
  match find_creditor (fun x => (0 <? x)%float) balances with
  | Some creditor =>
      Some (GooglePay.generateGooglePayUrl numberToString
              {| GooglePay.upiId := "merchant@upi";
                 GooglePay.amount := PrimFloat.abs (balance b);
                 GooglePay.name := user_name creditor;
                 GooglePay.note := settlement_note g |})
  | None => None
  end.

End Settle.

(** *** [createGroup] *)

Inductive GroupType := trip | event | home | office | other.

Record GroupInsert := {
  name : string;
  description : option string;
  type : GroupType;
  created_by : string;
}.

Record MemberInsert := {
  m_group_id : string;
  m_user_id : string;
  added_by : string;
}.

Record Database := {
  groups : list (string * GroupInsert);
  group_members : list MemberInsert;
}.

(** The answers of the storage collaborator to the two inserts: the id of
    the new group or an error message, and for the membership an error
    message or none. *)
Record Backend := {
  groups_insert : string + string;
  group_members_insert : option string;
}.

Inductive Request :=
  | InsertGroup (row : GroupInsert)
  | InsertMember (row : MemberInsert).

(** The state variables of the create-group dialog. *)
Record Dialog := {
  showCreateModal : bool;
  newGroupName : string;
  newGroupDescription : string;
  newGroupType : GroupType;
}.

Record Outcome := {
  dialog : Dialog;
  database : Database;
  requests : list Request;
  reloaded : bool;
}.

(** *** White space

    Text is held as its UTF-8 bytes.  [String.prototype.trim] removes the
    white space and the line terminators of the language: tab, line feed,
    vertical tab, form feed, carriage return, space, no-break space
    (U+00A0), U+1680, U+2000 to U+200A, the line and paragraph separators
    (U+2028, U+2029), U+202F, U+205F, U+3000 and the byte order mark
    (U+FEFF). *)
Definition white_space_code_points : list N :=
  [9; 10; 11; 12; 13; 32; 160; 5760;
   8192; 8193; 8194; 8195; 8196; 8197; 8198; 8199; 8200; 8201; 8202;
   8232; 8233; 8239; 8287; 12288; 65279]%N.

(** The UTF-8 bytes of a code point below [2^16]. *)
Definition utf8 (c : N) : string :=
  (if c <? 128 then String (ascii_of_N c) EmptyString
   else if c <? 2048 then
     String (ascii_of_N (192 + c / 64)) (String (ascii_of_N (128 + c mod 64)) EmptyString)
   else
     String (ascii_of_N (224 + c / 4096))
       (String (ascii_of_N (128 + (c / 64) mod 64))
          (String (ascii_of_N (128 + c mod 64)) EmptyString)))%N.


(** Whether the bytes [t] are one white space code point. *)
Definition is_white_space (t : string) : bool :=
  existsb (fun c => String.eqb (utf8 c) t) white_space_code_points.

(** [!s.trim()]: nothing but white space. *)
Fixpoint is_blank (s : string) : bool :=
  match s with
  | EmptyString => true
  | String a r =>
      if is_white_space (String a EmptyString) then is_blank r
      else
        match r with
        | EmptyString => false
        | String b r2 =>
            if is_white_space (String a (String b EmptyString)) then is_blank r2
            else
              match r2 with
              | EmptyString => false
              | String c r3 =>
                  is_white_space (String a (String b (String c EmptyString)))
                  && is_blank r3
              end
        end
  end.

(** [createGroup] for the signed-in user [userId]. *)
Definition createGroup (userId : string) (d : Dialog) (be : Backend) (db : Database)
    : Outcome :=
  if is_blank (newGroupName d) then
    {| dialog := d; database := db; requests := []; reloaded := false |}
  else
    let row := {| name := newGroupName d;
                  description := if decide (newGroupDescription d = "") then None
                                 else Some (newGroupDescription d);
                  type := newGroupType d;
                  created_by := userId |} in
    match groups_insert be with
    | inr _ =>
        {| dialog := d; database := db; requests := [InsertGroup row]; reloaded := false |}
    | inl gid =>
        let member := {| m_group_id := gid; m_user_id := userId; added_by := userId |} in
        let db1 := {| groups := groups db ++ [(gid, row)];
                      group_members := group_members db |} in
        {| dialog := {| showCreateModal := false; newGroupName := "";
                        newGroupDescription := ""; newGroupType := other |};
           database := match group_members_insert be with
                       | None => {| groups := groups db1;
                                    group_members := group_members db1 ++ [member] |}
                       | Some _ => db1
                       end;
           requests := [InsertGroup row; InsertMember member];
           reloaded := true |}
    end.

(** [loadGroups] lists the groups the user has a [group_members] row
    for. *)
Definition visible_groups (userId : string) (db : Database) : list string :=
  map fst
    (filter (fun g => bool_decide (Exists (fun m => m_group_id m = fst g /\ m_user_id m = userId)
                                     (group_members db)))
       (groups db)).

End GroupsPage.

(* --------------------------------------------------------------------- *)
(** ** 16. The Analytics page ([loadAnalytics]) *)
(* --------------------------------------------------------------------- *)

Module Analytics.

(** A row of [expenses] as selected: [amount, expense_date,
    expense_categories (name, color)]. *)
Record ExpenseRow (num : Type) := {
  amount : num;
  expense_date : string;
  category_name : string;
  category_color : string;
}.
Arguments amount {num} _.
Arguments expense_date {num} _.
Arguments category_name {num} _.
Arguments category_color {num} _.

Section Charts.
Context {num : Type} `{JsNumber num}.
(** The key of a date: [toLocaleDateString] with the day or the month. *)
Variable monthKey : string -> string.

(** The body of the first [expenses.forEach]: [categoryMap.get(name) ||
    { value: 0, color }] is the entry itself when there is one (an object
    is never falsy). *)
Definition add_to_category (cm : list (string * (num * string))) (e : ExpenseRow num)
    : list (string * (num * string)) :=
  let current :=
    match assoc_get cm (category_name e) with
    | Some c => c
    | None => (n_zero, category_color e)
    end in
  assoc_set cm (category_name e) (n_add (fst current) (amount e), snd current).

(** [Array.from(categoryMap.entries())], as [(name, (value, color))]. *)
Definition categoryData (expenses : list (ExpenseRow num))
    : list (string * (num * string)) :=
  fold_left add_to_category expenses [].

(** [monthMap.get(k) || 0]. *)
Definition month_or0 (mm : list (string * num)) (k : string) : num :=
  match assoc_get mm k with
  | Some x => if n_truthy x then x else n_zero
  | None => n_zero
  end.

(** The body of the second [expenses.forEach]. *)
Definition add_to_month (mm : list (string * num)) (e : ExpenseRow num)
    : list (string * num) :=
  let k := monthKey (expense_date e) in
  assoc_set mm k (n_add (month_or0 mm k) (amount e)).

(** [Array.from(monthMap.entries())], before it is sorted. *)
Definition monthEntries (expenses : list (ExpenseRow num)) : list (string * num) :=
  fold_left add_to_month expenses [].

(** [categoryData.reduce((sum, cat) => sum + cat.value, 0)]. *)
Definition totalExpense (cats : list (string * (num * string))) : num :=
  fold_left (fun sum cat => n_add sum (fst (snd cat))) cats n_zero.

(** The amounts of the expenses of one category, in order. *)
Definition amounts_of (name : string) (expenses : list (ExpenseRow num)) : list num :=
  map amount (filter (fun e => category_name e = name) expenses).

End Charts.

(** A row whose amount is a whole number of currency units, read as a
    binary64 number. *)
Definition whole_row (r : ExpenseRow Z) : ExpenseRow float :=
  {| amount := float_of_Z (amount r); expense_date := expense_date r;
     category_name := category_name r; category_color := category_color r |}.

Definition whole_category (c : string * (Z * string)) : string * (float * string) :=
  (fst c, (float_of_Z (fst (snd c)), snd (snd c))).

Definition whole_bar (b : string * Z) : string * float := (fst b, float_of_Z (snd b)).

(** Rows of 0.30 and 0.20 in one category with a row of 0.10 of another
    category between them. *)
Definition mixed_rows : list (ExpenseRow float) :=
  [ {| amount := 0.3%float; expense_date := "2024-01-05";
       category_name := "Food"; category_color := "#f00" |};
    {| amount := 0.1%float; expense_date := "2024-01-06";
       category_name := "Travel"; category_color := "#0f0" |};
    {| amount := 0.2%float; expense_date := "2024-01-07";
       category_name := "Food"; category_color := "#f00" |} ].

End Analytics.

(* --------------------------------------------------------------------- *)
(** ** 16a. Characters of a link, and more sample data *)
(* --------------------------------------------------------------------- *)

(** How often the character occurs in the string. *)
Fixpoint count_char (c : ascii) (s : string) : nat :=
  match s with
  | EmptyString => O
  | String c' r => (if Ascii.eqb c' c then 1 else 0)%nat + count_char c r
  end.

(** The characters the serializer writes for a name or a value: the
    unreserved ones, [+] for a space and [%] before two hex digits. *)
Definition is_encoded_char (c : ascii) : bool :=
  GooglePay.is_unreserved c || Ascii.eqb c "+"%char || Ascii.eqb c "%"%char.

Fixpoint all_chars (p : ascii -> bool) (s : string) : bool :=
  match s with
  | EmptyString => true
  | String c r => p c && all_chars p r
  end.



(** In hundredths: B lends A 0.10, C lends A 0.20, and A pays 0.30 for B
    and C in return. *)
Definition lend_b : GroupExpense Z :=
  {| id := "e4"; amount := 10; paid_by := "B";
     expense_splits := [ {| split_user_id := "A"; split_amount := 10 |} ] |}.

Definition lend_c : GroupExpense Z :=
  {| id := "e5"; amount := 20; paid_by := "C";
     expense_splits := [ {| split_user_id := "A"; split_amount := 20 |} ] |}.

Definition pay_back : GroupExpense Z :=
  {| id := "e6"; amount := 30; paid_by := "A";
     expense_splits := [ {| split_user_id := "B"; split_amount := 10 |};
                         {| split_user_id := "C"; split_amount := 20 |} ] |}.

(** An expense with an amount that is not a number and an infinite split. *)
Definition broken_expense : GroupExpense float :=
  {| id := "e0"; amount := PrimFloat.nan; paid_by := "A";
     expense_splits := [ {| split_user_id := "B"; split_amount := PrimFloat.infinity |} ] |}.

(* ===================================================================== *)
(** * Part IV.  Properties of the rest of the code *)
(* ===================================================================== *)

(* --------------------------------------------------------------------- *)
(** ** 17. Insertion-ordered objects *)
(* --------------------------------------------------------------------- *)

Section AssocFacts.
Context {V : Type}.
Implicit Types (o : list (string * V)) (k : string) (v : V).

Lemma assoc_get_set_eq o k v : assoc_get (assoc_set o k v) k = Some v.
Proof.
  induction o as [| [k' v'] o IH]; cbn.
  - destruct (decide (k = k)); [reflexivity | contradiction].
  - destruct (decide (k' = k)) as [E | E]; cbn.
    + destruct (decide (k = k)); [reflexivity | contradiction].
    + destruct (decide (k' = k)); [contradiction | exact IH].
Qed.

Lemma assoc_get_set_ne o k k' v :
  k' <> k -> assoc_get (assoc_set o k v) k' = assoc_get o k'.
Proof.
  intros Hne. induction o as [| [k0 v0] o IH]; cbn.
  - destruct (decide (k = k')); [congruence | reflexivity].
  - destruct (decide (k0 = k)) as [E | E]; cbn.
    + subst k0. destruct (decide (k = k')); [congruence | reflexivity].
    + destruct (decide (k0 = k')); [reflexivity | exact IH].
Qed.

Lemma assoc_get_None o k : assoc_get o k = None <-> k ∉ map fst o.
Proof.
  induction o as [| [k0 v0] o IH]; cbn.
  - split; [intros _ Hin; inversion Hin | reflexivity].
  - destruct (decide (k0 = k)) as [E | E].
    + subst. split; [discriminate | intros Hn; exfalso; apply Hn; left].
    + rewrite IH. split.
      * intros Hn Hin. apply elem_of_cons in Hin as [Hin | Hin]; [congruence | exact (Hn Hin)].
      * intros Hn Hin. apply Hn. right. exact Hin.
Qed.

Lemma assoc_set_new o k v : k ∉ map fst o -> assoc_set o k v = o ++ [(k, v)].
Proof.
  induction o as [| [k0 v0] o IH]; cbn; intros Hn; [reflexivity |].
  destruct (decide (k0 = k)) as [E | E].
  - exfalso. apply Hn. subst. left.
  - rewrite IH; [reflexivity |]. intros Hin. apply Hn. right. exact Hin.
Qed.

Lemma assoc_set_keys_old o k v : k ∈ map fst o -> map fst (assoc_set o k v) = map fst o.
Proof.
  induction o as [| [k0 v0] o IH]; cbn; intros Hin; [inversion Hin |].
  destruct (decide (k0 = k)) as [E | E]; cbn; [congruence |].
  apply elem_of_cons in Hin as [Hin | Hin]; [congruence |]. now rewrite IH.
Qed.

Lemma assoc_set_keys o k v :
  map fst (assoc_set o k v)
  = if decide (k ∈ map fst o) then map fst o else map fst o ++ [k].
Proof.
  destruct (decide (k ∈ map fst o)) as [Hin | Hn].
  - apply assoc_set_keys_old, Hin.
  - rewrite assoc_set_new by exact Hn. rewrite map_app. reflexivity.
Qed.

Lemma assoc_set_NoDup o k v : NoDup (map fst o) -> NoDup (map fst (assoc_set o k v)).
Proof.
  intros Hnd. rewrite assoc_set_keys. destruct (decide (k ∈ map fst o)) as [_ | Hn]; [exact Hnd |].
  apply NoDup_app. split; [exact Hnd |]. split.
  - intros x Hx Hk. apply list_elem_of_singleton in Hk. subst. exact (Hn Hx).
  - apply NoDup_singleton.
Qed.

End AssocFacts.

Lemma put_assoc (o : list (string * float)) (k : string) (v : float) :
  Modal.put o k v = assoc_set o k v.
Proof. induction o as [| [k' v'] o IH]; cbn; [reflexivity |]. now rewrite IH. Qed.

Lemma has_key_spec (o : list (string * float)) (k : string) :
  Modal.has_key o k = true <-> k ∈ map fst o.
Proof.
  induction o as [| [k' v'] o IH]; cbn.
  - split; [discriminate | intros H; inversion H].
  - rewrite orb_true_iff, IH, bool_decide_eq_true, elem_of_cons. split; intros [H | H]; auto.
Qed.

(** Where [put_index] puts a new array index. *)
Lemma put_index_split (o : list (string * float)) (i : N) (k : string) (v : float) :
  exists before after,
    o = before ++ after
    /\ Modal.put_index o i k v = before ++ (k, v) :: after
    /\ Forall (fun e => Modal.smaller_index i (fst e) = true) before
    /\ (forall e rest, after = e :: rest -> Modal.smaller_index i (fst e) = false).
Proof.
  induction o as [| [k' v'] o IH]; cbn [Modal.put_index].
  - exists [], []. repeat split; [constructor | intros e rest E; discriminate E].
  - destruct (Modal.smaller_index i k') eqn:Hs.
    + destruct IH as (before & after & -> & -> & Hb & Ha).
      exists ((k', v') :: before), after. repeat split; [constructor; assumption | exact Ha].
    + exists [], ((k', v') :: o). repeat split; [constructor |].
      intros e rest [= <- <-]. exact Hs.
Qed.

Lemma smaller_index_other (i : N) (k k' : string) :
  Modal.array_index k = Some i -> Modal.smaller_index i k' = true -> k' <> k.
Proof.
  unfold Modal.smaller_index. intros Hk Hs ->. rewrite Hk in Hs.
  apply N.ltb_lt in Hs. lia.
Qed.

Lemma assoc_get_app_skip {V} (before after : list (string * V)) (k : string) :
  Forall (fun e => fst e <> k) before ->
  assoc_get (before ++ after) k = assoc_get after k.
Proof.
  induction 1 as [| [k' v'] before Hk _ IH]; [reflexivity |]. cbn in *.
  destruct (decide (k' = k)); [contradiction | exact IH].
Qed.

Lemma assoc_get_app {V} (before after : list (string * V)) (k : string) :
  assoc_get (before ++ after) k
  = match assoc_get before k with Some x => Some x | None => assoc_get after k end.
Proof.
  induction before as [| [k' v'] before IH]; [reflexivity |]. cbn.
  destruct (decide (k' = k)); [reflexivity | exact IH].
Qed.

Section RecordFacts.
Import Modal.
Implicit Types (o : list (string * float)) (k : string) (v : float).

Lemma record_set_plain o k v : array_index k = None -> record_set o k v = assoc_set o k v.
Proof. intros Hk. unfold record_set. rewrite Hk. apply put_assoc. Qed.

Lemma record_set_old o k v : k ∈ map fst o -> record_set o k v = assoc_set o k v.
Proof.
  intros Hin. unfold record_set. apply has_key_spec in Hin. rewrite Hin.
  destruct (array_index k); apply put_assoc.
Qed.

Lemma record_set_new_index o k v i :
  array_index k = Some i -> k ∉ map fst o -> record_set o k v = put_index o i k v.
Proof.
  intros Hk Hn. unfold record_set. rewrite Hk.
  destruct (has_key o k) eqn:Hh; [| reflexivity].
  apply has_key_spec in Hh. contradiction.
Qed.

Lemma record_get_eq o k v : assoc_get (record_set o k v) k = Some v.
Proof.
  destruct (decide (k ∈ map fst o)) as [Hin | Hn].
  { rewrite record_set_old by exact Hin. apply assoc_get_set_eq. }
  destruct (array_index k) as [i |] eqn:Hk.
  - rewrite (record_set_new_index o k v i Hk Hn).
    destruct (put_index_split o i k v) as (before & after & _ & -> & Hb & _).
    rewrite assoc_get_app_skip.
    + cbn. destruct (decide (k = k)); [reflexivity | contradiction].
    + eapply Forall_impl; [exact Hb |]. intros e He. exact (smaller_index_other i k _ Hk He).
  - rewrite record_set_plain by exact Hk. apply assoc_get_set_eq.
Qed.

Lemma record_get_ne o k k' v : k' <> k -> assoc_get (record_set o k v) k' = assoc_get o k'.
Proof.
  intros Hne.
  destruct (decide (k ∈ map fst o)) as [Hin | Hn].
  { rewrite record_set_old by exact Hin. apply assoc_get_set_ne, Hne. }
  destruct (array_index k) as [i |] eqn:Hk.
  - rewrite (record_set_new_index o k v i Hk Hn).
    destruct (put_index_split o i k v) as (before & after & -> & -> & _ & _).
    rewrite !assoc_get_app. cbn.
    destruct (decide (k = k')); [congruence | reflexivity].
  - rewrite record_set_plain by exact Hk. apply assoc_get_set_ne, Hne.
Qed.

(** The keys after a write, for a key the object has, a new key that is
    not an array index, and a new array index. *)
Lemma record_set_keys o k v :
  (k ∈ map fst o -> map fst (record_set o k v) = map fst o)
  /\ (k ∉ map fst o -> array_index k = None ->
      map fst (record_set o k v) = map fst o ++ [k])
  /\ (k ∉ map fst o -> forall i, array_index k = Some i ->
      exists before after,
        map fst o = before ++ after
        /\ map fst (record_set o k v) = before ++ k :: after
        /\ Forall (fun k' => smaller_index i k' = true) before
        /\ (forall k' rest, after = k' :: rest -> smaller_index i k' = false)).
Proof.
  split; [| split].
  - intros Hin. rewrite record_set_old by exact Hin. apply assoc_set_keys_old, Hin.
  - intros Hn Hk. rewrite record_set_plain by exact Hk.
    rewrite assoc_set_new by exact Hn. rewrite map_app. reflexivity.
  - intros Hn i Hk. rewrite (record_set_new_index o k v i Hk Hn).
    destruct (put_index_split o i k v) as (before & after & -> & -> & Hb & Ha).
    exists (map fst before), (map fst after).
    rewrite !map_app. cbn [map fst]. repeat split.
    + apply Forall_map. exact Hb.
    + intros k' rest E. destruct after as [| e after']; [discriminate E |].
      cbn in E. injection E as <- _. exact (Ha e after' eq_refl).
Qed.

Lemma record_set_Permutation o k v :
  k ∉ map fst o -> Permutation (map fst (record_set o k v)) (k :: map fst o).
Proof.
  intros Hn. destruct (record_set_keys o k v) as (_ & Hplain & Hindex).
  destruct (array_index k) as [i |] eqn:Hk.
  - destruct (Hindex Hn i eq_refl) as (before & after & -> & -> & _ & _).
    symmetry. apply Permutation_middle.
  - rewrite (Hplain Hn eq_refl). symmetry. apply Permutation_cons_append.
Qed.

Lemma record_set_NoDup o k v : NoDup (map fst o) -> NoDup (map fst (record_set o k v)).
Proof.
  intros Hnd. destruct (decide (k ∈ map fst o)) as [Hin | Hn].
  - rewrite (proj1 (record_set_keys o k v) Hin). exact Hnd.
  - rewrite (record_set_Permutation o k v Hn). apply NoDup_cons. split; assumption.
Qed.

End RecordFacts.

Section ObjectOrder.
Import Modal.

Lemma object_order_snoc_plain (keys : list string) (k : string) :
  object_order keys = true -> array_index k = None -> object_order (keys ++ [k]) = true.
Proof.
  intros Ho Hk. induction keys as [| k0 r IH]; cbn [app object_order] in *.
  - rewrite Hk. reflexivity.
  - destruct (array_index k0) as [i |].
    + apply andb_prop in Ho as [Hall Hr]. rewrite forallb_app, Hall, (IH Hr).
      cbn. rewrite Hk. reflexivity.
    + rewrite forallb_app, Ho. cbn. rewrite Hk. reflexivity.
Qed.

Lemma object_order_tail (k : string) (r : list string) :
  object_order (k :: r) = true -> object_order r = true.
Proof.
  cbn [object_order]. destruct (array_index k) as [i |].
  - intros H. apply andb_prop in H. tauto.
  - intros H. induction r as [| k' r IH]; [reflexivity |].
    cbn [forallb object_order] in *. apply andb_prop in H as [Hk' Hr].
    apply bool_decide_eq_true in Hk'. rewrite Hk'. exact Hr.
Qed.

Lemma object_order_insert (before after : list string) (k : string) (i : N) :
  array_index k = Some i ->
  Forall (fun k' => smaller_index i k' = true) before ->
  (forall k' rest, after = k' :: rest -> smaller_index i k' = false) ->
  object_order (before ++ after) = true ->
  object_order (before ++ k :: after) = true.
Proof.
  intros Hk Hb Ha. induction Hb as [| b before Hsb _ IH]; cbn [app]; intros Ho.
  - cbn [object_order]. rewrite Hk, Ho, andb_true_r.
    destruct after as [| a after]; [reflexivity |].
    specialize (Ha a after eq_refl). unfold smaller_index in Ha.
    cbn [forallb object_order] in *.
    destruct (array_index a) as [j |] eqn:Hj.
    + apply andb_prop in Ho as [Hall _]. apply N.ltb_ge in Ha.
      apply andb_true_intro. split; [apply N.leb_le; lia |].
      apply forallb_forall. intros x Hx.
      rewrite forallb_forall in Hall. specialize (Hall x Hx).
      destruct (array_index x) as [jx |]; [| reflexivity].
      apply N.leb_le in Hall. apply N.leb_le. lia.
    + cbn. apply forallb_forall. intros x Hx.
      rewrite forallb_forall in Ho. specialize (Ho x Hx).
      apply bool_decide_eq_true in Ho. rewrite Ho. reflexivity.
  - pose proof (object_order_tail _ _ Ho) as Hr.
    cbn [object_order] in *. unfold smaller_index in Hsb.
    destruct (array_index b) as [jb |]; [| discriminate Hsb].
    apply andb_prop in Ho as [Hall _]. rewrite (IH Hr), andb_true_r.
    rewrite forallb_app in *. apply andb_prop in Hall as [H1 H2].
    rewrite H1. cbn [forallb]. rewrite Hk, H2, andb_true_r.
    apply N.ltb_lt in Hsb. apply N.leb_le. lia.
Qed.

Lemma record_set_order (o : list (string * float)) (k : string) (v : float) :
  object_order (map fst o) = true -> object_order (map fst (record_set o k v)) = true.
Proof.
  intros Ho. destruct (record_set_keys o k v) as (Hold & Hplain & Hindex).
  destruct (decide (k ∈ map fst o)) as [Hin | Hn]; [rewrite (Hold Hin); exact Ho |].
  destruct (array_index k) as [i |] eqn:Hk.
  - destruct (Hindex Hn i eq_refl) as (before & after & E & -> & Hb & Ha).
    rewrite E in Ho. exact (object_order_insert before after k i Hk Hb Ha Ho).
  - rewrite (Hplain Hn eq_refl). apply object_order_snoc_plain; assumption.
Qed.



End ObjectOrder.

(* --------------------------------------------------------------------- *)
(** ** 18. The split inputs of the modal *)
(* --------------------------------------------------------------------- *)

Lemma truthy_not_nan (x : float) : float_truthy x = true -> PrimFloat.is_nan x = false.
Proof.
  unfold float_truthy. intros Ht. apply negb_true_iff, orb_false_iff in Ht. tauto.
Qed.

Lemma zero_not_nan : PrimFloat.is_nan 0 = false.
Proof. reflexivity. Qed.

(** X1.  Typing a value into one member's split input sets that member's
    split to [parseFloat(value) || 0], which is never [NaN] (text that does
    not parse to a nonzero number gives 0); the other members' splits and
    the other state variables stay as they are, and the keys stay distinct.
    The order of the entries is that of a JavaScript object: a key that the
    object has keeps its place; a new key that is not an array index goes
    last; a new array index goes behind the smaller array indices and in
    front of everything else; so an object that lists its array indices
    first, in ascending order, still does. *)
Theorem handleSplitChange_sets_one_split
    (parseFloat : string -> float) (st : Modal.FormState) (uid value : string) :
  NoDup (map fst (Modal.splits st)) ->
  assoc_get (Modal.splits (Modal.handleSplitChange parseFloat st uid value)) uid
  = Some (Modal.parse_or0 parseFloat value)
  /\ PrimFloat.is_nan (Modal.parse_or0 parseFloat value) = false
  /\ (float_truthy (parseFloat value) = false -> Modal.parse_or0 parseFloat value = 0%float)
  /\ (forall k, k <> uid ->
        assoc_get (Modal.splits (Modal.handleSplitChange parseFloat st uid value)) k
        = assoc_get (Modal.splits st) k)
  /\ (uid ∈ map fst (Modal.splits st) ->
      map fst (Modal.splits (Modal.handleSplitChange parseFloat st uid value))
      = map fst (Modal.splits st))
  /\ (uid ∉ map fst (Modal.splits st) -> Modal.array_index uid = None ->
      map fst (Modal.splits (Modal.handleSplitChange parseFloat st uid value))
      = map fst (Modal.splits st) ++ [uid])
  /\ (uid ∉ map fst (Modal.splits st) -> forall i, Modal.array_index uid = Some i ->
      exists before after,
        map fst (Modal.splits st) = before ++ after
        /\ map fst (Modal.splits (Modal.handleSplitChange parseFloat st uid value))
           = before ++ uid :: after
        /\ Forall (fun k => Modal.smaller_index i k = true) before
        /\ (forall k rest, after = k :: rest -> Modal.smaller_index i k = false))
  /\ (Modal.object_order (map fst (Modal.splits st)) = true ->
      Modal.object_order
        (map fst (Modal.splits (Modal.handleSplitChange parseFloat st uid value))) = true)
  /\ NoDup (map fst (Modal.splits (Modal.handleSplitChange parseFloat st uid value)))
  /\ Modal.amount (Modal.handleSplitChange parseFloat st uid value) = Modal.amount st
  /\ Modal.splitType (Modal.handleSplitChange parseFloat st uid value) = Modal.splitType st
  /\ Modal.error (Modal.handleSplitChange parseFloat st uid value) = Modal.error st
  /\ Modal.loading (Modal.handleSplitChange parseFloat st uid value) = Modal.loading st.
Proof.
  intros Hnd. unfold Modal.handleSplitChange, Modal.with_splits. cbn.
  destruct (record_set_keys (Modal.splits st) uid (Modal.parse_or0 parseFloat value))
    as (Hold & Hplain & Hindex).
  split; [apply record_get_eq |].
  split.
  { unfold Modal.parse_or0. destruct (float_truthy (parseFloat value)) eqn:E;
      [apply truthy_not_nan, E | apply zero_not_nan]. }
  split.
  { intros E. unfold Modal.parse_or0. rewrite E. reflexivity. }
  split; [intros k Hk; apply record_get_ne, Hk |].
  split; [exact Hold |]. split; [exact Hplain |]. split; [exact Hindex |].
  split; [apply record_set_order |].
  split; [apply record_set_NoDup, Hnd |].
  repeat split.
Qed.

Lemma handleSplitChange_sets_one_split_witness :
  let st := Modal.typed_form 10000 [("7", 2000); ("12", 3000); ("A", 4999)] in
  (forall i, Modal.array_index "9" = Some i ->
     exists before after,
       map fst (Modal.splits st) = before ++ after
       /\ map fst (Modal.splits (Modal.handleSplitChange Modal.parseDecimal st "9" "0.5"))
          = before ++ "9" :: after
       /\ Forall (fun k => Modal.smaller_index i k = true) before
       /\ (forall k rest, after = k :: rest -> Modal.smaller_index i k = false))
  /\ Modal.array_index "9" = Some 9%N
  /\ map fst (Modal.splits st) = ["7"; "12"; "A"]
  /\ Modal.splits (Modal.handleSplitChange Modal.parseDecimal st "9" "0.5")
     = [("7", 20%float); ("9", 0.5%float); ("12", 30%float); ("A", 49.99%float)]
  /\ Modal.splits (Modal.handleSplitChange Modal.parseDecimal st "12" "abc")
     = [("7", 20%float); ("12", 0%float); ("A", 49.99%float)]
  /\ Modal.splits (Modal.handleSplitChange Modal.parseDecimal st "B" "1")
     = [("7", 20%float); ("12", 30%float); ("A", 49.99%float); ("B", 1%float)].
Proof.
  cbv zeta. split.
  - refine (proj1 (proj2 (proj2 (proj2 (proj2 (proj2 (proj2
             (handleSplitChange_sets_one_split Modal.parseDecimal
                (Modal.typed_form 10000 [("7", 2000); ("12", 3000); ("A", 4999)])
                "9" "0.5" _))))))) _).
    + apply (bool_decide_unpack _). vm_compute. exact I.
    + apply (bool_decide_unpack _). vm_compute. exact I.
  - repeat split; vm_compute; reflexivity.
Defined.







(* --------------------------------------------------------------------- *)
(** ** 19. What a submission of the modal leaves behind *)
(* --------------------------------------------------------------------- *)

Section SubmitFacts.
Import Modal.
Variable parseFloat : string -> float.
Variable toISOString : string -> option string.
Variable groupId userId : string.

Abbreviation run := (handleSubmit parseFloat toISOString groupId userId).

(** X3.  A run of [handleSubmit] leaves the typed inputs (title, amount,
    category, date, notes, split type, splits) as they were, also after a
    success.  It throws exactly when the split check passed and the date
    text is not a date; then nothing was sent or stored, the modal stays
    open, and [loading] stays on.  Every other run ends with [loading] off.
    The modal closes exactly when the split check passed, the date
    converted and both inserts succeeded, and then no error is shown. *)
Theorem handleSubmit_keeps_the_inputs_and_stops_loading_unless_it_throws
    (st : FormState) (be : Backend) (db : Tables.Database) :
  (thrown (run st be db) = true
   <-> split_mismatch parseFloat st = false /\ toISOString (expenseDate st) = None)
  /\ loading (form (run st be db)) = thrown (run st be db)
  /\ (thrown (run st be db) = true ->
      requests (run st be db) = [] /\ database (run st be db) = db
      /\ closed (run st be db) = false /\ error (form (run st be db)) = NoError)
  /\ (title (form (run st be db)) = title st
      /\ amount (form (run st be db)) = amount st
      /\ categoryId (form (run st be db)) = categoryId st
      /\ expenseDate (form (run st be db)) = expenseDate st
      /\ notes (form (run st be db)) = notes st
      /\ splitType (form (run st be db)) = splitType st
      /\ splits (form (run st be db)) = splits st)
  /\ (closed (run st be db) = true
      <-> split_mismatch parseFloat st = false
          /\ (exists iso, toISOString (expenseDate st) = Some iso)
          /\ (exists expense_id, group_expenses_insert be = inl expense_id)
          /\ expense_splits_insert be = None)
  /\ (closed (run st be db) = true -> error (form (run st be db)) = NoError).
Proof.
  unfold handleSubmit.
  destruct (split_mismatch parseFloat st) eqn:Hm;
    [| destruct (toISOString (expenseDate st)) as [iso |] eqn:Hd;
       [destruct (group_expenses_insert be) as [expense_id | message] eqn:H1;
        [destruct (expense_splits_insert be) as [message |] eqn:H2 |] |]];
    cbn; repeat split; try reflexivity; try discriminate; eauto;
    try (intros [? ?]; discriminate);
    try (intros (? & ? & ? & ?); discriminate);
    try (intros (_ & (? & ?) & _); discriminate);
    try (intros (_ & _ & (? & ?) & _); discriminate).
Qed.

(** X4.  A run of [handleSubmit] never removes or changes a stored row: the
    stored expenses and splits are extended at their ends, by at most one
    expense, and by split rows only together with that expense.  When the
    modal closes, the new rows are the expense with the answered id (paid by
    the signed-in user, in this group, with the parsed amount) and one split
    row per entry of the form's splits, in their order, each with that id,
    that entry's user and that entry's amount. *)
Theorem handleSubmit_only_appends
    (st : FormState) (be : Backend) (db : Tables.Database) :
  exists new_expenses new_splits,
    Tables.group_expenses (database (run st be db))
    = Tables.group_expenses db ++ new_expenses
    /\ Tables.expense_splits (database (run st be db))
       = Tables.expense_splits db ++ new_splits
    /\ (length new_expenses <= 1)%nat
    /\ (new_splits <> [] -> length new_expenses = 1%nat)
    /\ (closed (run st be db) = true ->
        exists expense_id row,
          new_expenses = [(expense_id, row)]
          /\ group_expenses_insert be = inl expense_id
          /\ Tables.paid_by row = userId
          /\ Tables.group_id row = groupId
          /\ Tables.amount row = parseFloat (amount st)
          /\ map Tables.group_expense_id new_splits = map (fun _ => expense_id) (splits st)
          /\ map Tables.user_id new_splits = map fst (splits st)
          /\ map Tables.split_amount new_splits = map snd (splits st)).
Proof.
  unfold handleSubmit.
  destruct (split_mismatch parseFloat st) eqn:Hm;
    [| destruct (toISOString (expenseDate st)) as [iso |] eqn:Hd;
       [destruct (group_expenses_insert be) as [expense_id | message] eqn:H1;
        [destruct (expense_splits_insert be) as [message |] eqn:H2 |] |]]; cbn.
  - exists [], []. rewrite !app_nil_r. repeat split; auto; try discriminate; try congruence.
  - exists [(expense_id, expense_row parseFloat groupId userId st iso)], [].
    rewrite app_nil_r. repeat split; auto; try discriminate; try congruence.
  - exists [(expense_id, expense_row parseFloat groupId userId st iso)],
      (splitInserts st expense_id).
    repeat split; auto. intros _.
    exists expense_id, (expense_row parseFloat groupId userId st iso).
    unfold splitInserts. rewrite !map_map. cbn. repeat split; reflexivity.
  - exists [], []. rewrite !app_nil_r. repeat split; auto; try discriminate; try congruence.
  - exists [], []. rewrite !app_nil_r. repeat split; auto; try discriminate; try congruence.
Qed.

End SubmitFacts.

(* --------------------------------------------------------------------- *)
(** ** 20. Adding a personal expense *)
(* --------------------------------------------------------------------- *)

Section AddExpenseFacts.
Import AddExpense.
Variable parseFloat : string -> float.
Variable toISOString : string -> option string.
Variable today : string.

Abbreviation add := (handleSubmit parseFloat toISOString today).

(** X5.  [handleSubmit] of the Add Expense page leaves [loading] on in two
    cases and in no other: without a signed-in user it returns right after
    turning [loading] on, and with a date text that is not a date it throws
    before the insert.  These are also the runs that send nothing.  The
    stored rows change, and the success banner shows, exactly when a user
    is signed in, the date converts and the insert succeeds. *)
Theorem add_expense_stays_loading_without_user_or_date
    (user : option string) (st : FormState) (reply : option string)
    (db : list ExpenseInsert) :
  (loading (form (add user st reply db)) = true
   <-> user = None \/ toISOString (expenseDate st) = None)
  /\ (requests (add user st reply db) = []
      <-> user = None \/ toISOString (expenseDate st) = None)
  /\ (thrown (add user st reply db) = true
      <-> user <> None /\ toISOString (expenseDate st) = None)
  /\ (expenses (add user st reply db) <> db
      <-> user <> None /\ toISOString (expenseDate st) <> None /\ reply = None)
  /\ (success (form (add user st reply db)) = true
      <-> user <> None /\ toISOString (expenseDate st) <> None /\ reply = None).
Proof.
  assert (Hgrow : forall row : ExpenseInsert, db ++ [row] <> db).
  { intros row E. apply (f_equal (@length _)) in E. rewrite length_app in E. cbn in E. lia. }
  unfold handleSubmit.
  destruct user as [uid |];
    [destruct (toISOString (expenseDate st)) as [iso |] eqn:Hd;
     [destruct reply as [message |] |] |]; cbn;
    repeat split; try discriminate; try congruence; try tauto; auto;
    try (intros [? | ?]; congruence);
    try (intros (? & ? & ?); congruence);
    try (intros [? ?]; congruence).
Qed.

(** X6.  With a signed-in user and a date text that converts,
    [handleSubmit] of the Add Expense page sends exactly one insert,
    whatever the other inputs (it checks nothing), and ends with [loading]
    off.  If the insert fails, its message is shown, nothing is stored and
    title, amount, notes and date stay for another try.  If it succeeds,
    the row is stored after the existing ones, the success banner is on
    (with the timer that removes it), title, amount and notes are emptied
    and the date is today's; category and payment method stay in both
    cases.  With a date text that is not a date it throws instead: nothing
    is sent or stored, the inputs stay, and [loading] stays on. *)
Theorem add_expense_with_user
    (uid : string) (st : FormState) (reply : option string) (db : list ExpenseInsert) :
  (forall iso, toISOString (expenseDate st) = Some iso ->
     requests (add (Some uid) st reply db) = [expense_row parseFloat uid st iso]
     /\ loading (form (add (Some uid) st reply db)) = false
     /\ thrown (add (Some uid) st reply db) = false
     /\ categoryId (form (add (Some uid) st reply db)) = categoryId st
     /\ paymentMethod (form (add (Some uid) st reply db)) = paymentMethod st
     /\ (forall message, reply = Some message ->
           error (form (add (Some uid) st reply db)) = message
           /\ success (form (add (Some uid) st reply db)) = false
           /\ expenses (add (Some uid) st reply db) = db
           /\ f_title (form (add (Some uid) st reply db)) = f_title st
           /\ f_amount (form (add (Some uid) st reply db)) = f_amount st
           /\ f_notes (form (add (Some uid) st reply db)) = f_notes st
           /\ expenseDate (form (add (Some uid) st reply db)) = expenseDate st)
     /\ (reply = None ->
           error (form (add (Some uid) st reply db)) = ""
           /\ success (form (add (Some uid) st reply db)) = true
           /\ banner_timer (add (Some uid) st reply db) = true
           /\ expenses (add (Some uid) st reply db)
              = db ++ [expense_row parseFloat uid st iso]
           /\ f_title (form (add (Some uid) st reply db)) = ""
           /\ f_amount (form (add (Some uid) st reply db)) = ""
           /\ f_notes (form (add (Some uid) st reply db)) = ""
           /\ expenseDate (form (add (Some uid) st reply db)) = today))
  /\ (toISOString (expenseDate st) = None ->
      thrown (add (Some uid) st reply db) = true
      /\ requests (add (Some uid) st reply db) = []
      /\ expenses (add (Some uid) st reply db) = db
      /\ form (add (Some uid) st reply db) = starting st
      /\ loading (form (add (Some uid) st reply db)) = true
      /\ success (form (add (Some uid) st reply db)) = false).
Proof.
  unfold handleSubmit. split.
  - intros iso ->.
    destruct reply as [message |]; cbn; repeat split; intros; try discriminate;
      try (match goal with H : Some _ = Some _ |- _ => injection H as <- end); reflexivity.
  - intros ->. repeat split; reflexivity.
Qed.

End AddExpenseFacts.

Lemma add_expense_with_user_witness :
  let st := {| AddExpense.f_title := "Milk"; AddExpense.f_amount := "42.50";
               AddExpense.categoryId := "food"; AddExpense.paymentMethod := "UPI";
               AddExpense.expenseDate := "2024-01-15"; AddExpense.f_notes := "";
               AddExpense.loading := false; AddExpense.success := false;
               AddExpense.error := "" |} in
  let out := AddExpense.handleSubmit Modal.parseDecimal Modal.isoOfDate "2024-02-01"
               (Some "A") st None [] in
  AddExpense.error (AddExpense.form out) = ""
  /\ AddExpense.success (AddExpense.form out) = true
  /\ AddExpense.banner_timer out = true
  /\ AddExpense.expenses out
     = [] ++ [AddExpense.expense_row Modal.parseDecimal "A" st "2024-01-15T00:00:00.000Z"]
  /\ AddExpense.f_title (AddExpense.form out) = ""
  /\ AddExpense.f_amount (AddExpense.form out) = ""
  /\ AddExpense.f_notes (AddExpense.form out) = ""
  /\ AddExpense.expenseDate (AddExpense.form out) = "2024-02-01".
Proof.
  cbv zeta.
  apply (proj2 (proj2 (proj2 (proj2 (proj2 (proj2
          (proj1 (add_expense_with_user Modal.parseDecimal Modal.isoOfDate "2024-02-01" "A"
             {| AddExpense.f_title := "Milk"; AddExpense.f_amount := "42.50";
                AddExpense.categoryId := "food"; AddExpense.paymentMethod := "UPI";
                AddExpense.expenseDate := "2024-01-15"; AddExpense.f_notes := "";
                AddExpense.loading := false; AddExpense.success := false;
                AddExpense.error := "" |} None [])
             "2024-01-15T00:00:00.000Z" ltac:(vm_compute; reflexivity)))))))).
  reflexivity.
Defined.

(* --------------------------------------------------------------------- *)
(** ** 21. The Groups page: figures, standing and settlement *)
(* --------------------------------------------------------------------- *)

(** [x || 0] is never [NaN] and never [-0]. *)
Lemma or0_clean (x : float) : clean (if float_truthy x then x else 0%float).
Proof.
  destruct (float_truthy x) eqn:Ht; [| exact clean_zero].
  unfold float_truthy in Ht. apply negb_true_iff, orb_false_iff in Ht as [Hz Hn].
  unfold clean, Prim2SF. rewrite Hn, Hz.
  destruct (is_infinity x); [split; discriminate |].
  destruct (Z.frexp x) as [r ex].
  destruct (shr_fexp _ _ _ _ _) as [sh e'].
  destruct (shr_m sh); split; discriminate.
Qed.

Lemma clean_not_nan (x : float) : clean x -> PrimFloat.is_nan x = false.
Proof.
  intros [Hn _]. destruct (is_nan x) eqn:E; [| reflexivity].
  exfalso. apply Hn. unfold Prim2SF. rewrite E. reflexivity.
Qed.

Lemma clean_not_neg_zero (x : float) : clean x -> x <> (-0)%float.
Proof. intros [_ Hz] ->. apply Hz. reflexivity. Qed.

(** A clean number that is neither above nor below 0 is [0]. *)
Lemma clean_between_is_zero (x : float) :
  clean x -> (0 <? x)%float = false -> (x <? 0)%float = false -> x = 0%float.
Proof.
  intros [Hn Hz]. rewrite !ltb_spec. change (Prim2SF 0) with (S754_zero false).
  intros Hp Hm. apply Prim2SF_inj. change (Prim2SF 0) with (S754_zero false).
  destruct (Prim2SF x) as [[|] | [|] | | [|] m e]; cbn in *; try congruence.
Qed.

Lemma standing_settled_iff_zero (x : float) :
  clean x -> (GroupsPage.standing x = GroupsPage.SettledUp <-> x = 0%float).
Proof.
  intros Hc. unfold GroupsPage.standing. split.
  - destruct (0 <? x)%float eqn:Hp; [discriminate |].
    destruct (x <? 0)%float eqn:Hm; [discriminate |].
    intros _. apply clean_between_is_zero; assumption.
  - intros ->. reflexivity.
Qed.

(** X7.  Whatever the amounts in the dataset (also [NaN] or infinite ones),
    no balance that [calculateBalances] hands out is [NaN] or [-0], because
    each is read through [|| 0]; so a row or the banner shows "All settled
    up" exactly when the balance is the number 0.  For the same reason the
    total on a group card is never [NaN], and it is 0 when the expenses
    could not be loaded. *)
Theorem balances_shown_are_never_nan
    (es : list (GroupExpense float)) (ms : list GroupMember)
    (out : list (Balance float)) (b : Balance float) :
  calculateBalances (Some es) (Some ms) = Some out ->
  b ∈ out ->
  PrimFloat.is_nan (balance b) = false
  /\ balance b <> (-0)%float
  /\ (GroupsPage.standing (balance b) = GroupsPage.SettledUp <-> balance b = 0%float)
  /\ (forall amounts : option (list float),
         PrimFloat.is_nan (GroupsPage.totalExpenses amounts) = false)
  /\ GroupsPage.totalExpenses (num := float) None = 0%float.
Proof.
  intros Hout Hb. cbn in Hout. injection Hout as <-.
  apply list_elem_of_In, in_map_iff in Hb as (m & <- & _).
  assert (Hc : clean (balance (balance_of (balanceMap es) m))).
  { cbn [balance_of balance]. unfold get_or0.
    destruct (balanceMap es !! user_id m) as [x |]; [apply or0_clean | exact clean_zero]. }
  split; [apply clean_not_nan, Hc |].
  split; [apply clean_not_neg_zero, Hc |].
  split; [apply standing_settled_iff_zero, Hc |].
  split; [| reflexivity].
  intros [l |]; cbn; [| reflexivity]. apply clean_not_nan, or0_clean.
Qed.

Lemma balances_shown_are_never_nan_witness :
  PrimFloat.is_nan (balance (balance_of (balanceMap [broken_expense]) ann)) = false
  /\ balance (balance_of (balanceMap [broken_expense]) ann) <> (-0)%float
  /\ (GroupsPage.standing (balance (balance_of (balanceMap [broken_expense]) ann))
      = GroupsPage.SettledUp
      <-> balance (balance_of (balanceMap [broken_expense]) ann) = 0%float)
  /\ (forall amounts : option (list float),
         PrimFloat.is_nan (GroupsPage.totalExpenses amounts) = false)
  /\ GroupsPage.totalExpenses (num := float) None = 0%float.
Proof.
  apply (balances_shown_are_never_nan [broken_expense] [ann; bob]
           (map (balance_of (balanceMap [broken_expense])) [ann; bob])
           (balance_of (balanceMap [broken_expense]) ann)).
  - reflexivity.
  - left.
Defined.

Lemma find_first {A} (p : A -> bool) (l : list A) :
  match List.find p l with
  | Some x => exists before after,
                l = before ++ x :: after
                /\ Forall (fun y => p y = false) before /\ p x = true
  | None => Forall (fun y => p y = false) l
  end.
Proof.
  induction l as [| a l IH]; cbn; [constructor |].
  destruct (p a) eqn:Ea.
  - exists [], l. repeat split; [constructor | exact Ea].
  - destruct (List.find p l) as [x |].
    + destruct IH as (before & after & -> & Hb & Hx).
      exists (a :: before), after. repeat split; [constructor; assumption | exact Hx].
    + constructor; assumption.
Qed.

Section SettleFacts.
Import GroupsPage.
Variable numberToString : float -> string.

(** X8.  The settle button opens a payment link exactly when some member
    has a balance above 0.  The link asks for the whole debt of the row,
    [|balance|], whatever the creditor is owed; it names the first member of
    the list with a balance above 0; and its payee address is always
    [merchant@upi], never an address of that member. *)
Theorem settle_click_pays_the_first_creditor
    (balances : list (Balance float)) (b : Balance float) (g : option Group) :
  (settle_click numberToString balances b g = None
   <-> Forall (fun c => (0 <? balance c)%float = false) balances)
  /\ (forall url,
        settle_click numberToString balances b g = Some url ->
        exists before creditor after,
          balances = before ++ creditor :: after
          /\ Forall (fun c => (0 <? balance c)%float = false) before
          /\ (0 <? balance creditor)%float = true
          /\ url = GooglePay.generateGooglePayUrl numberToString
                     {| GooglePay.upiId := "merchant@upi";
                        GooglePay.amount := PrimFloat.abs (balance b);
                        GooglePay.name := user_name creditor;
                        GooglePay.note := settlement_note g |}
          /\ url = "upi://pay?pa=merchant%40upi&pn="
                   +:+ GooglePay.urlencode (user_name creditor)
                   +:+ "&am="
                   +:+ GooglePay.urlencode
                         (GooglePay.toFixed2 numberToString (PrimFloat.abs (balance b)))
                   +:+ "&cu=INR&tn=" +:+ GooglePay.urlencode (settlement_note g)).
Proof.
  unfold settle_click, find_creditor.
  pose proof (find_first (fun c => (0 <? balance c)%float) balances) as Hf.
  destruct (List.find _ balances) as [creditor |].
  - destruct Hf as (before & after & Hl & Hb & Hc). split.
    + split; [discriminate |]. intros Hall. exfalso.
      rewrite Hl in Hall. apply Forall_app in Hall as [_ Hall].
      apply Forall_cons in Hall as [Hx _]. congruence.
    + intros url [= <-]. exists before, creditor, after.
      split; [exact Hl |]. split; [exact Hb |]. split; [exact Hc |].
      split; [reflexivity |].
      rewrite (generateGooglePayUrl_text numberToString).
      cbn [GooglePay.upiId GooglePay.name GooglePay.amount GooglePay.note].
      replace (GooglePay.urlencode "merchant@upi") with "merchant%40upi"
        by (vm_compute; reflexivity).
      repeat first [rewrite append_cons | rewrite append_nil]. reflexivity.
  - split; [split; [intros _; exact Hf | reflexivity] | discriminate].
Qed.

End SettleFacts.

Lemma settle_click_pays_the_first_creditor_witness :
  let balances :=
    [ {| bal_user_id := "A"; user_name := "Ann"; user_email := "ann@example.com";
         balance := (-30)%float |};
      {| bal_user_id := "B"; user_name := "Bob"; user_email := "bob@example.com";
         balance := 10%float |};
      {| bal_user_id := "C"; user_name := "Cy"; user_email := "cy@example.com";
         balance := 20%float |} ] in
  exists before creditor after,
    balances = before ++ creditor :: after
    /\ Forall (fun c => (0 <? balance c)%float = false) before
    /\ (0 <? balance creditor)%float = true
    /\ "upi://pay?pa=merchant%40upi&pn=Bob&am=30.00&cu=INR&tn=Splitzee+settlement+for+Goa"
       = GooglePay.generateGooglePayUrl (fun _ => "")
           {| GooglePay.upiId := "merchant@upi";
              GooglePay.amount := PrimFloat.abs (-30);
              GooglePay.name := user_name creditor;
              GooglePay.note :=
                GroupsPage.settlement_note
                  (Some {| GroupsPage.group_id := "g1"; GroupsPage.group_name := "Goa" |}) |}
    /\ "upi://pay?pa=merchant%40upi&pn=Bob&am=30.00&cu=INR&tn=Splitzee+settlement+for+Goa"
       = "upi://pay?pa=merchant%40upi&pn="
         +:+ GooglePay.urlencode (user_name creditor)
         +:+ "&am="
         +:+ GooglePay.urlencode (GooglePay.toFixed2 (fun _ => "") (PrimFloat.abs (-30)))
         +:+ "&cu=INR&tn="
         +:+ GooglePay.urlencode
               (GroupsPage.settlement_note
                  (Some {| GroupsPage.group_id := "g1"; GroupsPage.group_name := "Goa" |})).
Proof.
  cbv zeta.
  apply (proj2 (settle_click_pays_the_first_creditor (fun _ => "")
           [ {| bal_user_id := "A"; user_name := "Ann"; user_email := "ann@example.com";
                balance := (-30)%float |};
             {| bal_user_id := "B"; user_name := "Bob"; user_email := "bob@example.com";
                balance := 10%float |};
             {| bal_user_id := "C"; user_name := "Cy"; user_email := "cy@example.com";
                balance := 20%float |} ]
           {| bal_user_id := "A"; user_name := "Ann"; user_email := "ann@example.com";
              balance := (-30)%float |}
           (Some {| GroupsPage.group_id := "g1"; GroupsPage.group_name := "Goa" |}))).
  vm_compute. reflexivity.
Defined.

(** *** Who owes and who is owed, in exact arithmetic *)

Lemma sumZ_positive_and_negative_parts {A} (f : A -> Z) (l : list A) :
  sumZ (map (fun x => Z.max (f x) 0) l) - sumZ (map (fun x => Z.max (- f x) 0) l)
  = sumZ (map f l).
Proof. induction l as [| x l IH]; cbn [map sumZ]; lia. Qed.

Lemma sumZ_nonpositive {A} (f : A -> Z) (l : list A) (x : A) :
  Forall (fun y => f y <= 0) l -> x ∈ l -> sumZ (map f l) <= f x.
Proof.
  induction 1 as [| y l Hy Hl IH]; intros Hin; [inversion Hin |].
  assert (Hs : sumZ (map f l) <= 0).
  { clear -Hl. induction Hl; cbn [map sumZ]; lia. }
  cbn [map sumZ]. apply elem_of_cons in Hin as [-> | Hin]; [lia |].
  specialize (IH Hin). lia.
Qed.

(** X9.  For a duplicate-free member list that contains every payer and
    every split member, and whole-number amounts (moving less than [2^53]
    in total) whose splits add up to the amount of each expense, the
    binary64 balances are whole numbers of which the positive ones add up
    to what the negative ones add up to; so whenever a row shows a debt,
    the settle button finds a creditor, a member with a balance above 0.
    With cents this fails: B lends A 0.10, C lends A 0.20 and A pays 0.30
    for both; every expense reconciles exactly, A is left with a debt of
    5.6e-17, B and C with 0, and the settle button finds nobody. *)
Theorem a_debtor_always_finds_a_creditor
    (es : list (GroupExpense Z)) (ms : list GroupMember) (out : list (Balance float)) :
  NoDup (map user_id ms) ->
  Forall (within_group ms) es ->
  Forall (fun e => gap e = 0) es ->
  volume es < 2 ^ 53 ->
  calculateBalances (Some (map whole_expense es)) (Some ms) = Some out ->
  (exists whole : list Z,
     map balance out = map float_of_Z whole
     /\ sumZ (map (fun z => Z.max z 0) whole) = sumZ (map (fun z => Z.max (- z) 0) whole))
  /\ (forall b, b ∈ out -> (balance b <? 0)%float = true ->
        exists c, GroupsPage.find_creditor (fun x => (0 <? x)%float) out = Some c
                  /\ (0 <? balance c)%float = true)
  /\ (Forall (fun e => gap e = 0) [lend_b; lend_c; pay_back]
      /\ forallb reconciles (map read_expense [lend_b; lend_c; pay_back]) = true
      /\ option_map (map balance)
           (calculateBalances (Some (map read_expense [lend_b; lend_c; pay_back]))
              (Some [ann; bob; carol]))
         = Some [(-5.551115123125783e-17)%float; 0%float; 0%float]
      /\ option_map (GroupsPage.find_creditor (fun x => (0 <? x)%float))
           (calculateBalances (Some (map read_expense [lend_b; lend_c; pay_back]))
              (Some [ann; bob; carol]))
         = Some None).
Proof.
  intros Hids Hes Hrec Hv Hout. cbn in Hout. injection Hout as <-.
  set (whole := map (fun m => get_or0 (balanceMap es) (user_id m)) ms).
  assert (Hbal : map balance (map (balance_of (balanceMap (map whole_expense es))) ms)
                 = map float_of_Z whole).
  { unfold whole. rewrite !map_map. apply map_ext. intros m. cbn [balance_of balance].
    apply (whole_get_or0_balanceMap es (user_id m) Hv). }
  assert (Hsum : sumZ whole = 0).
  { pose proof (exact_balances_total es ms Hids Hes) as Hs.
    rewrite map_map in Hs. cbn [balance_of balance] in Hs. unfold whole. rewrite Hs.
    unfold total_gap. clear -Hrec. induction Hrec as [| e es He _ IH]; cbn [map sumZ]; lia. }
  assert (Hsmall : forall m, Z.abs (get_or0 (balanceMap es) (user_id m)) < 2 ^ 53).
  { intros m. pose proof (proj2 (whole_get_or0_balanceMap es (user_id m) Hv)). lia. }
  split; [| split].
  - exists whole. split; [exact Hbal |].
    pose proof (sumZ_positive_and_negative_parts (fun z : Z => z) whole) as Hparts.
    cbn beta in Hparts. rewrite map_id in Hparts. lia.
  - intros b Hb Hneg. unfold GroupsPage.find_creditor.
    pose proof (find_first (fun c : Balance float => (0 <? balance c)%float)
                  (map (balance_of (balanceMap (map whole_expense es))) ms)) as Hf.
    destruct (List.find _ _) as [c |].
    + destruct Hf as (_ & _ & _ & _ & Hc). exists c. split; [reflexivity | exact Hc].
    + exfalso.
      apply list_elem_of_fmap in Hb as (mb & -> & Hmb). cbn [balance_of balance] in Hneg.
      rewrite (proj1 (whole_get_or0_balanceMap es (user_id mb) Hv)) in Hneg.
      rewrite float_of_Z_negative in Hneg by apply Hsmall. apply Z.ltb_lt in Hneg.
      assert (Hall : Forall (fun m => get_or0 (balanceMap es) (user_id m) <= 0) ms).
      { apply Forall_forall. intros m Hm.
        rewrite Forall_forall in Hf.
        specialize (Hf (balance_of (balanceMap (map whole_expense es)) m)
                      (proj2 (list_elem_of_fmap _ _ _) (ex_intro _ m (conj eq_refl Hm)))).
        cbn [balance_of balance] in Hf.
        rewrite (proj1 (whole_get_or0_balanceMap es (user_id m) Hv)) in Hf.
        rewrite float_of_Z_positive in Hf by apply Hsmall. apply Z.ltb_ge in Hf. exact Hf. }
      pose proof (sumZ_nonpositive (fun m => get_or0 (balanceMap es) (user_id m)) ms mb
                    Hall Hmb) as Hle.
      cbn beta in Hle. unfold whole in Hsum. lia.
  - repeat split; try (vm_compute; reflexivity). repeat constructor.
Qed.

Lemma a_debtor_always_finds_a_creditor_witness :
  (exists whole : list Z,
     map balance (map (balance_of (balanceMap (map whole_expense [supper]))) [ann; bob])
     = map float_of_Z whole
     /\ sumZ (map (fun z => Z.max z 0) whole) = sumZ (map (fun z => Z.max (- z) 0) whole))
  /\ (forall b,
        b ∈ map (balance_of (balanceMap (map whole_expense [supper]))) [ann; bob] ->
        (balance b <? 0)%float = true ->
        exists c, GroupsPage.find_creditor (fun x => (0 <? x)%float)
                    (map (balance_of (balanceMap (map whole_expense [supper]))) [ann; bob])
                  = Some c
                  /\ (0 <? balance c)%float = true)
  /\ (Forall (fun e => gap e = 0) [lend_b; lend_c; pay_back]
      /\ forallb reconciles (map read_expense [lend_b; lend_c; pay_back]) = true
      /\ option_map (map balance)
           (calculateBalances (Some (map read_expense [lend_b; lend_c; pay_back]))
              (Some [ann; bob; carol]))
         = Some [(-5.551115123125783e-17)%float; 0%float; 0%float]
      /\ option_map (GroupsPage.find_creditor (fun x => (0 <? x)%float))
           (calculateBalances (Some (map read_expense [lend_b; lend_c; pay_back]))
              (Some [ann; bob; carol]))
         = Some None).
Proof.
  apply (a_debtor_always_finds_a_creditor [supper] [ann; bob]).
  - apply (bool_decide_unpack (NoDup (map user_id [ann; bob]))). vm_compute. exact I.
  - repeat constructor.
  - repeat constructor.
  - vm_compute. reflexivity.
  - reflexivity.
Defined.

(* --------------------------------------------------------------------- *)
(** ** 22. Creating a group *)
(* --------------------------------------------------------------------- *)

Section BlankFacts.
Import GroupsPage.








End BlankFacts.

Section CreateGroupFacts.
Import GroupsPage.
Variable userId : string.

Abbreviation create := (createGroup userId).


(** X11.  When the group row is stored and the membership of the creator is
    refused, the group exists but is not among the groups that
    [loadGroups] shows to its creator, although the dialog has closed as
    after a success: the new group (whose id no membership row carries
    yet) is listed for the creator exactly when the second insert
    succeeded, and for nobody else either way. *)
Theorem new_group_is_listed_only_with_its_membership
    (d : Dialog) (be : Backend) (db : Database) (gid : string) :
  is_blank (newGroupName d) = false ->
  groups_insert be = inl gid ->
  Forall (fun m => m_group_id m <> gid) (group_members db) ->
  gid ∈ map fst (groups (database (create d be db)))
  /\ showCreateModal (dialog (create d be db)) = false
  /\ (gid ∈ visible_groups userId (database (create d be db))
      <-> group_members_insert be = None)
  /\ (forall someone, someone <> userId ->
        gid ∉ visible_groups someone (database (create d be db))).
Proof.
  intros Hb Hg Hfresh. unfold createGroup. rewrite Hb, Hg. cbn [database dialog showCreateModal].
  assert (Hold : forall who, ~ Exists (fun m => m_group_id m = gid /\ m_user_id m = who)
                               (group_members db)).
  { intros who Hex. apply Exists_exists in Hex as (m & Hm & Hgid & _).
    rewrite Forall_forall in Hfresh. exact (Hfresh m Hm Hgid). }
  assert (Hvis : forall who members,
            gid ∈ visible_groups who
                    {| groups := groups db ++ [(gid,
                                   {| name := newGroupName d;
                                      description := if decide (newGroupDescription d = "")
                                                     then None
                                                     else Some (newGroupDescription d);
                                      type := newGroupType d;
                                      created_by := userId |})];
                       group_members := members |}
            <-> Exists (fun m => m_group_id m = gid /\ m_user_id m = who) members).
  { intros who members. unfold visible_groups. cbn [groups group_members].
    rewrite list_elem_of_fmap. split.
    - intros ([g row] & Hfst & Hin). cbn in Hfst. subst g.
      apply list_elem_of_filter in Hin as [Hp _].
      apply bool_decide_unpack in Hp. exact Hp.
    - intros Hex. eexists (gid, _). split; [reflexivity |].
      apply list_elem_of_filter. split.
      + apply bool_decide_pack. exact Hex.
      + apply elem_of_app. right. left. }
  split.
  { destruct (group_members_insert be); cbn [groups];
      rewrite map_app; apply elem_of_app; right; left. }
  split; [reflexivity |].
  split.
  - destruct (group_members_insert be) as [msg |]; cbn [groups group_members].
    + split; [| discriminate]. intros Hin. apply Hvis in Hin. destruct (Hold _ Hin).
    + split; [reflexivity |]. intros _. apply Hvis.
      apply Exists_app. right. left. split; reflexivity.
  - intros someone Hne Hin.
    destruct (group_members_insert be) as [msg |]; cbn [groups group_members] in Hin;
      apply Hvis in Hin.
    + destruct (Hold _ Hin).
    + apply Exists_app in Hin as [Hin | Hin]; [destruct (Hold _ Hin) |].
      apply Exists_cons in Hin as [[_ Hu] | Hin]; [cbn in Hu; congruence | inversion Hin].
Qed.

End CreateGroupFacts.

Lemma new_group_is_listed_only_with_its_membership_witness :
  let d := {| GroupsPage.showCreateModal := true; GroupsPage.newGroupName := "Goa";
              GroupsPage.newGroupDescription := ""; GroupsPage.newGroupType := GroupsPage.trip |} in
  let be := {| GroupsPage.groups_insert := inl "g1";
               GroupsPage.group_members_insert := Some "permission denied" |} in
  let db := {| GroupsPage.groups := []; GroupsPage.group_members := [] |} in
  "g1" ∈ map fst (GroupsPage.groups (GroupsPage.database (GroupsPage.createGroup "A" d be db)))
  /\ GroupsPage.showCreateModal (GroupsPage.dialog (GroupsPage.createGroup "A" d be db)) = false
  /\ ("g1" ∈ GroupsPage.visible_groups "A"
               (GroupsPage.database (GroupsPage.createGroup "A" d be db))
      <-> GroupsPage.group_members_insert be = None)
  /\ (forall someone, someone <> "A" ->
        "g1" ∉ GroupsPage.visible_groups someone
                 (GroupsPage.database (GroupsPage.createGroup "A" d be db))).
Proof.
  cbv zeta.
  apply (new_group_is_listed_only_with_its_membership "A").
  - reflexivity.
  - reflexivity.
  - constructor.
Defined.

(* --------------------------------------------------------------------- *)
(** ** 23. The figures of the Analytics page *)
(* --------------------------------------------------------------------- *)

Lemma filter_not_in_snoc (keys : list string) (k : string) (l : list string) :
  filter (fun x => x ∉ keys ++ [k]) l = filter (fun x => x ∉ keys) (filter (fun x => x <> k) l).
Proof.
  rewrite list_filter_filter. apply list_filter_iff. intros x.
  rewrite elem_of_app, list_elem_of_singleton. tauto.
Qed.

Lemma filter_not_in_old (keys : list string) (k : string) (l : list string) :
  k ∈ keys ->
  filter (fun x => x ∉ keys) (filter (fun x => x <> k) l) = filter (fun x => x ∉ keys) l.
Proof.
  intros Hk. rewrite list_filter_filter. apply list_filter_iff. intros x.
  split; [tauto |]. intros Hx. split; [exact Hx |]. intros ->. exact (Hx Hk).
Qed.

Lemma filter_not_in_nil (l : list string) : filter (fun x => x ∉ @nil string) l = l.
Proof.
  induction l as [| x l IH]; [reflexivity |].
  rewrite filter_cons_True by (intros Hin; inversion Hin). now rewrite IH.
Qed.

Lemma first_occurrences_spec (l : list string) :
  NoDup (first_occurrences l) /\ forall k, k ∈ first_occurrences l <-> k ∈ l.
Proof.
  induction l as [| k l [IHn IHm]]; cbn [first_occurrences].
  - split; [constructor | tauto].
  - split.
    + constructor; [| exact (NoDup_filter _ _ IHn)].
      rewrite list_elem_of_filter. tauto.
    + intros k'. rewrite !elem_of_cons, list_elem_of_filter, IHm.
      destruct (decide (k' = k)); tauto.
Qed.

Section AnalyticsFacts.
Import Analytics.
Context {num : Type} `{JsNumber num}.

Lemma categoryData_keys (es : list (ExpenseRow num)) (cm : list (string * (num * string))) :
  map fst (fold_left add_to_category es cm)
  = map fst cm
    ++ filter (fun k => k ∉ map fst cm) (first_occurrences (map category_name es)).
Proof.
  revert cm. induction es as [| e es IH]; intros cm; cbn [fold_left map first_occurrences].
  - rewrite filter_nil, app_nil_r. reflexivity.
  - rewrite IH.
    assert (Hkeys : map fst (add_to_category cm e)
                    = if decide (category_name e ∈ map fst cm) then map fst cm
                      else map fst cm ++ [category_name e]) by apply assoc_set_keys.
    rewrite Hkeys. clear Hkeys.
    destruct (decide (category_name e ∈ map fst cm)) as [Hin | Hn].
    + rewrite filter_cons_False by tauto.
      rewrite filter_not_in_old by exact Hin. reflexivity.
    + rewrite filter_cons_True by exact Hn.
      rewrite filter_not_in_snoc, <- app_assoc. reflexivity.
Qed.

Lemma categoryData_lookup (es : list (ExpenseRow num)) (cm : list (string * (num * string)))
    (k : string) :
  assoc_get (fold_left add_to_category es cm) k
  = match assoc_get cm k, filter (fun e => category_name e = k) es with
    | Some c, _ => Some (fold_left n_add (amounts_of k es) (fst c), snd c)
    | None, [] => None
    | None, e :: _ => Some (fold_left n_add (amounts_of k es) n_zero, category_color e)
    end.
Proof.
  revert cm. induction es as [| e es IH]; intros cm.
  - cbn. destruct (assoc_get cm k) as [[v c] |]; reflexivity.
  - cbn [fold_left]. rewrite IH. unfold amounts_of.
    rewrite !filter_cons.
    destruct (decide (category_name e = k)) as [E | E].
    + cbn [map fold_left].
      unfold add_to_category. rewrite E, assoc_get_set_eq. cbn [fst snd].
      destruct (assoc_get cm k) as [[v c] |]; reflexivity.
    + unfold add_to_category. rewrite assoc_get_set_ne by congruence. reflexivity.
Qed.

(** X12.  The categories of the pie chart are the category names of the
    expenses, each once, in the order of their first expense; the value of
    a category is the amounts of its expenses added one after the other
    from 0, in the order of the expenses, and its colour is the colour
    that its first expense carries. *)
Theorem categoryData_groups_by_first_occurrence (es : list (ExpenseRow num)) :
  map fst (categoryData es) = first_occurrences (map category_name es)
  /\ NoDup (map fst (categoryData es))
  /\ (forall k, k ∈ map fst (categoryData es) <-> k ∈ map category_name es)
  /\ (forall k first rest,
        filter (fun e => category_name e = k) es = first :: rest ->
        assoc_get (categoryData es) k
        = Some (fold_left n_add (amounts_of k es) n_zero, category_color first)).
Proof.
  assert (Hk : map fst (categoryData es) = first_occurrences (map category_name es)).
  { unfold categoryData. rewrite categoryData_keys. cbn [map app].
    apply filter_not_in_nil. }
  split; [exact Hk |]. rewrite Hk.
  split; [apply first_occurrences_spec |].
  split; [apply first_occurrences_spec |].
  intros k first rest Hf. unfold categoryData. rewrite categoryData_lookup, Hf. reflexivity.
Qed.

End AnalyticsFacts.

Lemma assoc_set_sum {V : Type} (g : V -> Z) (o : list (string * V)) (k : string) (v : V) :
  sumZ (map (fun p => g (snd p)) (assoc_set o k v))
  = sumZ (map (fun p => g (snd p)) o)
    - match assoc_get o k with Some v' => g v' | None => 0 end
    + g v.
Proof.
  induction o as [| [k' v'] o IH]; cbn [assoc_set assoc_get map sumZ snd]; [lia |].
  destruct (decide (k' = k)); cbn [map sumZ snd]; lia.
Qed.

Lemma assoc_set_sum_values (o : list (string * Z)) (k : string) (v : Z) :
  sumZ (map snd (assoc_set o k v))
  = sumZ (map snd o) - match assoc_get o k with Some v' => v' | None => 0 end + v.
Proof. exact (assoc_set_sum (fun x => x) o k v). Qed.

Lemma assoc_get_map {V W : Type} (f : V -> W) (o : list (string * V)) (k : string) :
  assoc_get (map (fun kv => (fst kv, f (snd kv))) o) k = option_map f (assoc_get o k).
Proof.
  induction o as [| [k' v'] o IH]; [reflexivity |]. cbn.
  destruct (decide (k' = k)); [reflexivity | exact IH].
Qed.

Lemma assoc_set_map {V W : Type} (f : V -> W) (o : list (string * V)) (k : string) (v : V) :
  assoc_set (map (fun kv => (fst kv, f (snd kv))) o) k (f v)
  = map (fun kv => (fst kv, f (snd kv))) (assoc_set o k v).
Proof.
  induction o as [| [k' v'] o IH]; [reflexivity |]. cbn.
  destruct (decide (k' = k)); [reflexivity |]. cbn. rewrite IH. reflexivity.
Qed.

Lemma float_of_Z_clean (z : Z) : Z.abs z < 2 ^ 53 -> clean (float_of_Z z).
Proof.
  intros Hz. unfold clean. rewrite Prim2SF_float_of_Z by exact Hz.
  destruct z; split; discriminate.
Qed.

Section AnalyticsTotals.
Import Analytics.
Variable monthKey : string -> string.

Lemma exact_month_or0 (mm : list (string * Z)) (k : string) :
  month_or0 mm k = match assoc_get mm k with Some x => x | None => 0 end.
Proof.
  unfold month_or0. destruct (assoc_get mm k) as [x |]; [| reflexivity].
  cbn. destruct (Z.eqb_spec x 0); cbn; congruence.
Qed.

Lemma exact_category_sum (es : list (ExpenseRow Z)) (cm : list (string * (Z * string))) :
  sumZ (map (fun p => fst (snd p)) (fold_left add_to_category es cm))
  = sumZ (map (fun p => fst (snd p)) cm) + sumZ (map amount es).
Proof.
  revert cm. induction es as [| e es IH]; intros cm; cbn [fold_left map sumZ]; [lia |].
  rewrite IH. unfold add_to_category. rewrite (assoc_set_sum fst). cbn [fst n_add hundredths].
  destruct (assoc_get cm (category_name e)) as [c |]; cbn; lia.
Qed.

Lemma exact_month_sum (es : list (ExpenseRow Z)) (mm : list (string * Z)) :
  sumZ (map snd (fold_left (add_to_month monthKey) es mm))
  = sumZ (map snd mm) + sumZ (map amount es).
Proof.
  revert mm. induction es as [| e es IH]; intros mm; cbn [fold_left map sumZ]; [lia |].
  rewrite IH. unfold add_to_month.
  rewrite assoc_set_sum_values, exact_month_or0. cbn [n_add hundredths].
  destruct (assoc_get mm (monthKey (expense_date e))); lia.
Qed.

Lemma exact_month_lookup (es : list (ExpenseRow Z)) (mm : list (string * Z)) (k : string) :
  assoc_get (fold_left (add_to_month monthKey) es mm) k
  = match assoc_get mm k, filter (fun e => monthKey (expense_date e) = k) es with
    | Some v, l => Some (v + sumZ (map amount l))
    | None, [] => None
    | None, l => Some (sumZ (map amount l))
    end.
Proof.
  revert mm. induction es as [| e es IH]; intros mm.
  - cbn. destruct (assoc_get mm k); [f_equal; lia | reflexivity].
  - cbn [fold_left]. rewrite IH, filter_cons.
    unfold add_to_month at 1. rewrite exact_month_or0.
    destruct (decide (monthKey (expense_date e) = k)) as [E | E].
    + rewrite E, assoc_get_set_eq. cbn [map sumZ n_add hundredths].
      destruct (assoc_get mm k); f_equal; lia.
    + rewrite assoc_get_set_ne by congruence. reflexivity.
Qed.

Lemma assoc_set_abs_sum {V : Type} (g : V -> Z) (o : list (string * V)) (k : string) (v : V) :
  sumZ (map (fun p => Z.abs (g (snd p))) (assoc_set o k v))
  = sumZ (map (fun p => Z.abs (g (snd p))) o)
    - match assoc_get o k with Some v' => Z.abs (g v') | None => 0 end
    + Z.abs (g v).
Proof. exact (assoc_set_sum (fun x => Z.abs (g x)) o k v). Qed.

Lemma abs_sum_lookup {V : Type} (g : V -> Z) (o : list (string * V)) (k : string) :
  0 <= sumZ (map (fun p => Z.abs (g (snd p))) o)
  /\ match assoc_get o k with
     | Some v' => Z.abs (g v')
     | None => 0
     end <= sumZ (map (fun p => Z.abs (g (snd p))) o).
Proof.
  induction o as [| [k' v'] o [IH1 IH2]]; cbn [map sumZ assoc_get snd]; [lia |].
  destruct (decide (k' = k)); cbv beta iota; lia.
Qed.

Lemma whole_categoryData (rows : list (ExpenseRow Z)) (cm : list (string * (Z * string))) :
  sumZ (map (fun p => Z.abs (fst (snd p))) cm)
  + sumZ (map (fun r => Z.abs (amount r)) rows) < 2 ^ 53 ->
  fold_left add_to_category (map whole_row rows) (map whole_category cm)
  = map whole_category (fold_left add_to_category rows cm)
  /\ sumZ (map (fun p => Z.abs (fst (snd p))) (fold_left add_to_category rows cm))
     <= sumZ (map (fun p => Z.abs (fst (snd p))) cm)
        + sumZ (map (fun r => Z.abs (amount r)) rows).
Proof.
  revert cm. induction rows as [| r rows IH]; intros cm Hb; cbn [map fold_left sumZ] in *.
  - split; [reflexivity | lia].
  - pose proof (abs_sum_lookup fst cm (category_name r)) as [Hnn Hk].
    assert (Hrows : 0 <= sumZ (map (fun r => Z.abs (amount r)) rows)).
    { clear. induction rows as [| x l IH]; cbn [map sumZ]; lia. }
    assert (Hstep : add_to_category (map whole_category cm) (whole_row r)
                    = map whole_category (add_to_category cm r)).
    { unfold add_to_category. cbn [whole_row category_name amount category_color].
      unfold whole_category at 1.
      rewrite (assoc_get_map (fun vc : Z * string => (float_of_Z (fst vc), snd vc))).
      revert Hk. destruct (assoc_get cm (category_name r)) as [[v c] |]; intros Hk;
        cbn [option_map fst snd n_add n_zero binary64 hundredths] in *.
      - rewrite float_of_Z_add by lia.
        exact (assoc_set_map (fun vc : Z * string => (float_of_Z (fst vc), snd vc))
                 cm (category_name r) (v + amount r, c)).
      - rewrite <- float_of_Z_zero, float_of_Z_add by lia.
        exact (assoc_set_map (fun vc : Z * string => (float_of_Z (fst vc), snd vc))
                 cm (category_name r) (0 + amount r, category_color r)). }
    assert (Hvol : sumZ (map (fun p => Z.abs (fst (snd p))) (add_to_category cm r))
                   <= sumZ (map (fun p => Z.abs (fst (snd p))) cm) + Z.abs (amount r)).
    { unfold add_to_category. rewrite (assoc_set_abs_sum fst).
      revert Hk. destruct (assoc_get cm (category_name r)) as [[v c] |]; intros Hk;
        cbn [fst snd n_add n_zero hundredths] in *; lia. }
    rewrite Hstep. destruct (IH (add_to_category cm r)) as [E Hle]; [lia |].
    split; [exact E | lia].
Qed.

Lemma whole_month_or0 (mm : list (string * Z)) (k : string) :
  sumZ (map (fun p => Z.abs (snd p)) mm) < 2 ^ 53 ->
  month_or0 (map whole_bar mm) k = float_of_Z (month_or0 mm k).
Proof.
  intros Hb. pose proof (abs_sum_lookup (fun x : Z => x) mm k) as [_ Hk].
  unfold month_or0, whole_bar. rewrite (assoc_get_map float_of_Z).
  destruct (assoc_get mm k) as [x |]; cbn [option_map].
  - change (@n_truthy float binary64) with float_truthy.
    change (@n_zero float binary64) with 0%float.
    rewrite clean_or0 by (apply float_of_Z_clean; lia).
    rewrite hundredths_or0. reflexivity.
  - symmetry. apply float_of_Z_zero.
Qed.

Lemma whole_monthEntries (rows : list (ExpenseRow Z)) (mm : list (string * Z)) :
  sumZ (map (fun p => Z.abs (snd p)) mm)
  + sumZ (map (fun r => Z.abs (amount r)) rows) < 2 ^ 53 ->
  fold_left (add_to_month monthKey) (map whole_row rows) (map whole_bar mm)
  = map whole_bar (fold_left (add_to_month monthKey) rows mm)
  /\ sumZ (map (fun p => Z.abs (snd p)) (fold_left (add_to_month monthKey) rows mm))
     <= sumZ (map (fun p => Z.abs (snd p)) mm)
        + sumZ (map (fun r => Z.abs (amount r)) rows).
Proof.
  revert mm. induction rows as [| r rows IH]; intros mm Hb; cbn [map fold_left sumZ] in *.
  - split; [reflexivity | lia].
  - pose proof (abs_sum_lookup (fun x : Z => x) mm (monthKey (expense_date r))) as [Hnn Hk].
    assert (Hrows : 0 <= sumZ (map (fun r => Z.abs (amount r)) rows)).
    { clear. induction rows as [| x l IH]; cbn [map sumZ]; lia. }
    assert (Hor0 : month_or0 mm (monthKey (expense_date r))
                   = match assoc_get mm (monthKey (expense_date r)) with
                     | Some x => x
                     | None => 0
                     end) by apply exact_month_or0.
    assert (Hstep : add_to_month monthKey (map whole_bar mm) (whole_row r)
                    = map whole_bar (add_to_month monthKey mm r)).
    { unfold add_to_month. cbn [whole_row expense_date amount].
      rewrite whole_month_or0 by lia.
      change (@n_add float binary64) with PrimFloat.add.
      change (@n_add Z hundredths) with Z.add.
      rewrite Hor0. revert Hk.
      destruct (assoc_get mm (monthKey (expense_date r))) as [x |]; intros Hk;
        (rewrite float_of_Z_add by lia); apply (assoc_set_map float_of_Z). }
    assert (Hvol : sumZ (map (fun p => Z.abs (snd p)) (add_to_month monthKey mm r))
                   <= sumZ (map (fun p => Z.abs (snd p)) mm) + Z.abs (amount r)).
    { unfold add_to_month. rewrite (assoc_set_abs_sum (fun x : Z => x)), Hor0.
      change (@n_add Z hundredths) with Z.add.
      revert Hk. destruct (assoc_get mm (monthKey (expense_date r))); intros Hk; lia. }
    rewrite Hstep. destruct (IH (add_to_month monthKey mm r)) as [E Hle]; [lia |].
    split; [exact E | lia].
Qed.

(** X13.  For rows whose amounts are whole numbers (less than [2^53] in
    total magnitude), the binary64 figures of the Analytics page are exact:
    the categories and the bars of the period chart hold the whole-number
    sums, and the total shown, the sum of the category values, is the sum
    of the amounts of the rows, as is the sum of the bars.  In exact
    two-decimal arithmetic the same holds for every amount, and the bar of
    a period is the sum of the amounts of the rows whose date has that key.
    With cents the binary64 total depends on how the rows fall into
    categories: rows of 0.30, 0.10 and 0.20 with the first and the last in
    one category give the total 0.6, where the rows added in order give
    0.6000000000000001. *)
Theorem analytics_totals_are_the_sum_of_the_amounts (rows : list (ExpenseRow Z)) :
  sumZ (map (fun r => Z.abs (amount r)) rows) < 2 ^ 53 ->
  (categoryData (map whole_row rows) = map whole_category (categoryData rows)
   /\ totalExpense (categoryData (map whole_row rows))
      = float_of_Z (sumZ (map amount rows))
   /\ monthEntries monthKey (map whole_row rows)
      = map whole_bar (monthEntries monthKey rows)
   /\ n_sum (map snd (monthEntries monthKey (map whole_row rows)))
      = float_of_Z (sumZ (map amount rows)))
  /\ (forall hs : list (ExpenseRow Z),
        totalExpense (categoryData hs) = sumZ (map amount hs)
        /\ sumZ (map snd (monthEntries monthKey hs)) = sumZ (map amount hs)
        /\ (forall k, k ∈ map (fun e => monthKey (expense_date e)) hs ->
              assoc_get (monthEntries monthKey hs) k
              = Some (sumZ (map amount
                              (filter (fun e => monthKey (expense_date e) = k) hs)))))
  /\ (totalExpense (categoryData mixed_rows) = 0.6%float
      /\ n_sum (map amount mixed_rows) = 0.6000000000000001%float).
Proof.
  intros Hb.
  assert (Hexact : forall hs : list (ExpenseRow Z),
            totalExpense (categoryData hs) = sumZ (map amount hs)
            /\ sumZ (map snd (monthEntries monthKey hs)) = sumZ (map amount hs)
            /\ (forall k, k ∈ map (fun e => monthKey (expense_date e)) hs ->
                  assoc_get (monthEntries monthKey hs) k
                  = Some (sumZ (map amount
                                  (filter (fun e => monthKey (expense_date e) = k) hs))))).
  { intros hs. split; [| split].
    - unfold totalExpense.
      assert (Hfold : forall (l : list (string * (Z * string))) a,
                 fold_left (fun sum cat => n_add sum (fst (snd cat))) l a
                 = a + sumZ (map (fun p => fst (snd p)) l)).
      { induction l as [| p l IH]; intros a; cbn [fold_left map sumZ]; [lia |].
        rewrite IH. cbn. lia. }
      rewrite Hfold. unfold categoryData. rewrite exact_category_sum. cbn. lia.
    - unfold monthEntries. rewrite exact_month_sum. reflexivity.
    - intros k Hk. unfold monthEntries. rewrite exact_month_lookup. cbn [assoc_get].
      destruct (filter _ hs) as [| e l] eqn:Hf; [| reflexivity].
      exfalso. apply list_elem_of_fmap in Hk as (e & -> & He).
      assert (Hin : e ∈ filter (fun e' => monthKey (expense_date e')
                                          = monthKey (expense_date e)) hs)
        by (apply list_elem_of_filter; split; [reflexivity | exact He]).
      rewrite Hf in Hin. inversion Hin. }
  split; [| split; [exact Hexact | split; vm_compute; reflexivity]].
  destruct (whole_categoryData rows []) as [Ec Hc]; [cbn; lia |].
  destruct (whole_monthEntries rows []) as [Em Hm]; [cbn; lia |].
  cbn [map sumZ] in Hc, Hm.
  change (map whole_category []) with (@nil (string * (float * string))) in Ec.
  change (map whole_bar []) with (@nil (string * float)) in Em.
  fold (categoryData (map whole_row rows)) in Ec. fold (categoryData rows) in Ec, Hc.
  fold (monthEntries monthKey (map whole_row rows)) in Em.
  fold (monthEntries monthKey rows) in Em, Hm.
  destruct (Hexact rows) as (Ht & Hs & _).
  split; [exact Ec |]. split; [| split; [exact Em |]].
  - rewrite Ec. unfold totalExpense.
    change (@n_zero float binary64) with 0%float.
    rewrite <- float_of_Z_zero.
    assert (Hfold : forall (l : list (string * (Z * string))) a,
               Z.abs a + sumZ (map (fun p => Z.abs (fst (snd p))) l) < 2 ^ 53 ->
               fold_left (fun sum cat => n_add sum (fst (snd cat))) (map whole_category l)
                 (float_of_Z a)
               = float_of_Z (fold_left (fun sum cat => n_add sum (fst (snd cat))) l a)).
    { induction l as [| p l IH]; intros a Ha; cbn [fold_left map sumZ] in *; [reflexivity |].
      assert (0 <= sumZ (map (fun p => Z.abs (fst (snd p))) l))
        by (clear; induction l as [| x l IH]; cbn [map sumZ]; lia).
      cbn [whole_category fst snd n_add binary64 hundredths].
      rewrite float_of_Z_add by lia. apply IH. lia. }
    rewrite Hfold by (cbn; lia). f_equal. exact Ht.
  - rewrite Em. unfold n_sum.
    change (@n_zero float binary64) with 0%float.
    change (@n_add float binary64) with PrimFloat.add.
    rewrite map_map. cbn [whole_bar snd].
    rewrite <- (map_map snd float_of_Z), <- float_of_Z_zero, fold_whole.
    + f_equal. cbn. exact Hs.
    + rewrite map_map. cbn. lia.
Qed.

End AnalyticsTotals.

Lemma analytics_totals_are_the_sum_of_the_amounts_witness :
  let rows := [ {| Analytics.amount := 250; Analytics.expense_date := "2024-01-05";
                   Analytics.category_name := "Food"; Analytics.category_color := "#f00" |};
                {| Analytics.amount := 1200; Analytics.expense_date := "2024-01-05";
                   Analytics.category_name := "Rent"; Analytics.category_color := "#00f" |};
                {| Analytics.amount := 80; Analytics.expense_date := "2024-01-09";
                   Analytics.category_name := "Food"; Analytics.category_color := "#f00" |} ] in
  Analytics.totalExpense (Analytics.categoryData (map Analytics.whole_row rows))
  = float_of_Z (sumZ (map Analytics.amount rows))
  /\ Analytics.categoryData (map Analytics.whole_row rows)
     = [("Food", (330%float, "#f00")); ("Rent", (1200%float, "#00f"))]
  /\ Analytics.totalExpense (Analytics.categoryData (map Analytics.whole_row rows))
     = 1530%float.
Proof.
  cbv zeta. split.
  - refine (proj1 (proj2 (proj1
             (analytics_totals_are_the_sum_of_the_amounts (fun d => d) _ _)))).
    vm_compute. reflexivity.
  - split; vm_compute; reflexivity.
Defined.

(* --------------------------------------------------------------------- *)
(** ** 24. More on the settlement link *)
(* --------------------------------------------------------------------- *)

Lemma count_char_app (c : ascii) (s t : string) :
  count_char c (s +:+ t) = (count_char c s + count_char c t)%nat.
Proof.
  induction s as [| x s IH]; [reflexivity |].
  rewrite append_cons. cbn [count_char]. rewrite IH. lia.
Qed.

Lemma all_chars_app (p : ascii -> bool) (s t : string) :
  all_chars p (s +:+ t) = all_chars p s && all_chars p t.
Proof.
  induction s as [| x s IH]; [reflexivity |].
  rewrite append_cons. cbn [all_chars]. rewrite IH, andb_assoc. reflexivity.
Qed.

Lemma all_chars_impl (p q : ascii -> bool) (s : string) :
  (forall c, p c = true -> q c = true) -> all_chars p s = true -> all_chars q s = true.
Proof.
  intros Hpq. induction s as [| x s IH]; [reflexivity |]. cbn [all_chars].
  intros Hs. apply andb_prop in Hs as [Hx Hs]. rewrite (Hpq x Hx), IH by exact Hs. reflexivity.
Qed.

Lemma count_char_absent (p : ascii -> bool) (c : ascii) (s : string) :
  p c = false -> all_chars p s = true -> count_char c s = O.
Proof.
  intros Hc. induction s as [| x s IH]; [reflexivity |]. cbn [all_chars count_char].
  intros Hs. apply andb_prop in Hs as [Hx Hs]. rewrite IH by exact Hs.
  destruct (Ascii.eqb_spec x c) as [-> | _]; [congruence | reflexivity].
Qed.

Lemma urlencode_chars (s : string) : all_chars is_encoded_char (GooglePay.urlencode s) = true.
Proof.
  induction s as [| c r IH]; [reflexivity |].
  cbn [GooglePay.urlencode].
  destruct c as [[] [] [] [] [] [] [] []]; cbn; exact IH.
Qed.

Section LinkSafety.
Import GooglePay.
Variable numberToString : float -> string.

(** X14.  Whatever the payee, the name, the note and the amount are (also
    with [&], [=], [#], spaces or line breaks in them, and also for an
    amount that is [NaN], infinite or written by the runtime in exponent
    notation), the link is [upi://pay?] followed by a query with exactly
    four [&] and five [=], so with exactly the five fields, and every other
    character of the query is an ASCII letter or digit or one of
    [* - . _ + %]. *)
Theorem generateGooglePayUrl_always_has_five_fields (p : GooglePayParams) :
  exists query,
    generateGooglePayUrl numberToString p = "upi://pay?" +:+ query
    /\ count_char "&" query = 4%nat
    /\ count_char "=" query = 5%nat
    /\ all_chars (fun c => is_encoded_char c || Ascii.eqb c "&" || Ascii.eqb c "=") query
       = true.
Proof.
  exists ("pa=" +:+ urlencode (upiId p)
          +:+ "&pn=" +:+ urlencode (name p)
          +:+ "&am=" +:+ urlencode (toFixed2 numberToString (amount p))
          +:+ "&cu=INR&tn=" +:+ urlencode (note p)).
  split; [| split; [| split]].
  - rewrite (generateGooglePayUrl_text numberToString).
    repeat first [rewrite append_cons | rewrite append_nil]. reflexivity.
  - rewrite !count_char_app.
    rewrite !(count_char_absent is_encoded_char "&" (urlencode _) eq_refl (urlencode_chars _)).
    reflexivity.
  - rewrite !count_char_app.
    rewrite !(count_char_absent is_encoded_char "=" (urlencode _) eq_refl (urlencode_chars _)).
    reflexivity.
  - rewrite !all_chars_app.
    assert (He : forall s,
               all_chars (fun c => is_encoded_char c || Ascii.eqb c "&" || Ascii.eqb c "=")
                 (urlencode s) = true).
    { intros s. apply (all_chars_impl is_encoded_char); [| apply urlencode_chars].
      intros c ->. reflexivity. }
    rewrite !He. reflexivity.
Qed.

End LinkSafety.

(** *** The amount field and the amount *)

Lemma all_digits_no_point (s : string) :
  all_digits s = true -> GooglePay.has_char "." s = false.
Proof.
  induction s as [| c r IH]; [reflexivity |]. cbn [all_digits GooglePay.has_char].
  intros Hs. apply andb_prop in Hs as [Hc Hr]. rewrite IH by exact Hr.
  destruct (Ascii.eqb_spec c "."%char) as [-> | _]; [discriminate Hc | reflexivity].
Qed.

Lemma decimal_digits_inj (a b : Z) :
  0 <= a -> 0 <= b -> decimal_digits a = decimal_digits b -> a = b.
Proof.
  intros Ha Hb E. unfold decimal_digits in E.
  assert (Hnn : forall n, N.to_uint n <> Decimal.Nil).
  { intros [| p]; [discriminate | apply DecimalPos.Unsigned.to_uint_nonnil]. }
  pose proof (DecimalString.NilZero.usu _ (Hnn (Z.to_N a))) as Ua.
  pose proof (DecimalString.NilZero.usu _ (Hnn (Z.to_N b))) as Ub.
  rewrite E, Ub in Ua. injection Ua as Ua.
  apply DecimalN.Unsigned.to_uint_inj in Ua. lia.
Qed.

Lemma digit_char_inj (a b : Z) :
  0 <= a <= 9 -> 0 <= b <= 9 -> digit_char a = digit_char b -> a = b.
Proof.
  intros Ha Hb E. unfold digit_char in E. apply (f_equal N_of_ascii) in E.
  rewrite !N_ascii_embedding in E by lia. lia.
Qed.

Lemma fixed2_inj (n n' : Z) : 0 <= n -> 0 <= n' -> fixed2 n = fixed2 n' -> n = n'.
Proof.
  intros Hn Hn' E. unfold fixed2 in E.
  apply append_separator_inj in E as [Eu Ed];
    try (apply all_digits_no_point, decimal_digits_all_digits).
  injection Ed as E1 E2.
  assert (Hu : n / 100 = n' / 100)
    by (apply decimal_digits_inj; [apply Z.div_pos; lia | apply Z.div_pos; lia | exact Eu]).
  assert (H1 : n mod 100 / 10 = n' mod 100 / 10)
    by (apply digit_char_inj; [Z.div_mod_to_equations; lia .. | exact E1]).
  assert (H2 : n mod 10 = n' mod 10)
    by (apply digit_char_inj; [Z.div_mod_to_equations; lia .. | exact E2]).
  clear -Hu H1 H2 Hn Hn'. Z.div_mod_to_equations. lia.
Qed.

Section AmountField.
Import GooglePay.
Variable numberToString : float -> string.

(** X15.  For amounts strictly between 0 and 10^21 the amount field of the
    link is the amount rounded to the nearest hundredth, a tie going up:
    it is the two-decimal text of an integer number of hundredths that
    differs from 100 times the amount by at most one half.  Two such
    amounts give the same field exactly when they round to the same number
    of hundredths, so the field determines the amount to be paid to the
    hundredth. *)
Theorem amount_field_is_the_nearest_hundredth (a b : float) :
  (0 <? a)%float = true -> (a <? 1e21)%float = true ->
  (0 <? b)%float = true -> (b <? 1e21)%float = true ->
  exists m e m' e',
    Prim2SF a = S754_finite false m e
    /\ Prim2SF b = S754_finite false m' e'
    /\ toFixed2 numberToString a = fixed2 (round_hundredths m e)
    /\ 0 <= round_hundredths m e
    /\ (0 <= e -> round_hundredths m e = 100 * Zpos m * 2 ^ e)
    /\ (e < 0 -> - 2 ^ (- e) < 2 ^ (- e + 1) * round_hundredths m e - 200 * Zpos m
                 <= 2 ^ (- e))
    /\ (toFixed2 numberToString a = toFixed2 numberToString b
        <-> round_hundredths m e = round_hundredths m' e').
Proof.
  intros Ha0 Ha1 Hb0 Hb1.
  assert (Hra : positive_below_1e21 a = true)
    by (rewrite positive_below_1e21_spec, Ha0, Ha1; reflexivity).
  assert (Hrb : positive_below_1e21 b = true)
    by (rewrite positive_below_1e21_spec, Hb0, Hb1; reflexivity).
  destruct (toFixed2_in_range numberToString a Hra) as (m & e & Ea & Fa).
  destruct (toFixed2_in_range numberToString b Hrb) as (m' & e' & Eb & Fb).
  destruct (round_hundredths_nearest m e) as (Hn & Hexact & Hnear).
  destruct (round_hundredths_nearest m' e') as (Hn' & _ & _).
  exists m, e, m', e'. repeat (split; [assumption |]).
  rewrite Fa, Fb. split; [apply fixed2_inj; assumption | intros ->; reflexivity].
Qed.

End AmountField.

Lemma amount_field_is_the_nearest_hundredth_witness :
  exists m e m' e',
    Prim2SF 0.3 = S754_finite false m e
    /\ Prim2SF (0.1 + 0.2) = S754_finite false m' e'
    /\ GooglePay.toFixed2 (fun _ => "") 0.3 = fixed2 (GooglePay.round_hundredths m e)
    /\ 0 <= GooglePay.round_hundredths m e
    /\ (0 <= e -> GooglePay.round_hundredths m e = 100 * Zpos m * 2 ^ e)
    /\ (e < 0 -> - 2 ^ (- e) < 2 ^ (- e + 1) * GooglePay.round_hundredths m e - 200 * Zpos m
                 <= 2 ^ (- e))
    /\ (GooglePay.toFixed2 (fun _ => "") 0.3 = GooglePay.toFixed2 (fun _ => "") (0.1 + 0.2)
        <-> GooglePay.round_hundredths m e = GooglePay.round_hundredths m' e').
Proof.
  apply (amount_field_is_the_nearest_hundredth (fun _ => "") 0.3 (0.1 + 0.2));
    vm_compute; reflexivity.
Defined.

(* --------------------------------------------------------------------- *)
(** ** 25. The balance engine: order and increments *)
(* --------------------------------------------------------------------- *)

Lemma sumZ_Permutation (l l' : list Z) : Permutation l l' -> sumZ l = sumZ l'.
Proof. induction 1; cbn [sumZ]; lia. Qed.

(** X16.  In exact two-decimal arithmetic the balances do not depend on
    the order in which the storage hands out the expenses (the query of
    [calculateBalances] asks for none).  In binary64 they do: three
    payments of 0.1, 0.2 and 0.3 by one member give 0.6000000000000001 in
    this order and 0.6 in the reverse order. *)
Theorem exact_balances_do_not_depend_on_the_order
    (es es' : list (GroupExpense Z)) (ms : list GroupMember) :
  Permutation es es' ->
  calculateBalances (Some es) (Some ms) = calculateBalances (Some es') (Some ms)
  /\ exists (fs : list (GroupExpense float)),
       option_map (map balance) (calculateBalances (Some fs) (Some [ann]))
       = Some [0.6000000000000001%float]
       /\ option_map (map balance) (calculateBalances (Some (rev fs)) (Some [ann]))
          = Some [0.6%float].
Proof.
  intros Hp. split.
  - cbn. f_equal. apply map_ext. intros m. unfold balance_of. f_equal.
    rewrite !exact_member_total. apply sumZ_Permutation, Permutation_map.
    unfold ledger. apply Permutation_flat_map, Hp.
  - exists [ {| id := "e1"; amount := 0.1%float; paid_by := "A"; expense_splits := [] |};
             {| id := "e2"; amount := 0.2%float; paid_by := "A"; expense_splits := [] |};
             {| id := "e3"; amount := 0.3%float; paid_by := "A"; expense_splits := [] |} ].
    split; vm_compute; reflexivity.
Qed.

Lemma exact_balances_do_not_depend_on_the_order_witness :
  calculateBalances (Some [snack; lunch]) (Some [ann; bob])
  = calculateBalances (Some [lunch; snack]) (Some [ann; bob])
  /\ exists (fs : list (GroupExpense float)),
       option_map (map balance) (calculateBalances (Some fs) (Some [ann]))
       = Some [0.6000000000000001%float]
       /\ option_map (map balance) (calculateBalances (Some (rev fs)) (Some [ann]))
          = Some [0.6%float].
Proof.
  apply (exact_balances_do_not_depend_on_the_order [snack; lunch] [lunch; snack] [ann; bob]).
  apply perm_swap.
Defined.

Section Increment.
Context {num : Type} `{JsNumber num}.

Lemma running_balance_app (k : string) (ens ens' : list (Entry num)) (a : num) :
  running_balance k (ens ++ ens') a = running_balance k ens' (running_balance k ens a).
Proof. unfold running_balance. apply fold_left_app. Qed.

Lemma running_balance_others (k : string) (ens : list (Entry num)) (a : num) :
  Forall (fun en => entry_user en <> k) ens -> running_balance k ens a = a.
Proof.
  induction 1 as [| en ens Hen _ IH]; [reflexivity |].
  unfold running_balance in *. cbn [fold_left].
  destruct (decide (entry_user en = k)); [contradiction | exact IH].
Qed.

Lemma ledger_snoc (es : list (GroupExpense num)) (e : GroupExpense num) :
  ledger (es ++ [e]) = ledger es ++ entries_of e.
Proof. unfold ledger. rewrite flat_map_app. cbn. rewrite app_nil_r. reflexivity. Qed.

End Increment.

(** X17.  One more expense (finite binary64 amounts) changes the balances
    as follows: each member's new balance is the old one with the credit
    and the debits of that member in the new expense added and subtracted,
    in the order payer first and then the splits; the balance of a member
    who neither paid the new expense nor has a split in it is the same
    number as before. *)
Theorem a_new_expense_moves_only_its_members
    (es : list (GroupExpense float)) (e : GroupExpense float) (ms : list GroupMember) :
  Forall finite_amounts es ->
  finite_amounts e ->
  exists old new,
    calculateBalances (Some es) (Some ms) = Some old
    /\ calculateBalances (Some (es ++ [e])) (Some ms) = Some new
    /\ Forall2 (fun b b' =>
                  bal_user_id b' = bal_user_id b
                  /\ balance b' = running_balance (bal_user_id b) (entries_of e) (balance b)
                  /\ (paid_by e <> bal_user_id b ->
                      Forall (fun s => split_user_id s <> bal_user_id b) (expense_splits e) ->
                      balance b' = balance b))
         old new.
Proof.
  intros Hes He.
  exists (map (balance_of (balanceMap es)) ms), (map (balance_of (balanceMap (es ++ [e]))) ms).
  split; [reflexivity |]. split; [reflexivity |].
  assert (Hall : Forall finite_amounts (es ++ [e]))
    by (apply Forall_app; split; [exact Hes | constructor; [exact He | constructor]]).
  induction ms as [| m ms IH]; cbn [map]; constructor; [| exact IH].
  cbn [balance_of bal_user_id balance].
  assert (Hstep : get_or0 (balanceMap (es ++ [e])) (user_id m)
                  = running_balance (user_id m) (entries_of e)
                      (get_or0 (balanceMap es) (user_id m))).
  { rewrite !float_get_or0_balanceMap by assumption.
    unfold member_total. rewrite ledger_snoc, running_balance_app. reflexivity. }
  split; [reflexivity |]. split; [exact Hstep |].
  intros Hp Hs. rewrite Hstep. apply running_balance_others.
  unfold entries_of. constructor; [exact Hp |].
  apply Forall_map. eapply Forall_impl; [exact Hs |]. intros s Hne. exact Hne.
Qed.

Lemma a_new_expense_moves_only_its_members_witness :
  exists old new,
    calculateBalances (Some [dinner]) (Some [ann; bob; carol]) = Some old
    /\ calculateBalances (Some ([dinner] ++ [dinner])) (Some [ann; bob; carol]) = Some new
    /\ Forall2 (fun b b' =>
                  bal_user_id b' = bal_user_id b
                  /\ balance b'
                     = running_balance (bal_user_id b) (entries_of dinner) (balance b)
                  /\ (paid_by dinner <> bal_user_id b ->
                      Forall (fun s => split_user_id s <> bal_user_id b)
                        (expense_splits dinner) ->
                      balance b' = balance b))
         old new.
Proof.
  apply (a_new_expense_moves_only_its_members [dinner] dinner [ann; bob; carol]).
  - repeat constructor.
  - repeat constructor.
Defined.

(* --------------------------------------------------------------------- *)
(** ** 26. From the balances to the settlement link *)
(* --------------------------------------------------------------------- *)

Lemma positive_not_negative (x : float) : (0 <? x)%float = true -> (x <? 0)%float = false.
Proof.
  rewrite !ltb_spec. change (Prim2SF 0) with (S754_zero false).
  destruct (Prim2SF x) as [[|] | [|] | | [|] m e]; cbn; congruence.
Qed.

Lemma negative_abs_positive (x : float) :
  (x <? 0)%float = true -> (0 <? PrimFloat.abs x)%float = true.
Proof.
  rewrite !ltb_spec, abs_spec. change (Prim2SF 0) with (S754_zero false).
  destruct (Prim2SF x) as [[|] | [|] | | [|] m e]; cbn; congruence.
Qed.

Lemma name_or_unknown_nonempty (n : option string) : name_or_unknown n <> "".
Proof.
  unfold name_or_unknown. destruct n as [s |]; [| discriminate].
  destruct (decide (s = "")); [discriminate | assumption].
Qed.

Section SettleFromBalances.
Import GroupsPage.
Variable numberToString : float -> string.
Variable userId : string.

(** X18.  When the signed-in user's row of the computed balances shows
    the settle button and the click opens a link, the link names a member
    of the group other than the user, whose computed balance is above 0;
    the name in it is never empty (a member without a name is called
    Unknown); and the amount asked for is the user's debt, a number above
    0. *)
Theorem settlement_link_from_the_balances
    (es : list (GroupExpense float)) (ms : list GroupMember)
    (out : list (Balance float)) (b : Balance float) (g : option Group) (url : string) :
  calculateBalances (Some es) (Some ms) = Some out ->
  b ∈ out ->
  settle_button_shown userId b = true ->
  settle_click numberToString out b g = Some url ->
  exists m,
    m ∈ ms
    /\ user_id m <> userId
    /\ (0 <? get_or0 (balanceMap es) (user_id m))%float = true
    /\ name_or_unknown (full_name m) <> ""
    /\ (0 <? PrimFloat.abs (balance b))%float = true
    /\ url = GooglePay.generateGooglePayUrl numberToString
               {| GooglePay.upiId := "merchant@upi";
                  GooglePay.amount := PrimFloat.abs (balance b);
                  GooglePay.name := name_or_unknown (full_name m);
                  GooglePay.note := settlement_note g |}.
Proof.
  intros Hout Hb Hshown Hclick. cbn in Hout. injection Hout as <-.
  unfold settle_button_shown in Hshown. apply andb_prop in Hshown as [Hneg Hme].
  apply bool_decide_eq_true in Hme.
  unfold settle_click, find_creditor in Hclick.
  pose proof (find_first (fun c : Balance float => (0 <? balance c)%float)
                (map (balance_of (balanceMap es)) ms)) as Hf.
  destruct (List.find _ _) as [c |]; [| discriminate].
  injection Hclick as <-.
  destruct Hf as (before & after & Hsplit & _ & Hpos).
  assert (Hc : c ∈ map (balance_of (balanceMap es)) ms)
    by (rewrite Hsplit; apply elem_of_app; right; left).
  apply list_elem_of_fmap in Hc as (m & -> & Hm).
  apply list_elem_of_fmap in Hb as (mb & -> & _).
  cbn [balance_of balance bal_user_id user_name] in *.
  exists m. split; [exact Hm |]. split.
  { intros E. rewrite E, <- Hme in Hpos.
    apply positive_not_negative in Hpos. congruence. }
  split; [exact Hpos |].
  split; [apply name_or_unknown_nonempty |].
  split; [apply negative_abs_positive, Hneg | reflexivity].
Qed.

End SettleFromBalances.

Lemma settlement_link_from_the_balances_witness :
  exists m,
    m ∈ [ann; bob]
    /\ user_id m <> "B"
    /\ (0 <? get_or0 (balanceMap [dinner]) (user_id m))%float = true
    /\ name_or_unknown (full_name m) <> ""
    /\ (0 <? PrimFloat.abs (balance (balance_of (balanceMap [dinner]) bob)))%float = true
    /\ "upi://pay?pa=merchant%40upi&pn=Ann&am=49.99&cu=INR&tn=Splitzee+settlement+for+undefined"
       = GooglePay.generateGooglePayUrl (fun _ => "")
           {| GooglePay.upiId := "merchant@upi";
              GooglePay.amount := PrimFloat.abs (balance (balance_of (balanceMap [dinner]) bob));
              GooglePay.name := name_or_unknown (full_name m);
              GooglePay.note := GroupsPage.settlement_note None |}.
Proof.
  apply (settlement_link_from_the_balances (fun _ => "") "B" [dinner] [ann; bob]
           (map (balance_of (balanceMap [dinner])) [ann; bob])
           (balance_of (balanceMap [dinner]) bob) None).
  - reflexivity.
  - right. left.
  - vm_compute. reflexivity.
  - vm_compute. reflexivity.
Defined.
